(** * create-dart-test: the class matcher, the path deriver, the test-content
      generator and the create-test command, embedded from the TypeScript
      sources and checked against the specification.

    Layout: the embedding comes first (JavaScript strings, the regular
    expressions of the sources with the matcher that runs them, Node's [path]
    module, the functions of the extension, the editor's file system), the
    theorems follow. *)

From Stdlib Require Import NArith ZArith List Lia.
From stdpp Require Import base option list strings gmap.

Local Open Scope N_scope.

(* ===================================================================== *)
(** * Part I: the embedding                                               *)
(* ===================================================================== *)

(** ** JavaScript strings

    A JavaScript string is a sequence of UTF-16 code units; the regular
    expressions of the sources (no [u] flag) and Node's [path] functions work
    on code units.  A code unit is an [N], a string is a [list N]. *)

Abbreviation jsstring := (list N).

(** [js "abc"] is the JavaScript string with the code units of the ASCII
    literal. *)
Definition js (s : string) : jsstring :=
  map Ascii.N_of_ascii (String.list_ascii_of_string s).
Arguments js : simpl never.

Definition LF : N := 10.
Definition CR : N := 13.
Definition SLASH : N := 47.
Definition DOT : N := 46.
Definition QUOTE : N := 39.

(** [s.startsWith(p)] *)
Fixpoint startsWith (s p : jsstring) {struct p} : bool :=
  match p, s with
  | [], _ => true
  | _ :: _, [] => false
  | a :: p', b :: s' => (a =? b) && startsWith s' p'
  end.

(** [s.substring(n)] for [n] a non-negative literal. *)
Definition substring_from (n : nat) (s : jsstring) : jsstring := drop n s.

(** [s.split(c)] for a one-character separator string [c]. *)
Fixpoint split_on (c : N) (s : jsstring) : list jsstring :=
  match s with
  | [] => [[]]
  | x :: s' =>
      if x =? c then [] :: split_on c s'
      else match split_on c s' with
           | [] => [[x]]
           | piece :: pieces => (x :: piece) :: pieces
           end
  end.

(** [pieces.join(d)] *)
Fixpoint join_with (d : jsstring) (pieces : list jsstring) : jsstring :=
  match pieces with
  | [] => []
  | [piece] => piece
  | piece :: rest => piece ++ d ++ join_with d rest
  end.

(** [hay.includes(needle)] *)
Fixpoint includes (hay needle : jsstring) : bool :=
  startsWith hay needle ||
  match hay with
  | [] => false
  | _ :: hay' => includes hay' needle
  end.

(** [s.endsWith(suffix)] *)
Definition endsWith (s suffix : jsstring) : bool :=
  (length suffix <=? length s)%nat &&
  bool_decide (drop (length s - length suffix) s = suffix).

(** [s.replace(pattern, replacement)] for a string pattern and a
    replacement without [$]: the first occurrence is replaced. *)
Fixpoint replace_first (s pattern replacement : jsstring) : jsstring :=
  if startsWith s pattern then replacement ++ drop (length pattern) s
  else match s with
       | [] => []
       | c :: s' => c :: replace_first s' pattern replacement
       end.

(** ** Regular expressions

    The sources contain three regular-expression literals.  They are written
    below as syntax trees and run by a backtracking matcher that follows the
    ECMAScript semantics of the constructs they use: ordered alternation,
    greedy quantifiers with the empty-iteration check of RepeatMatcher,
    capture groups, and the assertions [^] and [$] with and without the [m]
    flag.  None of the three has a capture group inside a quantifier, so the
    reset of inner captures at each iteration has nothing to reset and is
    left out. *)

Module Regex.

Inductive regex :=
| Eps
| Chr (p : N -> bool)
| Seq (a b : regex)
| Alt (a b : regex)
| Star (a : regex)
| Plus (a : regex)
| Opt (a : regex)
| Grp (n : nat) (a : regex)
| Bol (multiline : bool)
| Eol (multiline : bool).

(** The matcher state: the input before the current position (most recent
    code unit first), the input from the current position on, and the
    captures made so far (most recent first). *)
Record mstate := MState {
  consumed : jsstring;
  remaining : jsstring;
  captures : list (nat * jsstring)
}.

Definition in_range (lo hi c : N) : bool := (lo <=? c) && (c <=? hi).

(** LineTerminator: LF, CR, U+2028, U+2029. *)
Definition is_line_terminator (c : N) : bool :=
  (c =? 10) || (c =? 13) || (c =? 8232) || (c =? 8233).

(** [\s]: WhiteSpace and LineTerminator. *)
Definition is_space (c : N) : bool :=
  (c =? 9) || (c =? 11) || (c =? 12) || (c =? 32) || (c =? 160) ||
  (c =? 5760) || in_range 8192 8202 c || (c =? 8239) || (c =? 8287) ||
  (c =? 12288) || (c =? 65279) || is_line_terminator c.

(** [[A-Za-z_]] *)
Definition ident_start (c : N) : bool :=
  in_range 65 90 c || in_range 97 122 c || (c =? 95).

(** [[A-Za-z0-9_]] *)
Definition ident_char (c : N) : bool :=
  in_range 65 90 c || in_range 97 122 c || in_range 48 57 c || (c =? 95).

(** [[a-z_]] *)
Definition lower_start (c : N) : bool := in_range 97 122 c || (c =? 95).

(** [[a-z0-9_]] *)
Definition lower_char (c : N) : bool :=
  in_range 97 122 c || in_range 48 57 c || (c =? 95).

(** A literal run of characters. *)
Definition lit (s : jsstring) : regex :=
  foldr (fun c r => Seq (Chr (N.eqb c)) r) Eps s.

Definition step (c : N) (rest : jsstring) (x : mstate) : mstate :=
  MState (c :: consumed x) rest (captures x).

(** The substring matched between state [x] and a later state [y]. *)
Definition matched_between (x y : mstate) : jsstring :=
  take (length (remaining x) - length (remaining y)) (remaining x).

Definition set_capture (n : nat) (s : jsstring) (y : mstate) : mstate :=
  MState (consumed y) (remaining y) ((n, s) :: captures y).

Definition at_line_start (multiline : bool) (x : mstate) : bool :=
  match consumed x with
  | [] => true
  | c :: _ => multiline && is_line_terminator c
  end.

Definition at_line_end (multiline : bool) (x : mstate) : bool :=
  match remaining x with
  | [] => true
  | c :: _ => multiline && is_line_terminator c
  end.

Definition shorter (y x : mstate) : bool :=
  (length (remaining y) <? length (remaining x))%nat.

(** RepeatMatcher for a greedy quantifier without upper bound, once its
    minimum is reached: try one more iteration, which must consume input,
    and fall back to the continuation.  Every iteration shortens the
    remaining input, so [fuel] above its length is never used up. *)
Fixpoint repeat_matcher
    (body : mstate -> (mstate -> option mstate) -> option mstate)
    (fuel : nat) (x : mstate) (k : mstate -> option mstate) : option mstate :=
  match fuel with
  | O => None
  | S fuel' =>
      match body x (fun y => if shorter y x
                             then repeat_matcher body fuel' y k
                             else None) with
      | Some r => Some r
      | None => k x
      end
  end.

(** The matcher of a pattern, in continuation-passing style: [m r x k] tries
    the ways [r] can match at [x] in priority order and returns the first
    for which the continuation [k] succeeds. *)
Fixpoint m (r : regex) (x : mstate) (k : mstate -> option mstate)
    : option mstate :=
  match r with
  | Eps => k x
  | Chr p =>
      match remaining x with
      | c :: rest => if p c then k (step c rest x) else None
      | [] => None
      end
  | Seq a b => m a x (fun y => m b y k)
  | Alt a b =>
      match m a x k with
      | Some res => Some res
      | None => m b x k
      end
  | Star a => repeat_matcher (m a) (S (length (remaining x))) x k
  | Plus a =>
      m a x (fun y => repeat_matcher (m a) (S (length (remaining y))) y k)
  | Opt a =>
      match m a x (fun y => if shorter y x then k y else None) with
      | Some res => Some res
      | None => k x
      end
  | Grp n a => m a x (fun y => k (set_capture n (matched_between x y) y))
  | Bol ml => if at_line_start ml x then k x else None
  | Eol ml => if at_line_end ml x then k x else None
  end.

(** What [RegExp.prototype.exec] returns for a pattern without [g] or [y]:
    where the match starts, and the state at its end. *)
Record match_result := MatchResult {
  index : nat;
  final : mstate
}.

(** RegExpBuiltinExec: the start positions are tried from left to right. *)
Fixpoint exec_from (r : regex) (before : jsstring) (rest : jsstring)
    : option match_result :=
  match m r (MState before rest []) Some with
  | Some y => Some (MatchResult (length before) y)
  | None =>
      match rest with
      | [] => None
      | c :: rest' => exec_from r (c :: before) rest'
      end
  end.

(** [s.match(r)] for a pattern without the [g] flag. *)
Definition exec (r : regex) (s : jsstring) : option match_result :=
  exec_from r [] s.

Fixpoint lookup_capture (n : nat) (caps : list (nat * jsstring))
    : option jsstring :=
  match caps with
  | [] => None
  | (i, s) :: caps' => if (i =? n)%nat then Some s else lookup_capture n caps'
  end.

(** [match[n]]: the last capture of group [n]. *)
Definition group (n : nat) (res : match_result) : option jsstring :=
  lookup_capture n (captures (final res)).

(** [s.split(r)] for a pattern [r] without capture groups.  At each position
    the pattern is tried there and nowhere else; a match that ends where the
    current piece starts is skipped.  The pieces and the positions both run
    out within [fuel] steps when [fuel] is above twice the length. *)
Fixpoint split_loop (r : regex) (fuel : nat) (before piece rest : jsstring)
    : list jsstring :=
  match fuel with
  | O => []
  | S fuel' =>
      match rest with
      | [] => [rev piece]
      | c :: rest' =>
          match m r (MState before rest []) Some with
          | Some y =>
              if (length (remaining y) =? length rest)%nat && bool_decide (piece = [])
              then split_loop r fuel' (c :: before) (c :: piece) rest'
              else rev piece :: split_loop r fuel' (consumed y) [] (remaining y)
          | None => split_loop r fuel' (c :: before) (c :: piece) rest'
          end
      end
  end.

Definition split_regex (r : regex) (s : jsstring) : list jsstring :=
  match s with
  | [] => match m r (MState [] [] []) Some with
          | Some _ => []
          | None => [[]]
          end
  | _ => split_loop r (2 * length s + 2) [] [] s
  end.

End Regex.

Import Regex.

(** ** src/constants.ts *)

(** One of [abstract|base|interface|final|sealed|mixin]. *)
Definition modifier_keywords : list jsstring :=
  [js "abstract"; js "base"; js "interface"; js "final"; js "sealed";
   js "mixin"].

Definition MODIFIER : regex :=
  Alt (lit (js "abstract"))
  (Alt (lit (js "base"))
  (Alt (lit (js "interface"))
  (Alt (lit (js "final"))
  (Alt (lit (js "sealed"))
       (lit (js "mixin")))))).

(** [\s*(?:(?:abstract|base|interface|final|sealed|mixin)\s+)*class\s+],
    the part of the pattern before the class name. *)
Definition CLASS_HEAD : regex :=
  Seq (Star (Chr is_space))
  (Seq (Star (Seq MODIFIER (Plus (Chr is_space))))
  (Seq (lit (js "class"))
       (Plus (Chr is_space)))).

(** The capture group of the class name: an opening parenthesis,
    [[A-Za-z_][A-Za-z0-9_]*], a closing parenthesis. *)
Definition CLASS_NAME : regex :=
  Grp 2 (Seq (Chr ident_start) (Star (Chr ident_char))).

(** [DART_CLASS_REGEX]: the assertion [^], then capture group 1 around the
    head and the class name (itself capture group 2). *)
Definition DART_CLASS_REGEX : regex :=
  Seq (Bol false) (Grp 1 (Seq CLASS_HEAD CLASS_NAME)).

Definition COMMAND_ID : jsstring := js "createTest.createTestForClass".

(** [/\r?\n/], the separator of [document.getText().split]. *)
Definition LINE_BREAK : regex := Seq (Opt (Chr (N.eqb CR))) (Chr (N.eqb LF)).

(** The pattern of [getPackageName], with the [m] flag: [^name:\s*], capture
    group 1 around [[a-z_][a-z0-9_]*], then [\s*$]. *)
Definition PUBSPEC_NAME_REGEX : regex :=
  Seq (Bol true)
  (Seq (lit (js "name:"))
  (Seq (Star (Chr is_space))
  (Seq (Grp 1 (Seq (Chr lower_start) (Star (Chr lower_char))))
  (Seq (Star (Chr is_space))
       (Eol true))))).

(** ** The class-declaration matcher *)

Record ClassInfo := mkClassInfo {
  uri : jsstring;
  className : jsstring
}.

Record Position := mkPosition { line : nat; character : nat }.

Record Range := mkRange { range_start : Position; range_end : Position }.

Record Command := mkCommand {
  title : jsstring;
  tooltip : jsstring;
  command : jsstring;
  arguments : list ClassInfo
}.

Record CodeLens := mkCodeLens { range : Range; lens_command : Command }.

(** The body of the loop of [provideCodeLenses] at line [i]: the lens pushed
    for that line, if the line matches.  Both groups take part in every
    match of the pattern, so [whole] and [className] are never undefined. *)
Definition lensOfLine (documentUri : jsstring) (i : nat) (lineText : jsstring)
    : option CodeLens :=
  match exec DART_CLASS_REGEX lineText with
  | Some res =>
      match group 1 res, group 2 res with
      | Some whole, Some name =>
          Some (mkCodeLens
                  (mkRange (mkPosition i 0) (mkPosition i (length whole)))
                  (mkCommand
                     (js "$(beaker) Create test file")
                     (js "Create test file for " ++ name)
                     COMMAND_ID
                     [mkClassInfo documentUri name]))
      | _, _ => None
      end
  | None => None
  end.

Fixpoint lensesFrom (documentUri : jsstring) (i : nat) (lines : list jsstring)
    : list CodeLens :=
  match lines with
  | [] => []
  | l :: lines' =>
      match lensOfLine documentUri i l with
      | Some lens => lens :: lensesFrom documentUri (S i) lines'
      | None => lensesFrom documentUri (S i) lines'
      end
  end.

(** [DartTestCodeLensProvider.provideCodeLenses], given [document.uri.toString()]
    and [document.getText()]. *)
Definition provideCodeLenses (documentUri text : jsstring) : list CodeLens :=
  lensesFrom documentUri 0 (split_regex LINE_BREAK text).

(** ** Node's [path] module

    The extension calls [path.sep], [path.extname], [path.basename],
    [path.dirname], [path.join] and [path.relative].  Node binds [path] to
    its POSIX or its Windows implementation according to the host, so the
    functions of the extension are written over an interface, and the POSIX
    implementation is given as an instance. *)

Module path.

Class PathApi := {
  sep : N;
  extname : jsstring -> jsstring;
  basename : jsstring -> option jsstring -> jsstring;
  dirname : jsstring -> jsstring;
  join : list jsstring -> jsstring;
  relative : jsstring -> jsstring -> jsstring
}.

End path.

(** [path.posix].  [extname], [basename] and [dirname] scan the path from
    its end, index by index, as Node does.  [normalizeString] is Node's
    segment automaton run on the segments between separators: an empty
    segment or [.] is dropped, [..] removes the segment before it, or is
    kept when there is none to remove and the path is relative.  [resolve]
    and [relative] read the working directory of the process, [cwd]. *)

Module posix.

Definition slice (s : jsstring) (from to : Z) : jsstring :=
  take (Z.to_nat to - Z.to_nat from) (drop (Z.to_nat from) s).

Definition is_slash (c : N) : bool := c =? SLASH.

(** The loop of [extname] from index [i] down; [rev_chars] holds the code
    units at [i], [i-1], ..., [0].  Returns [startDot], [startPart], [end]
    and [preDotState]. *)
Fixpoint extname_loop (rev_chars : jsstring) (i : Z)
    (startDot startPart end_ : Z) (matchedSlash : bool) (preDotState : Z)
    : Z * Z * Z * Z :=
  match rev_chars with
  | [] => (startDot, startPart, end_, preDotState)
  | code :: r =>
      if is_slash code then
        if negb matchedSlash then (startDot, (i + 1)%Z, end_, preDotState)
        else extname_loop r (i - 1)%Z startDot startPart end_ matchedSlash
               preDotState
      else
        let matchedSlash' := if (end_ =? -1)%Z then false else matchedSlash in
        let end' := if (end_ =? -1)%Z then (i + 1)%Z else end_ in
        if code =? DOT then
          if (startDot =? -1)%Z
          then extname_loop r (i - 1)%Z i startPart end' matchedSlash'
                 preDotState
          else extname_loop r (i - 1)%Z startDot startPart end' matchedSlash' 1%Z
        else if negb (startDot =? -1)%Z
          then extname_loop r (i - 1)%Z startDot startPart end' matchedSlash'
                 (-1)%Z
          else extname_loop r (i - 1)%Z startDot startPart end' matchedSlash'
                 preDotState
  end.

Definition extname (p : jsstring) : jsstring :=
  let '(startDot, startPart, end_, preDotState) :=
    extname_loop (rev p) (Z.of_nat (length p) - 1)%Z (-1)%Z 0%Z (-1)%Z true 0%Z
  in
  if (startDot =? -1)%Z || (end_ =? -1)%Z || (preDotState =? 0)%Z ||
     ((preDotState =? 1)%Z && (startDot =? end_ - 1)%Z &&
      (startDot =? startPart + 1)%Z)
  then []
  else slice p startDot end_.

(** The loop of [basename] when no suffix is looked for.  Returns [start]
    and [end]. *)
Fixpoint basename_loop (rev_chars : jsstring) (i : Z) (end_ : Z)
    (matchedSlash : bool) : Z * Z :=
  match rev_chars with
  | [] => (0%Z, end_)
  | code :: r =>
      if is_slash code then
        if negb matchedSlash then ((i + 1)%Z, end_)
        else basename_loop r (i - 1)%Z end_ matchedSlash
      else if (end_ =? -1)%Z then basename_loop r (i - 1)%Z (i + 1)%Z false
      else basename_loop r (i - 1)%Z end_ matchedSlash
  end.

(** The loop of [basename] with a suffix.  Returns [start], [end] and
    [firstNonSlashEnd]. *)
Fixpoint basename_suffix_loop (suffix : jsstring) (rev_chars : jsstring)
    (i : Z) (end_ : Z) (matchedSlash : bool) (extIdx firstNonSlashEnd : Z)
    : Z * Z * Z :=
  match rev_chars with
  | [] => (0%Z, end_, firstNonSlashEnd)
  | code :: r =>
      if is_slash code then
        if negb matchedSlash then ((i + 1)%Z, end_, firstNonSlashEnd)
        else basename_suffix_loop suffix r (i - 1)%Z end_ matchedSlash extIdx
               firstNonSlashEnd
      else
        let matchedSlash' :=
          if (firstNonSlashEnd =? -1)%Z then false else matchedSlash in
        let first' :=
          if (firstNonSlashEnd =? -1)%Z then (i + 1)%Z else firstNonSlashEnd in
        if (0 <=? extIdx)%Z then
          if code =? nth (Z.to_nat extIdx) suffix 0 then
            basename_suffix_loop suffix r (i - 1)%Z
              (if (extIdx - 1 =? -1)%Z then i else end_)
              matchedSlash' (extIdx - 1)%Z first'
          else
            basename_suffix_loop suffix r (i - 1)%Z first' matchedSlash' (-1)%Z
              first'
        else
          basename_suffix_loop suffix r (i - 1)%Z end_ matchedSlash' extIdx
            first'
  end.

Definition basename (p : jsstring) (suffix : option jsstring) : jsstring :=
  let last := (Z.of_nat (length p) - 1)%Z in
  let plain :=
    let '(start, end_) := basename_loop (rev p) last (-1)%Z true in
    if (end_ =? -1)%Z then [] else slice p start end_ in
  match suffix with
  | Some sfx =>
      if (0 <? length sfx)%nat && (length sfx <=? length p)%nat then
        if bool_decide (sfx = p) then []
        else
          let '(start, end_, firstNonSlashEnd) :=
            basename_suffix_loop sfx (rev p) last (-1)%Z true
              (Z.of_nat (length sfx) - 1)%Z (-1)%Z in
          let end' :=
            if (start =? end_)%Z then firstNonSlashEnd
            else if (end_ =? -1)%Z then Z.of_nat (length p)
            else end_ in
          slice p start end'
      else plain
  | None => plain
  end.

(** The loop of [dirname], from the last index down to index 1.  Returns
    [end]. *)
Fixpoint dirname_loop (rev_chars : jsstring) (i : Z) (matchedSlash : bool)
    : Z :=
  match rev_chars with
  | [] => (-1)%Z
  | code :: r =>
      if is_slash code then
        if negb matchedSlash then i
        else dirname_loop r (i - 1)%Z matchedSlash
      else dirname_loop r (i - 1)%Z false
  end.

Definition dirname (p : jsstring) : jsstring :=
  match p with
  | [] => js "."
  | c0 :: rest =>
      let hasRoot := is_slash c0 in
      let end_ := dirname_loop (rev rest) (Z.of_nat (length p) - 1)%Z true in
      if (end_ =? -1)%Z then (if hasRoot then js "/" else js ".")
      else if hasRoot && (end_ =? 1)%Z then js "//"
      else slice p 0%Z end_
  end.

(** One step of [normalizeString]: the segments kept so far (last one
    first) and the segment that ends at the separator just read. *)
Definition normalize_step (allowAboveRoot : bool) (kept : list jsstring)
    (seg : jsstring) : list jsstring :=
  if bool_decide (seg = []) || bool_decide (seg = js ".") then kept
  else if bool_decide (seg = js "..") then
    match kept with
    | prev :: kept' =>
        if bool_decide (prev = js "..")
        then (if allowAboveRoot then seg :: kept else kept)
        else kept'
    | [] => if allowAboveRoot then [seg] else []
    end
  else seg :: kept.

Definition normalizeString (p : jsstring) (allowAboveRoot : bool) : jsstring :=
  join_with (js "/")
    (rev (fold_left (normalize_step allowAboveRoot) (split_on SLASH p) [])).

Definition isAbsolute (p : jsstring) : bool :=
  match p with
  | c :: _ => is_slash c
  | [] => false
  end.

Definition normalize (p : jsstring) : jsstring :=
  match p with
  | [] => js "."
  | _ =>
      let trailingSeparator :=
        match last p with Some c => is_slash c | None => false end in
      let q := normalizeString p (negb (isAbsolute p)) in
      match q with
      | [] => if isAbsolute p then js "/"
              else if trailingSeparator then js "./" else js "."
      | _ => (if isAbsolute p then js "/" else []) ++ q ++
             (if trailingSeparator then js "/" else [])
      end
  end.

(** [join(...args)]: the non-empty arguments, joined by a slash and
    normalized. *)
Definition join (args : list jsstring) : jsstring :=
  match filter (fun a => a <> []) args with
  | [] => js "."
  | parts => normalize (join_with (js "/") parts)
  end.

(** [resolve(p)], with one argument. *)
Definition resolve (cwd p : jsstring) : jsstring :=
  let '(resolvedPath, resolvedAbsolute) :=
    match p with
    | [] => match cwd with
            | [] => ([], false)
            | _ => (cwd ++ js "/", isAbsolute cwd)
            end
    | _ => if isAbsolute p then (p ++ js "/", true)
           else match cwd with
                | [] => (p ++ js "/", false)
                | _ => (cwd ++ js "/" ++ p ++ js "/", isAbsolute cwd)
                end
    end in
  let q := normalizeString resolvedPath (negb resolvedAbsolute) in
  if resolvedAbsolute then js "/" ++ q
  else match q with [] => js "." | _ => q end.

(** The segments of a resolved path, after its leading slash. *)
Definition segments (resolved : jsstring) : list jsstring :=
  filter (fun s => s <> []) (split_on SLASH (drop 1 resolved)).

Fixpoint strip_common (a b : list jsstring) : list jsstring * list jsstring :=
  match a, b with
  | x :: a', y :: b' => if bool_decide (x = y) then strip_common a' b' else (a, b)
  | _, _ => (a, b)
  end.

(** [relative(from, to)]: both are resolved; one [..] for every segment of
    [from] below the common ancestor, then the segments of [to] below it. *)
Definition relative (cwd from to : jsstring) : jsstring :=
  if bool_decide (from = to) then []
  else
    let from' := resolve cwd from in
    let to' := resolve cwd to in
    if bool_decide (from' = to') then []
    else
      let '(up, down) := strip_common (segments from') (segments to') in
      join_with (js "/") (map (fun _ => js "..") up ++ down).

End posix.

(** [path] on a POSIX host whose process runs in directory [cwd]. *)
Definition posix_path (cwd : jsstring) : path.PathApi := {|
  path.sep := SLASH;
  path.extname := posix.extname;
  path.basename := posix.basename;
  path.dirname := posix.dirname;
  path.join := posix.join;
  path.relative := posix.relative cwd
|}.

(** ** The path deriver *)

Record TestFileInfo := mkTestFileInfo {
  testPath : jsstring;
  importPath : jsstring
}.

Section Deriver.
Context `{P : path.PathApi}.

(** [isUnderLibDirectory] *)
Definition isUnderLibDirectory (relativePath : jsstring) : bool :=
  startsWith relativePath (js "lib" ++ [path.sep]) ||
  startsWith relativePath (js "lib/").

(** A value is truthy in [if (packageName)] when it is a non-empty string. *)
Definition truthy (packageName : option jsstring) : bool :=
  match packageName with
  | Some (_ :: _) => true
  | _ => false
  end.

(** [calculateTestFileInfoForLib] *)
Definition calculateTestFileInfoForLib
    (workspaceRoot sourcePath relativePath sourceFileName ext : jsstring)
    (packageName : option jsstring) : TestFileInfo :=
  let pathUnderLib := substring_from 4 relativePath in
  let dirUnderLib := path.dirname pathUnderLib in
  let testFileName := sourceFileName ++ js "_test" ++ ext in
  let testDir := path.join [workspaceRoot; js "test"; dirUnderLib] in
  let testPath := path.join [testDir; testFileName] in
  let importPath :=
    if truthy packageName then
      let pathForImport :=
        join_with (js "/") (split_on path.sep pathUnderLib) in
      js "package:" ++ default [] packageName ++ js "/" ++ pathForImport
    else
      let testRelativePath := path.relative workspaceRoot testPath in
      let sourceRelativePath := path.relative workspaceRoot sourcePath in
      let importPath :=
        path.relative (path.dirname testRelativePath) sourceRelativePath in
      join_with (js "/") (split_on path.sep importPath)
  in
  mkTestFileInfo testPath importPath.

(** [calculateTestFileInfoForNonLib] *)
Definition calculateTestFileInfoForNonLib
    (sourcePath sourceFileName ext : jsstring) : TestFileInfo :=
  let sourceDir := path.dirname sourcePath in
  let testFileName := sourceFileName ++ js "_test" ++ ext in
  let testPath := path.join [sourceDir; testFileName] in
  let importPath := js "./" ++ sourceFileName ++ ext in
  mkTestFileInfo testPath importPath.

(** The path derivation of [handleCreateTestCommand]: from the path of the
    source file, the workspace root and the package name to the test file
    info. *)
Definition deriveTestFileInfo
    (workspaceRoot sourcePath : jsstring) (packageName : option jsstring)
    : TestFileInfo :=
  let ext := path.extname sourcePath in
  let sourceFileName := path.basename sourcePath (Some ext) in
  let relativePath := path.relative workspaceRoot sourcePath in
  if isUnderLibDirectory relativePath
  then calculateTestFileInfoForLib workspaceRoot sourcePath relativePath
         sourceFileName ext packageName
  else calculateTestFileInfoForNonLib sourcePath sourceFileName ext.

End Deriver.

(** ** The test-content generator *)

(** [generateTestContent] *)
Definition generateTestContent (className importPath : jsstring) : jsstring :=
  (js "import '" ++ importPath ++ js "';" ++ [LF] ++ [LF]) ++
  (js "void main() {" ++ [LF]) ++
  (js "  group('" ++ className ++ js "', () {" ++ [LF] ++ [LF]) ++
  (js "  });" ++ [LF]) ++
  (js "}" ++ [LF]).

(** ** The editor and its file system

    What the extension reads from its host: the file-system path of a URI
    ([vscode.Uri.parse(u).fsPath], absent when [Uri.parse] throws), the root
    of the workspace folder that contains a URI
    ([vscode.workspace.getWorkspaceFolder(u)?.uri.fsPath]) and the UTF-8
    codec of [Buffer].  [vscode.Uri.file(p)] names the file at path [p]; the
    file system below is keyed by that path. *)

Class Host := {
  host_path :: path.PathApi;
  uri_fsPath : jsstring -> option jsstring;
  workspaceFolderOf : jsstring -> option jsstring;
  utf8_encode : jsstring -> list Byte.byte;
  utf8_decode : list Byte.byte -> jsstring
}.

(** The calls the extension makes to the editor. *)
Inductive Call :=
| Stat (p : jsstring)
| ReadFile (p : jsstring)
| CreateDirectory (p : jsstring)
| WriteFile (p : jsstring) (content : list Byte.byte)
| OpenTextDocument (p : jsstring)
| ShowTextDocument (p : jsstring)
| ShowInformationMessage (msg : jsstring)
| ShowErrorMessage (msg : jsstring)
| ConsoleError (msg err : jsstring).

(** The world the command runs in: the files with their bytes, the
    directories, the calls the host refuses (each with the error it throws)
    and the calls made so far, oldest first. *)
Record World := mkWorld {
  files : gmap jsstring (list Byte.byte);
  directories : gset jsstring;
  refused : Call -> option jsstring;
  trace : list Call
}.

(** An awaited call returns a value or throws; an error is kept as the
    string [String(err)] renders. *)
Inductive outcome (A : Type) :=
| Returned (a : A)
| Thrown (err : jsstring).
Arguments Returned {A} a.
Arguments Thrown {A} err.

Definition IO (A : Type) : Type := World -> outcome A * World.

Definition io_ret {A} (a : A) : IO A := fun w => (Returned a, w).

Definition io_bind {A B} (c : IO A) (k : A -> IO B) : IO B :=
  fun w =>
    match c w with
    | (Returned a, w') => k a w'
    | (Thrown e, w') => (Thrown e, w')
    end.

Definition io_throw {A} (e : jsstring) : IO A := fun w => (Thrown e, w).

(** [try { c } catch (err) { handler(err) }] *)
Definition try_catch {A} (c : IO A) (handler : jsstring -> IO A) : IO A :=
  fun w =>
    match c w with
    | (Returned a, w') => (Returned a, w')
    | (Thrown e, w') => handler e w'
    end.

#[export] Instance io_mret : MRet IO := @io_ret.
#[export] Instance io_mbind : MBind IO := fun A B k c => io_bind c k.

Definition record_call (c : Call) (w : World) : World :=
  mkWorld (files w) (directories w) (refused w) (trace w ++ [c]).

(** A call that the host may refuse: it is recorded, and runs [effect] when
    the host lets it through. *)
Definition host_call {A} (c : Call) (effect : IO A) : IO A :=
  fun w =>
    let w' := record_call c w in
    match refused w c with
    | Some e => (Thrown e, w')
    | None => effect w'
    end.

Definition path_exists (p : jsstring) (w : World) : bool :=
  bool_decide (is_Some (files w !! p)) || bool_decide (p ∈ directories w).

Section Orchestrator.
Context `{H : Host}.

(** A directory with the directories above it: [dirname] is applied until it
    no longer changes the path, which takes at most one step per code
    unit. *)
Fixpoint ancestors (fuel : nat) (p : jsstring) : list jsstring :=
  match fuel with
  | O => [p]
  | S fuel' =>
      let parent := path.dirname p in
      if bool_decide (parent = p) then [p] else p :: ancestors fuel' parent
  end.

Definition with_directories (ds : list jsstring) (w : World) : World :=
  mkWorld (files w) (list_to_set ds ∪ directories w) (refused w) (trace w).

(** [vscode.workspace.fs.stat] *)
Definition stat (p : jsstring) : IO unit :=
  host_call (Stat p) (fun w =>
    if path_exists p w then (Returned tt, w)
    else (Thrown (js "FileNotFound"), w)).

(** [vscode.workspace.fs.readFile] *)
Definition readFile (p : jsstring) : IO (list Byte.byte) :=
  host_call (ReadFile p) (fun w =>
    match files w !! p with
    | Some bytes => (Returned bytes, w)
    | None => (Thrown (js "FileNotFound"), w)
    end).

(** [vscode.workspace.fs.createDirectory]: the directory and those above it
    exist afterwards; a file in its place is an error. *)
Definition createDirectory (p : jsstring) : IO unit :=
  host_call (CreateDirectory p) (fun w =>
    match files w !! p with
    | Some _ => (Thrown (js "FileExists"), w)
    | None => (Returned tt, with_directories (ancestors (length p) p) w)
    end).

(** [vscode.workspace.fs.writeFile]: creates or overwrites the file, and
    creates the directories above it; a directory in its place is an
    error. *)
Definition writeFile (p : jsstring) (content : list Byte.byte) : IO unit :=
  host_call (WriteFile p content) (fun w =>
    if bool_decide (p ∈ directories w) then (Thrown (js "FileIsADirectory"), w)
    else
      let parent := path.dirname p in
      let w' := with_directories (ancestors (length parent) parent) w in
      (Returned tt,
       mkWorld (<[p := content]> (files w')) (directories w') (refused w')
         (trace w'))).

(** [vscode.workspace.openTextDocument]; the document is named by its
    path. *)
Definition openTextDocument (p : jsstring) : IO jsstring :=
  host_call (OpenTextDocument p) (fun w =>
    match files w !! p with
    | Some _ => (Returned p, w)
    | None => (Thrown (js "FileNotFound"), w)
    end).

(** [vscode.window.showTextDocument] *)
Definition showTextDocument (doc : jsstring) : IO unit :=
  host_call (ShowTextDocument doc) (io_ret tt).

(** [vscode.window.showInformationMessage], not awaited. *)
Definition showInformationMessage (msg : jsstring) : IO unit :=
  fun w => (Returned tt, record_call (ShowInformationMessage msg) w).

(** [vscode.window.showErrorMessage], not awaited. *)
Definition showErrorMessage (msg : jsstring) : IO unit :=
  fun w => (Returned tt, record_call (ShowErrorMessage msg) w).

(** [console.error] *)
Definition console_error (msg err : jsstring) : IO unit :=
  fun w => (Returned tt, record_call (ConsoleError msg err) w).

(** The two lines of [getPackageName] that read the name out of the text of
    the manifest. *)
Definition matchPackageName (content : jsstring) : option jsstring :=
  match exec PUBSPEC_NAME_REGEX content with
  | Some res => group 1 res
  | None => None
  end.

(** [getPackageName] *)
Definition getPackageName (workspaceRoot : jsstring) : IO (option jsstring) :=
  try_catch
    (let pubspecPath := path.join [workspaceRoot; js "pubspec.yaml"] in
     pubspecContent ← readFile pubspecPath;
     let content := utf8_decode pubspecContent in
     io_ret (matchPackageName content))
    (fun _ => io_ret None).

(** [fileExists] *)
Definition fileExists (p : jsstring) : IO bool :=
  try_catch (stat p ;; io_ret true) (fun _ => io_ret false).

(** [ensureDirectoryExists] *)
Definition ensureDirectoryExists (dirPath : jsstring) : IO unit :=
  try_catch (createDirectory dirPath) (fun _ => io_ret tt).

(** [openExistingTestFile] *)
Definition openExistingTestFile (testPath : jsstring) : IO unit :=
  doc ← openTextDocument testPath;
  showTextDocument doc ;;
  showInformationMessage
    (js "Test file already exists: " ++ path.basename testPath None).

(** [createAndOpenTestFile] *)
Definition createAndOpenTestFile (testPath content workspaceRoot : jsstring)
    : IO unit :=
  writeFile testPath (utf8_encode content) ;;
  doc ← openTextDocument testPath;
  showTextDocument doc ;;
  showInformationMessage
    (js "Created test: " ++ path.relative workspaceRoot testPath).

(** [handleCreateTestCommand] *)
Definition handleCreateTestCommand (args : ClassInfo) : IO unit :=
  try_catch
    (match uri_fsPath (uri args) with
     | None => io_throw (js "UriError")
     | Some sourcePath =>
         match workspaceFolderOf (uri args) with
         | None => showErrorMessage (js "File is not in a workspace folder")
         | Some workspaceRoot =>
             packageName ← getPackageName workspaceRoot;
             let testFileInfo :=
               deriveTestFileInfo workspaceRoot sourcePath packageName in
             present ← fileExists (testPath testFileInfo);
             if (present : bool) then openExistingTestFile (testPath testFileInfo)
             else
               ensureDirectoryExists (path.dirname (testPath testFileInfo)) ;;
               let testContent :=
                 generateTestContent (className args)
                   (importPath testFileInfo) in
               createAndOpenTestFile (testPath testFileInfo) testContent
                 workspaceRoot
         end
     end)
    (fun err =>
       console_error (js "Failed to create test file:") err ;;
       showErrorMessage (js "Failed to create test file: " ++ err)).

End Orchestrator.

(** ** src/extension.ts *)

(** [refreshRelatedFile], given [uri.fsPath]: the paths [p] of the calls
    [provider.refresh(vscode.Uri.file(p))] it makes. *)
Definition refreshRelatedFile (fsPath : jsstring) : list jsstring :=
  if includes fsPath (js "_test.dart") then
    let sourcePath := replace_first fsPath (js "_test.dart") (js ".dart") in
    [sourcePath]
  else if endsWith fsPath (js ".dart") then
    let testPath := replace_first fsPath (js ".dart") (js "_test.dart") in
    [testPath]
  else [].

(** ** Vocabulary of the statements *)

(** The lines of a text: the pieces between line feeds, without the empty
    piece after a final line feed. *)
Definition text_lines (s : jsstring) : list jsstring :=
  match rev (split_on LF s) with
  | [] :: pieces => rev pieces
  | pieces => rev pieces
  end.

Definition widget_content : jsstring :=
  generateTestContent (js "Widget") (js "./widget.dart").

(** The Windows separator, a backslash. *)
Definition BACKSLASH : N := 92.

(** A path segment that [normalize] keeps as it is: not empty, without a
    slash, and neither [.] nor [..]. *)
Definition seg_ok (s : jsstring) : Prop :=
  s <> [] /\ (SLASH ∉ s) /\ s <> js "." /\ s <> js "..".

(** The absolute POSIX path with the given segments; the root for none. *)
Definition abs_path (segs : list jsstring) : jsstring :=
  js "/" ++ join_with (js "/") segs.

(** The relative POSIX path with the given segments. *)
Definition rel_path (segs : list jsstring) : jsstring :=
  join_with (js "/") segs.

(** *** What a pattern matches

    The matcher above searches; the relation below says what counts as a
    match of a pattern from one state to another, without an order among the
    alternatives.  An iteration of a quantifier must consume input. *)

Inductive star_rel (R : mstate -> mstate -> Prop) : mstate -> mstate -> Prop :=
| star_done x : star_rel R x x
| star_more x y z :
    R x y -> shorter y x = true -> star_rel R y z -> star_rel R x z.

Fixpoint Matches (r : regex) (x y : mstate) : Prop :=
  match r with
  | Eps => y = x
  | Chr p => exists c rest,
      remaining x = c :: rest /\ p c = true /\ y = step c rest x
  | Seq a b => exists z, Matches a x z /\ Matches b z y
  | Alt a b => Matches a x y \/ Matches b x y
  | Star a => star_rel (Matches a) x y
  | Plus a => exists z, Matches a x z /\ star_rel (Matches a) z y
  | Opt a => (Matches a x y /\ shorter y x = true) \/ y = x
  | Grp n a => exists z,
      Matches a x z /\ y = set_capture n (matched_between x z) z
  | Bol ml => at_line_start ml x = true /\ y = x
  | Eol ml => at_line_end ml x = true /\ y = x
  end.

(** The words of a pattern.  For a pattern without captures and assertions
    ([plain]) the matches are the readings of its words. *)
Inductive lang_star (L : jsstring -> Prop) : jsstring -> Prop :=
| lang_star_nil : lang_star L []
| lang_star_app w1 w2 :
    L w1 -> w1 <> [] -> lang_star L w2 -> lang_star L (w1 ++ w2).

Fixpoint Lang (r : regex) (w : jsstring) : Prop :=
  match r with
  | Eps => w = []
  | Chr p => exists c, w = [c] /\ p c = true
  | Seq a b => exists w1 w2, w = w1 ++ w2 /\ Lang a w1 /\ Lang b w2
  | Alt a b => Lang a w \/ Lang b w
  | Star a => lang_star (Lang a) w
  | Plus a => exists w1 w2, w = w1 ++ w2 /\ Lang a w1 /\ lang_star (Lang a) w2
  | Opt a => (Lang a w /\ w <> []) \/ w = []
  | Grp _ a => Lang a w
  | Bol _ => w = []
  | Eol _ => w = []
  end.

Fixpoint plain (r : regex) : bool :=
  match r with
  | Eps | Chr _ => true
  | Seq a b | Alt a b => plain a && plain b
  | Star a | Plus a | Opt a => plain a
  | Grp _ _ | Bol _ | Eol _ => false
  end.

(** The longest prefix whose code units are all in a class. *)
Fixpoint take_while (p : N -> bool) (s : jsstring) : jsstring :=
  match s with
  | c :: s' => if p c then c :: take_while p s' else []
  | [] => []
  end.

Definition all_in (p : N -> bool) (s : jsstring) : Prop :=
  Forall (fun c => p c = true) s.

(** [y] is [x] after the word [w]. *)
Definition reads (w : jsstring) (x y : mstate) : Prop :=
  remaining x = w ++ remaining y /\
  consumed y = rev w ++ consumed x /\
  captures y = captures x.

(** The state after the longest run of code units of a class. *)
Definition after_run (p : N -> bool) (x : mstate) : mstate :=
  MState (rev (take_while p (remaining x)) ++ consumed x)
         (drop (length (take_while p (remaining x))) (remaining x))
         (captures x).

(** The continuation of capture group 1 at the end of the class pattern. *)
Definition close_whole (x0 : mstate) (y : mstate) : option mstate :=
  Some (set_capture 1 (matched_between x0 y) y).

(** The keywords of the pattern: the modifiers and [class]. *)
Definition pattern_keywords : list jsstring := js "class" :: modifier_keywords.

(** The text does not start with white space. *)
Definition starts_without_space (s : jsstring) : Prop :=
  match s with
  | c :: _ => is_space c = false
  | [] => True
  end.

(** A sequence of modifiers, each followed by white space. *)
Definition modifier_run (mods : list (jsstring * jsstring)) : jsstring :=
  concat (map (fun kw_sp => fst kw_sp ++ snd kw_sp) mods).

(** Each modifier is one of the keywords and is followed by white space. *)
Definition modifiers_ok (mods : list (jsstring * jsstring)) : Prop :=
  Forall (fun kw_sp => fst kw_sp ∈ modifier_keywords /\
                       snd kw_sp <> [] /\ all_in is_space (snd kw_sp)) mods.

(** The head of a class declaration, up to the class name: optional white
    space, any number of modifier keywords, each followed by white space,
    the keyword [class], and white space. *)
Definition class_head (w : jsstring) : Prop :=
  exists (ws : jsstring) (mods : list (jsstring * jsstring)) (ws1 : jsstring),
    w = ws ++ modifier_run mods ++ js "class" ++ ws1 /\
    all_in is_space ws /\ modifiers_ok mods /\
    ws1 <> [] /\ all_in is_space ws1.

(** An identifier: an ASCII letter or underscore, then letters, digits and
    underscores. *)
Definition identifier (name : jsstring) : Prop :=
  exists c cs, name = c :: cs /\ ident_start c = true /\ all_in ident_char cs.

(** A line that begins with a class declaration naming [name]. *)
Definition class_declaration_line (lineText name : jsstring) : Prop :=
  exists head rest,
    lineText = head ++ name ++ rest /\ class_head head /\ identifier name.

(** What follows does not continue an identifier. *)
Definition ends_identifier (rest : jsstring) : Prop :=
  match rest with
  | [] => True
  | c :: _ => ident_char c = false
  end.

(** The lenses of a line of the document. *)
Definition lens_at (i : nat) (lens : CodeLens) : Prop :=
  line (range_start (range lens)) = i.

(** The lens the matcher pushes for a class declaration at line [i]. *)
Definition lensFor (documentUri : jsstring) (i : nat) (whole name : jsstring)
    : CodeLens :=
  mkCodeLens
    (mkRange (mkPosition i 0) (mkPosition i (length whole)))
    (mkCommand (js "$(beaker) Create test file")
               (js "Create test file for " ++ name)
               COMMAND_ID
               [mkClassInfo documentUri name]).

(** Put a piece in front of the first line of some lines. *)
Definition push_front (piece : jsstring) (lines : list jsstring)
    : list jsstring :=
  match lines with
  | l :: ls => (piece ++ l) :: ls
  | [] => [piece]
  end.

(** The lines of a text: it is cut at every line feed, and a carriage
    return right before a line feed goes with it. *)
Fixpoint crlf_lines (s : jsstring) : list jsstring :=
  match s with
  | [] => [[]]
  | c :: s' =>
      if c =? LF then [] :: crlf_lines s'
      else match s' with
           | d :: s'' =>
               if (c =? CR) && (d =? LF) then [] :: crlf_lines s''
               else push_front [c] (crlf_lines s')
           | [] => [[c]]
           end
  end.

(** A package identifier: a lowercase letter or underscore, then lowercase
    letters, digits and underscores. *)
Definition package_identifier (id : jsstring) : Prop :=
  exists c cs, id = c :: cs /\ lower_start c = true /\ all_in lower_char cs.

(** The text before a position ends a line: there is none, or it ends with
    a line terminator. *)
Definition line_start (pre : jsstring) : Prop :=
  match last pre with
  | None => True
  | Some c => is_line_terminator c = true
  end.

(** The text from a position on starts with the end of a line. *)
Definition line_end (post : jsstring) : Prop :=
  match post with
  | [] => True
  | c :: _ => is_line_terminator c = true
  end.

(** A line of the form [name: <identifier>]: [name:], optional white space,
    the identifier, optional white space. *)
Definition name_line (lineText id : jsstring) : Prop :=
  exists w1 w2,
    lineText = js "name:" ++ w1 ++ id ++ w2 /\
    all_in is_space w1 /\ package_identifier id /\ all_in is_space w2.

(** [s.split] at every line terminator. *)
Fixpoint lines_of (s : jsstring) : list jsstring :=
  match s with
  | [] => [[]]
  | c :: s' =>
      if is_line_terminator c then [] :: lines_of s'
      else match lines_of s' with
           | [] => [[c]]
           | l :: ls => (c :: l) :: ls
           end
  end.

(** What the pattern of [getPackageName] finds after the text [pre]: at the
    start of a line [name:], then white space, an identifier, white space
    and the end of a line, where white space may contain line breaks. *)
Definition name_entry (content pre id : jsstring) : Prop :=
  exists w1 w2 post,
    content = pre ++ js "name:" ++ w1 ++ id ++ w2 ++ post /\
    line_start pre /\ all_in is_space w1 /\ package_identifier id /\
    all_in is_space w2 /\ line_end post.

Section OrchestratorVocabulary.
Context `{H : Host}.

(** The manifest of a workspace. *)
Definition pubspecPath (workspaceRoot : jsstring) : jsstring :=
  path.join [workspaceRoot; js "pubspec.yaml"].

(** The package name the manifest of the workspace gives in a world: none
    when the host refuses the read, when there is no manifest, or when its
    text has no name. *)
Definition resolvedPackageName (workspaceRoot : jsstring) (w : World)
    : option jsstring :=
  match refused w (ReadFile (pubspecPath workspaceRoot)) with
  | Some _ => None
  | None =>
      match files w !! pubspecPath workspaceRoot with
      | Some bytes => matchPackageName (utf8_decode bytes)
      | None => None
      end
  end.

(** The existence check finds something at the path: the host answers
    [stat], and a file or a directory is there. *)
Definition found (p : jsstring) (w : World) : bool :=
  match refused w (Stat p) with
  | Some _ => false
  | None => path_exists p w
  end.

(** The test file the command derives for its argument in a world. *)
Definition targetOf (workspaceRoot sourcePath : jsstring) (w : World)
    : TestFileInfo :=
  deriveTestFileInfo workspaceRoot sourcePath
    (resolvedPackageName workspaceRoot w).

End OrchestratorVocabulary.

(** A POSIX host for the examples.  Its process runs in [/home/dev], its
    workspace is the folder [/proj], a URI is [file://] followed by the
    path, and its files hold ASCII text, for which UTF-8 is one byte per
    code unit (anything else is replaced: by a question mark when encoding,
    by U+FFFD when decoding). *)
Definition example_host : Host := {|
  host_path := posix_path (js "/home/dev");
  uri_fsPath u :=
    if startsWith u (js "file://") then Some (drop 7 u) else None;
  workspaceFolderOf u :=
    if startsWith u (js "file:///proj/") then Some (js "/proj") else None;
  utf8_encode s :=
    map (fun c => if c <? 128 then default Byte.x3f (Byte.of_N c)
                  else Byte.x3f) s;
  utf8_decode bytes :=
    map (fun b => if Byte.to_N b <? 128 then Byte.to_N b else 65533) bytes
|}.

(** A world of that host: a manifest that names the package [my_app], and
    a test file written by hand for [lib/models/user.dart]. *)
Definition example_world : World := {|
  files :=
    <[ js "/proj/pubspec.yaml" :=
         utf8_encode (Host := example_host)
           (js "name: my_app" ++ [LF] ++ js "version: 1.0.0" ++ [LF]) ]>
    (<[ js "/proj/test/models/user_test.dart" :=
          utf8_encode (Host := example_host) (js "// written by hand") ]>
     (<[ js "/proj/lib/models/user.dart" :=
           utf8_encode (Host := example_host) (js "class User {}") ]> ∅));
  directories :=
    {[ js "/"; js "/proj"; js "/proj/lib"; js "/proj/lib/models";
       js "/proj/test"; js "/proj/test/models" ]};
  refused := fun _ => None;
  trace := []
|}.

Definition example_args : ClassInfo :=
  mkClassInfo (js "file:///proj/lib/models/user.dart") (js "User").

(** A world of that host without a manifest and without a test file. *)
Definition bare_world : World := {|
  files :=
    <[ js "/proj/lib/models/user.dart" :=
         utf8_encode (Host := example_host) (js "class User {}") ]> ∅;
  directories :=
    {[ js "/"; js "/proj"; js "/proj/lib"; js "/proj/lib/models" ]};
  refused := fun _ => None;
  trace := []
|}.

(** A manifest whose name stands on the line after [name:]. *)
Definition manifest_name_on_next_line : jsstring :=
  js "name:" ++ [LF] ++ js "  my_app" ++ [LF] ++ js "version: 1.0.0" ++ [LF].

(** The steps that create a new test file. *)
Definition is_creation_step (c : Call) : bool :=
  match c with
  | CreateDirectory _ | WriteFile _ _ => true
  | _ => false
  end.

(** *** The runs of the command *)

(** What the [catch] of the command does with an error: it logs it and
    shows it. *)
Definition failure_report (err : jsstring) : list Call :=
  [ConsoleError (js "Failed to create test file:") err;
   ShowErrorMessage (js "Failed to create test file: " ++ err)].

(** The two notices the user can see. *)
Definition is_notification (c : Call) : bool :=
  match c with
  | ShowInformationMessage _ | ShowErrorMessage _ => true
  | _ => false
  end.

Section RunVocabulary.
Context `{H : Host}.

(** The directories after [ensureDirectoryExists]: those above the path are
    added unless the host refuses the call or a file is in the way. *)
Definition directories_after_ensure (dirPath : jsstring) (w : World)
    : gset jsstring :=
  match refused w (CreateDirectory dirPath) with
  | Some _ => directories w
  | None =>
      match files w !! dirPath with
      | Some _ => directories w
      | None =>
          list_to_set (ancestors (length dirPath) dirPath) ∪ directories w
      end
  end.

(** The bytes the command writes for its argument in a world. *)
Definition generatedBytes (args : ClassInfo)
    (workspaceRoot sourcePath : jsstring) (w : World) : list Byte.byte :=
  utf8_encode
    (generateTestContent (className args)
       (importPath (targetOf workspaceRoot sourcePath w))).

End RunVocabulary.

(** The bare world on a host that refuses every write. *)
Definition read_only_world : World := {|
  files := files bare_world;
  directories := directories bare_world;
  refused := fun c =>
    match c with
    | WriteFile _ _ => Some (js "NoPermissions")
    | _ => None
    end;
  trace := []
|}.

(** The bare world on a host that opens no document. *)
Definition headless_world : World := {|
  files := files bare_world;
  directories := directories bare_world;
  refused := fun c =>
    match c with
    | OpenTextDocument _ => Some (js "CannotOpen")
    | _ => None
    end;
  trace := []
|}.

(** The example world on a host whose [stat] throws: the test file written
    by hand is there, but the existence check gets no answer. *)
Definition stat_failing_world : World := {|
  files := files example_world;
  directories := directories example_world;
  refused := fun c =>
    match c with
    | Stat _ => Some (js "Unavailable")
    | _ => None
    end;
  trace := []
|}.

(** A world after further calls. *)
Definition append_calls (cs : list Call) (w : World) : World :=
  mkWorld (files w) (directories w) (refused w) (trace w ++ cs).

(** *** Lenses, file names and lines *)

(** The line a lens is shown at. *)
Definition lens_line (lens : CodeLens) : nat :=
  line (range_start (range lens)).

(** What follows the last dot of a file name. *)
Fixpoint after_last_dot (f : jsstring) : option jsstring :=
  match f with
  | [] => None
  | c :: f' =>
      match after_last_dot f' with
      | Some b => Some b
      | None => if c =? DOT then Some f' else None
      end
  end.

(** The extension of a file name: its last dot and what follows, when
    something stands before that dot. *)
Definition file_ext (f : jsstring) : jsstring :=
  match after_last_dot f with
  | Some b => if (S (length b) <? length f)%nat then DOT :: b else []
  | None => []
  end.

(** The file name without its extension. *)
Definition file_stem (f : jsstring) : jsstring :=
  take (length f - length (file_ext f)) f.

(** A text after its leading white space. *)
Fixpoint skip_spaces (s : jsstring) : jsstring :=
  match s with
  | c :: s' => if is_space c then skip_spaces s' else s
  | [] => []
  end.

(** After optional white space the line goes on with a keyword of the
    pattern. *)
Definition starts_with_keyword (lineText : jsstring) : bool :=
  existsb (startsWith (skip_spaces lineText)) pattern_keywords.

(** A text with a line feed for every line break: the carriage return
    right before a line feed is left out. *)
Fixpoint lf_endings (s : jsstring) : jsstring :=
  match s with
  | [] => []
  | c :: s' =>
      if (c =? CR) && bool_decide (head s' = Some LF) then lf_endings s'
      else c :: lf_endings s'
  end.

(** The dollar sign, which starts an interpolation in a Dart string. *)
Definition DOLLAR : N := 36.

(** A code unit that a single-quoted Dart string takes as it is. *)
Definition literal_unit (c : N) : Prop :=
  c <> QUOTE /\ c <> BACKSLASH /\ c <> DOLLAR /\ c <> LF /\ c <> CR.

(* ===================================================================== *)
(** * Part II: the theorems                                               *)
(* ===================================================================== *)

Example split_on_example :
  split_on SLASH (js "a/b//c") = [js "a"; js "b"; js ""; js "c"].
Proof. reflexivity. Qed.

Example split_lines_example :
  split_regex LINE_BREAK (js "class A" ++ [CR; LF] ++ js "x" ++ [LF; LF] ++ js "y" ++ [CR])
  = [js "class A"; js "x"; js ""; js "y" ++ [CR]].
Proof. vm_compute. reflexivity. Qed.

Example class_match_example :
  (fun l => (className <$> (head (arguments (lens_command l))), range_end (range l)))
    <$> lensOfLine (js "u") 3 (js "  abstract base class Foo_1 extends Bar {")
  = Some (Some (js "Foo_1"), mkPosition 3 27).
Proof. vm_compute. reflexivity. Qed.

Example posix_doc_examples :
  posix.join [js "/foo"; js "bar"; js "baz/asdf"; js "quux"; js ".."]
    = js "/foo/bar/baz/asdf" /\
  posix.normalize (js "/foo/bar//baz/asdf/quux/..") = js "/foo/bar/baz/asdf" /\
  posix.relative (js "/") (js "/data/orandea/test/aaa") (js "/data/orandea/impl/bbb")
    = js "../../impl/bbb" /\
  posix.dirname (js "/foo/bar/baz/asdf/quux") = js "/foo/bar/baz/asdf" /\
  posix.basename (js "/foo/bar/baz/asdf/quux.html") None = js "quux.html" /\
  posix.basename (js "/foo/bar/baz/asdf/quux.html") (Some (js ".html")) = js "quux" /\
  posix.extname (js "index.html") = js ".html" /\
  posix.extname (js "index.coffee.md") = js ".md" /\
  posix.extname (js "index.") = js "." /\
  posix.extname (js "index") = js "" /\
  posix.extname (js ".index") = js "" /\
  posix.extname (js ".index.md") = js ".md".
Proof. vm_compute. repeat split. Qed.

Example posix_edge_examples :
  posix.join [js "a"; js ""; js "b"] = js "a/b" /\
  posix.join [js ""] = js "." /\
  posix.normalize (js "") = js "." /\
  posix.normalize (js "./a/..") = js "." /\
  posix.normalize (js "a/../..") = js ".." /\
  posix.normalize (js "/a/../..") = js "/" /\
  posix.normalize (js "a//b/") = js "a/b/" /\
  posix.dirname (js "a//b") = js "a/" /\
  posix.dirname (js "/") = js "/" /\
  posix.dirname (js "//a") = js "//" /\
  posix.dirname (js "a.dart") = js "." /\
  posix.basename (js "/a/b/") None = js "b" /\
  posix.basename (js "a.dart") (Some (js ".dart")) = js "a" /\
  posix.basename (js ".dart") (Some (js ".dart")) = js "" /\
  posix.basename (js "/x/.dart") (Some (js ".dart")) = js ".dart" /\
  posix.basename (js "/x/tool") (Some (js "")) = js "tool" /\
  posix.extname (js "..") = js "" /\
  posix.extname (js "a..") = js "." /\
  posix.extname (js "/x.y/z") = js "" /\
  posix.relative (js "/w") (js "/a/b") (js "/a/b") = js "" /\
  posix.relative (js "/w") (js "/a/b") (js "/a") = js ".." /\
  posix.relative (js "/w") (js "/a") (js "/a/b/c") = js "b/c" /\
  posix.relative (js "/w") (js "x/y") (js "x/z") = js "../z" /\
  posix.relative (js "/w") (js "/") (js "/a") = js "a".
Proof. vm_compute. repeat split. Qed.

Example derive_example :
  deriveTestFileInfo (P := posix_path (js "/home/dev")) (js "/proj") (js "/proj/lib/models/user.dart") None
  = mkTestFileInfo (js "/proj/test/models/user_test.dart") (js "../../lib/models/user.dart").
Proof. vm_compute. reflexivity. Qed.

(** ** JavaScript strings: splitting and joining *)

Ltac decide_by_computation :=
  match goal with
  | |- ?P => exact (bool_decide_unpack P ltac:(vm_compute; exact I))
  end.

Lemma split_on_nonempty c s : split_on c s <> [].
Proof.
  destruct s as [|x s]; simpl; [discriminate|].
  destruct (x =? c); [discriminate|].
  destruct (split_on c s); discriminate.
Qed.

Lemma split_on_without c (a : jsstring) : c ∉ a -> split_on c a = [a].
Proof.
  induction a as [|x a IH]; intros Hc; [reflexivity|].
  apply not_elem_of_cons in Hc as [Hx Ha]. simpl.
  destruct (N.eqb_spec x c) as [->|_]; [done|].
  by rewrite (IH Ha).
Qed.

Lemma split_on_app c (a b : jsstring) :
  c ∉ a -> split_on c (a ++ c :: b) = a :: split_on c b.
Proof.
  induction a as [|x a IH]; intros Hc; simpl.
  - by rewrite N.eqb_refl.
  - apply not_elem_of_cons in Hc as [Hx Ha].
    destruct (N.eqb_spec x c) as [->|_]; [done|].
    by rewrite (IH Ha).
Qed.

Lemma split_on_sep c (b : jsstring) : split_on c (c :: b) = [] :: split_on c b.
Proof. simpl. by rewrite N.eqb_refl. Qed.

Lemma split_on_sep_app c (b : jsstring) :
  split_on c ([c] ++ b) = [] :: split_on c b.
Proof. apply split_on_sep. Qed.

Lemma split_on_app1 c (a b : jsstring) :
  c ∉ a -> split_on c (a ++ [c] ++ b) = a :: split_on c b.
Proof. apply split_on_app. Qed.

Lemma split_on_app3 c (a1 a2 a3 b : jsstring) :
  c ∉ a1 ++ a2 ++ a3 ->
  split_on c (a1 ++ a2 ++ a3 ++ [c] ++ b) = (a1 ++ a2 ++ a3) :: split_on c b.
Proof.
  intros Hc. rewrite <- (split_on_app1 c _ b Hc). by rewrite <- !app_assoc.
Qed.

Lemma join_with_cons d (a : jsstring) (rest : list jsstring) :
  rest <> [] -> join_with d (a :: rest) = a ++ d ++ join_with d rest.
Proof. destruct rest; [done|reflexivity]. Qed.

Lemma join_with_snoc d (pieces : list jsstring) (a : jsstring) :
  pieces <> [] -> join_with d (pieces ++ [a]) = join_with d pieces ++ d ++ a.
Proof.
  induction pieces as [|p pieces IH]; [done|]. intros _.
  destruct pieces as [|q pieces]; [reflexivity|].
  change ((p :: q :: pieces) ++ [a]) with (p :: ((q :: pieces) ++ [a])).
  rewrite join_with_cons by (by destruct pieces).
  rewrite IH by done. rewrite (join_with_cons d p (q :: pieces)) by done.
  by rewrite <- !app_assoc.
Qed.

Lemma split_on_join c (segs : list jsstring) :
  segs <> [] -> Forall (fun s => c ∉ s) segs ->
  split_on c (join_with [c] segs) = segs.
Proof.
  induction segs as [|a segs IH]; [done|]. intros _ Hall.
  apply Forall_cons in Hall as [Ha Hall].
  destruct segs as [|b segs].
  - simpl. by apply split_on_without.
  - rewrite join_with_cons by done.
    change (a ++ [c] ++ join_with [c] (b :: segs))
      with (a ++ c :: join_with [c] (b :: segs)).
    rewrite split_on_app by done. by rewrite IH.
Qed.

Lemma join_split c (s : jsstring) : join_with [c] (split_on c s) = s.
Proof.
  induction s as [|x s IH]; [reflexivity|]. simpl.
  destruct (N.eqb_spec x c) as [->|Hx].
  - rewrite join_with_cons by apply split_on_nonempty. by rewrite IH.
  - pose proof (split_on_nonempty c s) as Hne.
    destruct (split_on c s) as [|piece pieces]; [done|].
    destruct pieces as [|q pieces]; simpl in *; by rewrite <- IH.
Qed.

Lemma split_on_pieces_without c (s : jsstring) :
  Forall (fun piece => c ∉ piece) (split_on c s).
Proof.
  induction s as [|x s IH]; simpl.
  - repeat constructor. apply not_elem_of_nil.
  - destruct (N.eqb_spec x c) as [->|Hx].
    + constructor; [apply not_elem_of_nil|done].
    + destruct (split_on c s) as [|piece pieces].
      * repeat constructor. apply not_elem_of_cons. split; [done|apply not_elem_of_nil].
      * apply Forall_cons in IH as [Hp Hps]. constructor; [|done].
        apply not_elem_of_cons. by split.
Qed.

Lemma join_with_without c d (pieces : list jsstring) :
  c ∉ d -> Forall (fun piece => c ∉ piece) pieces -> c ∉ join_with d pieces.
Proof.
  intros Hd. induction pieces as [|a pieces IH]; intros Hall.
  - apply not_elem_of_nil.
  - apply Forall_cons in Hall as [Ha Hall].
    destruct pieces as [|b pieces]; [done|].
    rewrite join_with_cons by done.
    rewrite !not_elem_of_app. auto.
Qed.

(** [s.split(c).join('/')] leaves no [c] in the string, when [c] is not the
    slash itself. *)
Lemma split_join_slash_without c (s : jsstring) :
  c <> SLASH -> c ∉ join_with (js "/") (split_on c s).
Proof.
  intros Hc. apply join_with_without; [|apply split_on_pieces_without].
  change (js "/") with [SLASH]. apply not_elem_of_cons.
  split; [done|apply not_elem_of_nil].
Qed.

Lemma startsWith_spec (s p : jsstring) :
  startsWith s p = true <-> exists rest, s = p ++ rest.
Proof.
  revert s. induction p as [|a p IH]; intros s; simpl.
  - split; [intros _; by exists s|reflexivity].
  - destruct s as [|b s]; [split; [discriminate|intros [? ?]; discriminate]|].
    rewrite andb_true_iff, N.eqb_eq, IH. split.
    + intros [-> [rest ->]]. by exists rest.
    + intros [rest Heq]. injection Heq as -> ->. eauto.
Qed.

(** ** The matcher finds exactly the matches *)

Lemma repeat_matcher_sound (R : mstate -> mstate -> Prop)
    (body : mstate -> (mstate -> option mstate) -> option mstate) :
  (forall x k res, body x k = Some res -> exists y, R x y /\ k y = Some res) ->
  forall fuel x k res,
    repeat_matcher body fuel x k = Some res ->
    exists z, star_rel R x z /\ k z = Some res.
Proof.
  intros Hbody. induction fuel as [|fuel IH]; intros x k res; [discriminate|].
  simpl.
  destruct (body x _) as [r|] eqn:Hb.
  - intros [= ->]. apply Hbody in Hb as (y & Hxy & Hk).
    destruct (shorter y x) eqn:Hsh; [|discriminate].
    apply IH in Hk as (z & Hyz & Hk). exists z. split; [|done].
    by apply star_more with y.
  - intros Hk. exists x. split; [constructor|done].
Qed.

Lemma repeat_matcher_complete (R : mstate -> mstate -> Prop)
    (body : mstate -> (mstate -> option mstate) -> option mstate) :
  (forall x y k, R x y -> is_Some (k y) -> is_Some (body x k)) ->
  forall x z, star_rel R x z ->
  forall fuel k,
    (length (remaining x) < fuel)%nat -> is_Some (k z) ->
    is_Some (repeat_matcher body fuel x k).
Proof.
  intros Hbody x z Hstar.
  induction Hstar as [x|x y z Hxy Hsh Hyz IH]; intros fuel k Hfuel Hk.
  - destruct fuel as [|fuel]; [lia|]. simpl.
    destruct (body x _); [by eexists|done].
  - destruct fuel as [|fuel]; [lia|]. simpl.
    assert (Hsome : is_Some (body x (fun y => if shorter y x
                                then repeat_matcher body fuel y k else None))).
    { apply (Hbody x y); [done|]. rewrite Hsh. apply IH; [|done].
      unfold shorter in Hsh. apply Nat.ltb_lt in Hsh. lia. }
    destruct Hsome as [r ->]. by eexists.
Qed.

(** Soundness: what the matcher returns is a match, and the continuation
    accepted it. *)
Lemma m_sound (r : regex) :
  forall x k res, m r x k = Some res ->
  exists y, Matches r x y /\ k y = Some res.
Proof.
  induction r as [|p|a IHa b IHb|a IHa b IHb|a IHa|a IHa|a IHa|n a IHa|ml|ml];
    intros x k res; cbn [m Matches].
  - intros Hk. by exists x.
  - destruct (remaining x) as [|c rest] eqn:Hrem; [discriminate|].
    destruct (p c) eqn:Hp; [|discriminate].
    intros Hk. exists (step c rest x). split; [|done]. by exists c, rest.
  - intros Hm. apply IHa in Hm as (z & Hxz & Hm).
    apply IHb in Hm as (y & Hzy & Hk). exists y. split; [by exists z|done].
  - destruct (m a x k) as [r|] eqn:Ha.
    + intros [= ->]. apply IHa in Ha as (y & Hxy & Hk). exists y. by split; [left|].
    + intros Hb. apply IHb in Hb as (y & Hxy & Hk). exists y. by split; [right|].
  - apply (repeat_matcher_sound (Matches a)), IHa.
  - intros Hm. apply IHa in Hm as (z & Hxz & Hm).
    apply (repeat_matcher_sound (Matches a) _ IHa) in Hm as (y & Hzy & Hk).
    exists y. split; [by exists z|done].
  - destruct (m a x _) as [r|] eqn:Ha.
    + intros [= ->]. apply IHa in Ha as (y & Hxy & Hk).
      destruct (shorter y x) eqn:Hsh; [|discriminate].
      exists y. split; [by left|done].
    + intros Hk. exists x. by split; [right|].
  - intros Hm. apply IHa in Hm as (z & Hxz & Hk).
    eexists. split; [by exists z|done].
  - destruct (at_line_start ml x) eqn:Hb; [|discriminate].
    intros Hk. by exists x.
  - destruct (at_line_end ml x) eqn:Hb; [|discriminate].
    intros Hk. by exists x.
Qed.

(** Completeness: when there is a match that the continuation accepts, the
    matcher returns a result. *)
Lemma m_complete (r : regex) :
  forall x y k, Matches r x y -> is_Some (k y) -> is_Some (m r x k).
Proof.
  induction r as [|p|a IHa b IHb|a IHa b IHb|a IHa|a IHa|a IHa|n a IHa|ml|ml];
    intros x y k; cbn [m Matches].
  - by intros ->.
  - intros (c & rest & -> & -> & ->). done.
  - intros (z & Hxz & Hzy) Hk. apply (IHa x z); [done|]. by apply (IHb z y).
  - intros [Ha|Hb] Hk.
    + destruct (IHa x y k Ha Hk) as [r ->]. by eexists.
    + destruct (m a x k); [by eexists|]. by apply (IHb x y).
  - intros Hstar Hk.
    apply (repeat_matcher_complete (Matches a) _ IHa x y Hstar); [lia|done].
  - intros (z & Hxz & Hstar) Hk. apply (IHa x z); [done|].
    apply (repeat_matcher_complete (Matches a) _ IHa z y Hstar); [lia|done].
  - intros [[Ha Hsh]| ->] Hk.
    + assert (Hsome : is_Some (m a x (fun y => if shorter y x then k y else None))).
      { apply (IHa x y); [done|]. by rewrite Hsh. }
      destruct Hsome as [r ->]. by eexists.
    + destruct (m a x _); [by eexists|done].
  - intros (z & Hxz & ->) Hk. by apply (IHa x z).
  - intros [-> ->]. done.
  - intros [-> ->]. done.
Qed.

(** ** Patterns without captures and assertions match words *)

Lemma mstate_eq (x y : mstate) :
  consumed x = consumed y -> remaining x = remaining y ->
  captures x = captures y -> x = y.
Proof. destruct x, y; simpl; by intros -> -> ->. Qed.

Lemma reads_nil x y : reads [] x y <-> y = x.
Proof.
  unfold reads. split.
  - intros (Hr & Hc & Hk). by apply mstate_eq.
  - by intros ->.
Qed.

Lemma reads_app w1 w2 x y z : reads w1 x y -> reads w2 y z -> reads (w1 ++ w2) x z.
Proof.
  intros (Hr1 & Hc1 & Hk1) (Hr2 & Hc2 & Hk2). unfold reads.
  rewrite Hr1, Hr2, Hc2, Hc1, Hk2, Hk1, rev_app_distr, <- !app_assoc. done.
Qed.

Lemma reads_split w1 w2 x z :
  reads (w1 ++ w2) x z ->
  exists y, reads w1 x y /\ reads w2 y z /\ remaining y = w2 ++ remaining z.
Proof.
  intros (Hr & Hc & Hk).
  exists (MState (rev w1 ++ consumed x) (w2 ++ remaining z) (captures x)).
  unfold reads. simpl.
  rewrite Hr, Hc, Hk, rev_app_distr, <- !app_assoc. done.
Qed.

Lemma reads_shorter w x y : reads w x y -> (shorter y x = true <-> w <> []).
Proof.
  intros (Hr & _). unfold shorter. rewrite Hr, length_app, Nat.ltb_lt.
  destruct w; simpl; split; (done || lia).
Qed.

Lemma reads_step c rest x :
  remaining x = c :: rest -> reads [c] x (step c rest x).
Proof. intros Hr. unfold reads, step. simpl. by rewrite Hr. Qed.

Lemma star_rel_lang (R : mstate -> mstate -> Prop) (L : jsstring -> Prop) :
  (forall x y, R x y <-> exists w, L w /\ reads w x y) ->
  forall x y, star_rel R x y <-> exists w, lang_star L w /\ reads w x y.
Proof.
  intros HRL x y. split.
  - induction 1 as [x|x y z Hxy Hsh _ (w2 & Hw2 & Hyz)].
    + exists []. split; [constructor|by apply reads_nil].
    + apply HRL in Hxy as (w1 & Hw1 & Hxy).
      exists (w1 ++ w2). split; [|by apply reads_app with y].
      constructor; [done| |done]. by apply (reads_shorter w1 x y).
  - intros (w & Hw & Hxy). revert x Hxy.
    induction Hw as [|w1 w2 Hw1 Hne _ IH]; intros x Hxy.
    + apply reads_nil in Hxy as ->. constructor.
    + apply reads_split in Hxy as (mid & Hxm & Hmy & _).
      apply star_more with mid.
      * apply HRL. by exists w1.
      * by apply (reads_shorter w1 x mid).
      * by apply IH.
Qed.

Lemma Matches_plain (r : regex) :
  plain r = true ->
  forall x y, Matches r x y <-> exists w, Lang r w /\ reads w x y.
Proof.
  induction r as [|p|a IHa b IHb|a IHa b IHb|a IHa|a IHa|a IHa|n a IHa|ml|ml];
    cbn [plain Matches Lang]; intros Hplain x y; try discriminate.
  - split.
    + intros ->. exists []. by split; [|apply reads_nil].
    + intros (w & -> & Hxy). by apply reads_nil.
  - split.
    + intros (c & rest & Hr & Hp & ->). exists [c].
      split; [by exists c|by apply reads_step].
    + intros (w & (c & -> & Hp) & (Hr & Hc & Hk)).
      exists c, (remaining y). repeat split; [done..|].
      by apply mstate_eq.
  - apply andb_true_iff in Hplain as [Ha Hb]. split.
    + intros (z & Hxz & Hzy).
      apply (IHa Ha) in Hxz as (w1 & Hw1 & Hxz).
      apply (IHb Hb) in Hzy as (w2 & Hw2 & Hzy).
      exists (w1 ++ w2). split; [by exists w1, w2|by apply reads_app with z].
    + intros (w & (w1 & w2 & -> & Hw1 & Hw2) & Hxy).
      apply reads_split in Hxy as (z & Hxz & Hzy & _).
      exists z. split; [apply (IHa Ha)|apply (IHb Hb)]; eauto.
  - apply andb_true_iff in Hplain as [Ha Hb].
    rewrite (IHa Ha), (IHb Hb). split.
    + intros [(w & Hw & Hxy)|(w & Hw & Hxy)]; exists w; auto.
    + intros (w & [Hw|Hw] & Hxy); [left|right]; eauto.
  - apply star_rel_lang. auto.
  - split.
    + intros (z & Hxz & Hzy).
      apply (IHa Hplain) in Hxz as (w1 & Hw1 & Hxz).
      apply (star_rel_lang _ (Lang a) (IHa Hplain)) in Hzy as (w2 & Hw2 & Hzy).
      exists (w1 ++ w2). split; [by exists w1, w2|by apply reads_app with z].
    + intros (w & (w1 & w2 & -> & Hw1 & Hw2) & Hxy).
      apply reads_split in Hxy as (z & Hxz & Hzy & _).
      exists z. split; [apply (IHa Hplain)|
                        apply (star_rel_lang _ (Lang a) (IHa Hplain))]; eauto.
  - split.
    + intros [[Hxy Hsh]| ->].
      * apply (IHa Hplain) in Hxy as (w & Hw & Hxy). exists w.
        split; [|done]. left. split; [done|]. by apply (reads_shorter w x y).
      * exists []. split; [by right|by apply reads_nil].
    + intros (w & [[Hw Hne]| ->] & Hxy).
      * left. split; [apply (IHa Hplain); eauto|].
        by apply (reads_shorter w x y).
      * right. by apply reads_nil.
Qed.

Lemma Lang_lit (s w : jsstring) : Lang (lit s) w <-> w = s.
Proof.
  revert w. induction s as [|c s IH]; intros w; [done|].
  change (lit (c :: s)) with (Seq (Chr (N.eqb c)) (lit s)). cbn [Lang]. split.
  - intros (w1 & w2 & -> & (c' & -> & Hc) & Hw2).
    apply N.eqb_eq in Hc as <-. apply IH in Hw2 as ->. reflexivity.
  - intros ->. exists [c], s. split; [done|]. split; [|by apply IH].
    exists c. by rewrite N.eqb_refl.
Qed.

Lemma lang_star_iff (L1 L2 : jsstring -> Prop) :
  (forall w, L1 w <-> L2 w) -> forall w, lang_star L1 w <-> lang_star L2 w.
Proof.
  intros HL w. split; induction 1; constructor; try done; by apply HL.
Qed.

Lemma Lang_star_chr (p : N -> bool) (w : jsstring) :
  Lang (Star (Chr p)) w <-> all_in p w.
Proof.
  cbn [Lang]. split.
  - induction 1 as [|w1 w2 (c & -> & Hp) _ _ IH]; [constructor|].
    by constructor.
  - induction 1 as [|c w Hp _ IH]; [constructor|].
    apply (lang_star_app _ [c] w); [by exists c|done|done].
Qed.

Lemma Lang_plus_chr (p : N -> bool) (w : jsstring) :
  Lang (Plus (Chr p)) w <-> w <> [] /\ all_in p w.
Proof.
  change (Lang (Plus (Chr p)) w) with
    (exists w1 w2, w = w1 ++ w2 /\ Lang (Chr p) w1 /\ Lang (Star (Chr p)) w2).
  split.
  - intros (w1 & w2 & -> & (c & -> & Hp) & Hw2).
    apply Lang_star_chr in Hw2. split; [done|by constructor].
  - intros [Hne Hall]. destruct w as [|c w]; [done|].
    apply Forall_cons in Hall as [Hp Hall].
    exists [c], w. split; [done|]. split; [by exists c|by apply Lang_star_chr].
Qed.

Lemma Lang_MODIFIER (w : jsstring) : Lang MODIFIER w <-> w ∈ modifier_keywords.
Proof.
  unfold MODIFIER, modifier_keywords. cbn [Lang]. rewrite !Lang_lit.
  rewrite !elem_of_cons, elem_of_nil. tauto.
Qed.

Lemma Lang_modifiers (w : jsstring) :
  Lang (Star (Seq MODIFIER (Plus (Chr is_space)))) w <->
  exists mods, w = modifier_run mods /\ modifiers_ok mods.
Proof.
  change (Lang (Star (Seq MODIFIER (Plus (Chr is_space)))) w)
    with (lang_star (Lang (Seq MODIFIER (Plus (Chr is_space)))) w).
  rewrite (lang_star_iff _
    (fun u => exists kw sp, u = kw ++ sp /\ kw ∈ modifier_keywords /\
                            sp <> [] /\ all_in is_space sp)).
  2:{ intros u. change (Lang (Seq MODIFIER (Plus (Chr is_space))) u)
        with (exists w1 w2, u = w1 ++ w2 /\ Lang MODIFIER w1 /\
                            Lang (Plus (Chr is_space)) w2).
      split; intros (kw & sp & -> & Hkw & Hsp); exists kw, sp;
        (split; [done|]); [apply Lang_MODIFIER in Hkw; apply Lang_plus_chr in Hsp|
                           apply Lang_MODIFIER in Hkw; apply Lang_plus_chr in Hsp];
        done. }
  split.
  - induction 1 as [|w1 w2 (kw & sp & -> & Hkw & Hne & Hsp) _ _ (mods & -> & Hmods)].
    + exists []. split; [reflexivity|constructor].
    + exists ((kw, sp) :: mods). split; [reflexivity|]. by constructor.
  - intros (mods & -> & Hmods).
    induction Hmods as [|[kw sp] mods (Hkw & Hne & Hsp) _ IH]; [constructor|].
    apply (lang_star_app _ (kw ++ sp) (modifier_run mods)); [|by destruct kw|done].
    by exists kw, sp.
Qed.

Lemma Lang_CLASS_HEAD (w : jsstring) : Lang CLASS_HEAD w <-> class_head w.
Proof.
  unfold CLASS_HEAD, class_head.
  change (Lang (Seq ?a ?b) w)
    with (exists w1 w2, w = w1 ++ w2 /\ Lang a w1 /\ Lang b w2).
  split.
  - intros (ws & w2 & -> & Hws & (wm & w3 & -> & Hwm & (wc & ws1 & -> & Hwc & Hws1))).
    apply Lang_star_chr in Hws. apply Lang_modifiers in Hwm as (mods & -> & Hmods).
    apply Lang_lit in Hwc as ->. apply Lang_plus_chr in Hws1 as [Hne Hws1].
    by exists ws, mods, ws1.
  - intros (ws & mods & ws1 & -> & Hws & Hmods & Hne & Hws1).
    exists ws, (modifier_run mods ++ js "class" ++ ws1).
    split; [done|]. split; [by apply Lang_star_chr|].
    exists (modifier_run mods), (js "class" ++ ws1).
    split; [done|]. split; [apply Lang_modifiers; by exists mods|].
    exists (js "class"), ws1.
    split; [done|]. split; [by apply Lang_lit|by apply Lang_plus_chr].
Qed.

Lemma plain_lit (s : jsstring) : plain (lit s) = true.
Proof. induction s as [|c s IH]; [reflexivity|]. exact IH. Qed.

Lemma plain_CLASS_HEAD : plain CLASS_HEAD = true.
Proof. reflexivity. Qed.

(** ** A greedy class repetition before a continuation that cannot fail *)

Lemma take_while_drop (p : N -> bool) (s : jsstring) :
  s = take_while p s ++ drop (length (take_while p s)) s.
Proof.
  induction s as [|c s IH]; [reflexivity|]. simpl.
  destruct (p c); [|reflexivity]. simpl. by rewrite <- IH.
Qed.

Lemma take_while_app (p : N -> bool) (w rest : jsstring) :
  all_in p w ->
  match rest with [] => True | c :: _ => p c = false end ->
  take_while p (w ++ rest) = w.
Proof.
  intros Hw Hrest. induction Hw as [|c w Hc _ IH]; simpl.
  - destruct rest as [|c rest]; [reflexivity|]. simpl. by rewrite Hrest.
  - by rewrite Hc, IH.
Qed.

Lemma after_run_reads (p : N -> bool) (x : mstate) :
  reads (take_while p (remaining x)) x (after_run p x).
Proof. unfold reads, after_run. simpl. split; [apply take_while_drop|done]. Qed.

Lemma repeat_chr_total (p : N -> bool) :
  forall fuel x k,
    (length (remaining x) < fuel)%nat ->
    (forall y, is_Some (k y)) ->
    repeat_matcher (m (Chr p)) fuel x k = k (after_run p x).
Proof.
  induction fuel as [|fuel IH]; intros x k Hfuel Hk; [lia|].
  cbn [repeat_matcher m].
  destruct x as [cons rem caps]. cbn [remaining] in *.
  destruct rem as [|c rest].
  { reflexivity. }
  unfold after_run. cbn [remaining consumed captures take_while].
  destruct (p c) eqn:Hp; [|reflexivity].
  unfold shorter, step. cbn [remaining consumed captures length].
  rewrite (proj2 (Nat.ltb_lt _ _)) by lia.
  rewrite IH by (cbn [remaining]; simpl in Hfuel; lia || done).
  unfold after_run. cbn [remaining consumed captures length drop rev].
  rewrite <- app_assoc. cbn [app].
  destruct (Hk (MState (rev (take_while p rest) ++ c :: cons)
                  (drop (length (take_while p rest)) rest) caps)) as [r ->].
  reflexivity.
Qed.

Lemma matched_between_reads (w : jsstring) (x y : mstate) :
  reads w x y -> matched_between x y = w.
Proof.
  intros (Hr & _). unfold matched_between. rewrite Hr, length_app.
  replace (length w + length (remaining y) - length (remaining y))%nat
    with (length w) by lia.
  apply take_app_length.
Qed.

Lemma m_chr_eq (p : N -> bool) x k :
  m (Chr p) x k =
  match remaining x with
  | c :: rest => if p c then k (step c rest x) else None
  | [] => None
  end.
Proof. reflexivity. Qed.

Lemma m_star_eq (a : regex) x k :
  m (Star a) x k = repeat_matcher (m a) (S (length (remaining x))) x k.
Proof. reflexivity. Qed.

(** The class name: an identifier start, then the longest run of identifier
    characters; the continuation gets it as capture 2. *)
Lemma class_name_run (z : mstate) (k : mstate -> option mstate) :
  (forall y, is_Some (k y)) ->
  m CLASS_NAME z k =
  match remaining z with
  | c :: rest =>
      if ident_start c
      then k (set_capture 2 (c :: take_while ident_char rest)
                (after_run ident_char (step c rest z)))
      else None
  | [] => None
  end.
Proof.
  intros Hk.
  change (m CLASS_NAME z k)
    with (m (Chr ident_start) z
            (fun y => m (Star (Chr ident_char)) y
                        (fun y' => k (set_capture 2 (matched_between z y') y')))).
  rewrite m_chr_eq.
  destruct (remaining z) as [|c rest] eqn:Hrem; [reflexivity|].
  destruct (ident_start c); [|reflexivity].
  rewrite m_star_eq.
  rewrite repeat_chr_total; [|lia|intros y; apply Hk].
  f_equal. f_equal.
  apply (matched_between_reads (c :: take_while ident_char rest)).
  change (c :: take_while ident_char rest)
    with ([c] ++ take_while ident_char (remaining (step c rest z))).
  apply reads_app with (step c rest z); [by apply reads_step|].
  apply after_run_reads.
Qed.

(** ** Character classes *)

Ltac class_arith :=
  unfold is_space, is_line_terminator, ident_start, ident_char, lower_start,
    lower_char, in_range in *;
  repeat match goal with
         | H : _ = false |- _ => apply not_true_iff_false in H
         | |- _ = false => apply not_true_iff_false; intros ?
         end;
  rewrite ?orb_true_iff, ?andb_true_iff, ?N.eqb_eq, ?N.leb_le in *;
  lia.

Lemma ident_start_not_space c : ident_start c = true -> is_space c = false.
Proof. intros Hc. class_arith. Qed.

Lemma digit_not_space d : in_range 48 57 d = true -> is_space d = false.
Proof. intros Hd. class_arith. Qed.

Lemma digit_not_ident_start d : in_range 48 57 d = true -> ident_start d = false.
Proof. intros Hd. class_arith. Qed.

Lemma space_not_lower_char c : is_space c = true -> lower_char c = false.
Proof. intros Hc. class_arith. Qed.

Lemma line_terminator_is_space c : is_line_terminator c = true -> is_space c = true.
Proof. intros Hc. unfold is_space. rewrite Hc. by rewrite !orb_true_r. Qed.

Lemma lower_start_not_space c : lower_start c = true -> is_space c = false.
Proof. intros Hc. class_arith. Qed.

(** ** The lines of a document *)

Lemma line_break_at (before rest : jsstring) :
  m LINE_BREAK (MState before rest []) Some =
  match rest with
  | c :: rest' =>
      if c =? LF then Some (MState (LF :: before) rest' [])
      else match rest' with
           | d :: rest'' =>
               if (c =? CR) && (d =? LF)
               then Some (MState (LF :: CR :: before) rest'' [])
               else None
           | [] => None
           end
  | [] => None
  end.
Proof.
  unfold LINE_BREAK. cbn [m remaining].
  destruct rest as [|c rest']; [reflexivity|].
  destruct (N.eqb_spec c LF) as [->|Hlf].
  { reflexivity. }
  destruct (N.eqb_spec c CR) as [->|Hcr].
  - change (CR =? CR) with true. cbn iota.
    unfold shorter, step. cbn [remaining consumed captures length].
    rewrite (proj2 (Nat.ltb_lt _ _)) by lia.
    destruct rest' as [|d rest'']; [reflexivity|].
    destruct (N.eqb_spec d LF) as [->|Hd]; [reflexivity|].
    rewrite (proj2 (N.eqb_neq LF d)) by done. reflexivity.
  - rewrite (proj2 (N.eqb_neq CR c)) by done.
    rewrite (proj2 (N.eqb_neq LF c)) by done.
    by destruct rest'.
Qed.

Lemma push_front_app (a b : jsstring) (lines : list jsstring) :
  lines <> [] -> push_front (a ++ b) lines = push_front a (push_front b lines).
Proof. destruct lines; [done|]. intros _. simpl. by rewrite app_assoc. Qed.

Lemma push_front_nil (lines : list jsstring) :
  lines <> [] -> push_front [] lines = lines.
Proof. by destruct lines. Qed.

Lemma crlf_lines_nonempty (s : jsstring) : crlf_lines s <> [].
Proof.
  induction s as [|c s IH]; [done|]. cbn [crlf_lines].
  destruct (c =? LF); [done|]. destruct s as [|d s]; [done|].
  destruct ((c =? CR) && (d =? LF)); [done|].
  by destruct (crlf_lines (d :: s)).
Qed.

(** The loop of [split] cuts a text into these lines, whatever the fuel
    above the length of the text. *)
Lemma split_loop_lines :
  forall fuel before piece rest,
    (length rest < fuel)%nat ->
    split_loop LINE_BREAK fuel before piece rest =
    push_front (rev piece) (crlf_lines rest).
Proof.
  induction fuel as [fuel IH] using lt_wf_ind.
  intros before piece rest Hfuel.
  destruct fuel as [|fuel]; [lia|]. cbn [split_loop].
  destruct rest as [|c rest'].
  { simpl. by rewrite app_nil_r. }
  rewrite line_break_at. cbn [crlf_lines].
  destruct (c =? LF).
  { cbn [remaining consumed length].
    rewrite (proj2 (Nat.eqb_neq _ _)) by lia. cbn [andb].
    rewrite IH by (simpl in *; lia).
    rewrite push_front_nil by apply crlf_lines_nonempty.
    simpl. by rewrite app_nil_r. }
  destruct rest' as [|d rest''].
  { rewrite IH by (simpl in *; lia). simpl. by rewrite app_nil_r. }
  destruct ((c =? CR) && (d =? LF)).
  { cbn [remaining consumed length].
    rewrite (proj2 (Nat.eqb_neq _ _)) by lia. cbn [andb].
    rewrite IH by (simpl in *; lia).
    rewrite push_front_nil by apply crlf_lines_nonempty.
    simpl. by rewrite app_nil_r. }
  rewrite IH by (simpl in *; lia).
  cbn [rev]. apply push_front_app, crlf_lines_nonempty.
Qed.

Lemma split_lines_spec (text : jsstring) :
  split_regex LINE_BREAK text = crlf_lines text.
Proof.
  unfold split_regex. destruct text as [|c text]; [reflexivity|].
  rewrite split_loop_lines by (simpl; lia).
  pose proof (crlf_lines_nonempty (c :: text)).
  by destruct (crlf_lines (c :: text)).
Qed.

(** ** The class pattern on a line *)

Lemma exec_from_anchored (r : regex) (rest before : jsstring) :
  before <> [] -> exec_from (Seq (Bol false) r) before rest = None.
Proof.
  assert (Hfail : forall seen rest', seen <> [] ->
            m (Seq (Bol false) r) (MState seen rest' []) Some = None).
  { intros [|b seen] rest' Hne; [done|reflexivity]. }
  revert before. induction rest as [|c rest IH]; intros before Hne;
    cbn [exec_from]; rewrite Hfail by done; [reflexivity|].
  by apply IH.
Qed.

Lemma exec_anchored (r : regex) (s : jsstring) :
  exec (Seq (Bol false) r) s =
  match m r (MState [] s []) Some with
  | Some y => Some (MatchResult 0 y)
  | None => None
  end.
Proof.
  unfold exec.
  assert (Hfirst : m (Seq (Bol false) r) (MState [] s []) Some
                   = m r (MState [] s []) Some) by reflexivity.
  destruct s as [|c s]; cbn [exec_from]; rewrite Hfirst;
    destruct (m r _ Some); try reflexivity.
  by apply exec_from_anchored.
Qed.

Lemma dart_exec_unfold (lineText : jsstring) :
  exec DART_CLASS_REGEX lineText =
  match m CLASS_HEAD (MState [] lineText [])
          (fun z => m CLASS_NAME z (close_whole (MState [] lineText []))) with
  | Some y => Some (MatchResult 0 y)
  | None => None
  end.
Proof. unfold DART_CLASS_REGEX. by rewrite exec_anchored. Qed.

Lemma class_head_reads (lineText : jsstring) (z : mstate) :
  Matches CLASS_HEAD (MState [] lineText []) z <->
  exists head, class_head head /\ lineText = head ++ remaining z /\
               consumed z = rev head /\ captures z = [].
Proof.
  rewrite (Matches_plain CLASS_HEAD plain_CLASS_HEAD). unfold reads.
  cbn [remaining consumed captures]. split.
  - intros (w & Hw & Hr & Hc & Hk). exists w.
    rewrite app_nil_r in Hc. by apply Lang_CLASS_HEAD in Hw.
  - intros (w & Hw & Hr & Hc & Hk). exists w.
    rewrite app_nil_r. by apply Lang_CLASS_HEAD in Hw.
Qed.

(** When the class pattern matches a line, the line starts with a class
    head followed by an identifier start; capture 2 is that code unit with
    the longest run of identifier characters after it, capture 1 is the
    line up to the end of capture 2. *)
Lemma dart_match_some (lineText : jsstring) (res : match_result) :
  exec DART_CLASS_REGEX lineText = Some res ->
  exists head c rest,
    lineText = head ++ c :: rest /\ class_head head /\ ident_start c = true /\
    group 1 res = Some (head ++ c :: take_while ident_char rest) /\
    group 2 res = Some (c :: take_while ident_char rest).
Proof.
  rewrite dart_exec_unfold.
  destruct (m CLASS_HEAD _ _) as [y|] eqn:Hm; [|discriminate].
  intros [= <-].
  apply m_sound in Hm as (z & Hz & Hk).
  apply class_head_reads in Hz as (head & Hhead & Hline & Hcons & Hcaps).
  rewrite class_name_run in Hk by (intros ?; by eexists).
  destruct (remaining z) as [|c rest] eqn:Hrem; [discriminate|].
  destruct (ident_start c) eqn:Hc; [|discriminate].
  injection Hk as <-.
  exists head, c, rest. split; [done|]. split; [done|]. split; [done|].
  split; [|reflexivity].
  unfold group. cbn [final captures set_capture lookup_capture Nat.eqb].
  f_equal.
  apply (matched_between_reads (head ++ c :: take_while ident_char rest)
           (MState [] lineText []) (after_run ident_char (step c rest z))).
  change (c :: take_while ident_char rest)
    with ([c] ++ take_while ident_char (remaining (step c rest z))).
  rewrite app_assoc.
  apply reads_app with (step c rest z); [|apply after_run_reads].
  apply reads_app with z; [|by apply reads_step].
  unfold reads. cbn [remaining consumed captures].
  by rewrite Hrem, app_nil_r.
Qed.

(** When it does not, no class head of the line is followed by an
    identifier start. *)
Lemma dart_match_none (lineText : jsstring) :
  exec DART_CLASS_REGEX lineText = None ->
  forall head c rest,
    lineText = head ++ c :: rest -> class_head head -> ident_start c = false.
Proof.
  rewrite dart_exec_unfold.
  destruct (m CLASS_HEAD _ _) as [y|] eqn:Hm; [discriminate|].
  intros _ head c rest Hline Hhead.
  destruct (ident_start c) eqn:Hc; [|reflexivity].
  assert (Hsome : is_Some (m CLASS_HEAD (MState [] lineText [])
            (fun z => m CLASS_NAME z (close_whole (MState [] lineText []))))).
  { apply (m_complete CLASS_HEAD _ (MState (rev head) (c :: rest) [])).
    - apply class_head_reads. by exists head.
    - rewrite class_name_run by (intros ?; by eexists).
      cbn [remaining]. rewrite Hc. by eexists. }
  rewrite Hm in Hsome. by destruct Hsome.
Qed.

(** ** A line has at most one class head before its name *)

Lemma space_run_unique (ws ws' X X' : jsstring) :
  all_in is_space ws -> all_in is_space ws' ->
  starts_without_space X -> starts_without_space X' ->
  ws ++ X = ws' ++ X' -> ws = ws' /\ X = X'.
Proof.
  intros Hws Hws' HX HX' Heq.
  assert (Hsame : ws = ws').
  { rewrite <- (take_while_app is_space ws X), <- (take_while_app is_space ws' X');
      [by rewrite Heq|done..]. }
  subst ws'. split; [done|]. by apply app_inv_head in Heq.
Qed.

Lemma keywords_heads_distinct :
  Forall (fun k1 => Forall (fun k2 => head k1 = head k2 -> k1 = k2)
                      pattern_keywords) pattern_keywords.
Proof. decide_by_computation. Qed.

Lemma keywords_start_without_space :
  Forall (fun k => k <> [] /\ starts_without_space k) pattern_keywords.
Proof.
  repeat constructor; discriminate.
Qed.

Lemma keyword_prefix_unique (k1 k2 a b : jsstring) :
  k1 ∈ pattern_keywords -> k2 ∈ pattern_keywords ->
  k1 ++ a = k2 ++ b -> k1 = k2.
Proof.
  intros H1 H2 Heq.
  pose proof keywords_heads_distinct as Hd.
  rewrite Forall_forall in Hd. specialize (Hd k1 H1).
  rewrite Forall_forall in Hd. apply (Hd k2 H2).
  pose proof keywords_start_without_space as Hs. rewrite Forall_forall in Hs.
  destruct (Hs k1 H1) as [Hne1 _]. destruct (Hs k2 H2) as [Hne2 _].
  destruct k1 as [|c1 k1]; [done|]. destruct k2 as [|c2 k2]; [done|].
  simpl in *. congruence.
Qed.

Lemma modifier_is_keyword (kw : jsstring) :
  kw ∈ modifier_keywords -> kw ∈ pattern_keywords.
Proof. intros Hkw. apply elem_of_cons. by right. Qed.

Lemma class_is_keyword : js "class" ∈ pattern_keywords.
Proof. apply elem_of_cons. by left. Qed.

Lemma class_is_no_modifier : js "class" ∉ modifier_keywords.
Proof. decide_by_computation. Qed.

Lemma keyword_starts_without_space (k rest : jsstring) :
  k ∈ pattern_keywords -> starts_without_space (k ++ rest).
Proof.
  intros Hk. pose proof keywords_start_without_space as Hs.
  rewrite Forall_forall in Hs. destruct (Hs k Hk) as [Hne Hstart].
  by destruct k.
Qed.

Lemma modifier_run_cons kw sp mods :
  modifier_run ((kw, sp) :: mods) = kw ++ sp ++ modifier_run mods.
Proof. unfold modifier_run. simpl. by rewrite <- app_assoc. Qed.

Lemma modifier_tail_starts_without_space mods (Y : jsstring) :
  modifiers_ok mods ->
  starts_without_space (modifier_run mods ++ js "class" ++ Y).
Proof.
  intros Hmods. destruct Hmods as [|[kw sp] mods (Hkw & _) _].
  - apply (keyword_starts_without_space (js "class")). apply class_is_keyword.
  - rewrite modifier_run_cons, <- !app_assoc.
    apply keyword_starts_without_space. by apply modifier_is_keyword.
Qed.

Lemma modifier_tail_unique mods1 :
  forall mods2 (ws1 ws2 X1 X2 : jsstring),
    modifiers_ok mods1 -> modifiers_ok mods2 ->
    all_in is_space ws1 -> all_in is_space ws2 ->
    starts_without_space X1 -> starts_without_space X2 ->
    modifier_run mods1 ++ js "class" ++ ws1 ++ X1 =
    modifier_run mods2 ++ js "class" ++ ws2 ++ X2 ->
    modifier_run mods1 ++ js "class" ++ ws1 =
    modifier_run mods2 ++ js "class" ++ ws2.
Proof.
  induction mods1 as [|[kw1 sp1] mods1 IH];
    intros [|[kw2 sp2] mods2] ws1 ws2 X1 X2 Hm1 Hm2 Hws1 Hws2 HX1 HX2 Heq.
  - change (modifier_run []) with (@nil N) in *. cbn [app] in *.
    apply app_inv_head in Heq.
    apply space_run_unique in Heq as [-> _]; done.
  - exfalso. apply Forall_cons in Hm2 as [(Hkw2 & _) _].
    rewrite modifier_run_cons, <- !app_assoc in Heq.
    change (modifier_run []) with (@nil N) in Heq. cbn [app] in Heq.
    apply keyword_prefix_unique in Heq;
      [|apply class_is_keyword|by apply modifier_is_keyword].
    subst kw2. by apply class_is_no_modifier.
  - exfalso. apply Forall_cons in Hm1 as [(Hkw1 & _) _].
    rewrite modifier_run_cons, <- !app_assoc in Heq.
    change (modifier_run []) with (@nil N) in Heq. cbn [app] in Heq.
    apply keyword_prefix_unique in Heq;
      [|by apply modifier_is_keyword|apply class_is_keyword].
    subst kw1. by apply class_is_no_modifier.
  - apply Forall_cons in Hm1 as [(Hkw1 & Hne1 & Hsp1) Hm1].
    apply Forall_cons in Hm2 as [(Hkw2 & Hne2 & Hsp2) Hm2].
    cbn [fst snd] in *.
    rewrite !modifier_run_cons, <- !app_assoc in *.
    pose proof (keyword_prefix_unique _ _ _ _ (modifier_is_keyword _ Hkw1)
                  (modifier_is_keyword _ Hkw2) Heq) as ->.
    apply app_inv_head in Heq.
    apply space_run_unique in Heq as [-> Heq]; try done;
      try (by apply modifier_tail_starts_without_space).
    by rewrite (IH mods2 ws1 ws2 X1 X2).
Qed.

(** Two class heads of a line, each followed by something other than white
    space, are the same. *)
Lemma class_head_unique (h1 h2 X1 X2 : jsstring) :
  class_head h1 -> class_head h2 ->
  starts_without_space X1 -> starts_without_space X2 ->
  h1 ++ X1 = h2 ++ X2 -> h1 = h2.
Proof.
  intros (ws & mods & ws1 & -> & Hws & Hmods & Hne1 & Hws1)
         (ws' & mods' & ws1' & -> & Hws' & Hmods' & Hne1' & Hws1') HX1 HX2 Heq.
  fold (modifier_run mods) in *. fold (modifier_run mods') in *.
  fold (modifiers_ok mods) in *. fold (modifiers_ok mods') in *.
  rewrite <- !app_assoc in Heq.
  apply space_run_unique in Heq as [-> Heq]; try done.
  - f_equal. by apply (modifier_tail_unique mods mods' ws1 ws1' X1 X2).
  - rewrite (app_assoc (modifier_run mods)), <- (app_assoc (modifier_run mods)).
    by apply modifier_tail_starts_without_space.
  - rewrite (app_assoc (modifier_run mods')), <- (app_assoc (modifier_run mods')).
    by apply modifier_tail_starts_without_space.
Qed.

(** ** The class-declaration matcher *)

Lemma lensOfLine_some documentUri i lineText lens :
  lensOfLine documentUri i lineText = Some lens ->
  exists head c rest,
    lineText = head ++ c :: rest /\ class_head head /\ ident_start c = true /\
    lens = lensFor documentUri i (head ++ c :: take_while ident_char rest)
             (c :: take_while ident_char rest).
Proof.
  unfold lensOfLine.
  destruct (exec DART_CLASS_REGEX lineText) as [res|] eqn:Hexec; [|discriminate].
  apply dart_match_some in Hexec
    as (head & c & rest & Hline & Hhead & Hc & -> & ->).
  intros [= <-]. by exists head, c, rest.
Qed.

Lemma lensOfLine_none documentUri i lineText :
  lensOfLine documentUri i lineText = None ->
  forall head c rest,
    lineText = head ++ c :: rest -> class_head head -> ident_start c = false.
Proof.
  unfold lensOfLine.
  destruct (exec DART_CLASS_REGEX lineText) as [res|] eqn:Hexec.
  - apply dart_match_some in Hexec
      as (head & c & rest & Hline & Hhead & Hc & -> & ->). discriminate.
  - intros _. by apply dart_match_none.
Qed.

Lemma lensOfLine_at documentUri i lineText lens :
  lensOfLine documentUri i lineText = Some lens -> lens_at i lens.
Proof.
  intros Hl. apply lensOfLine_some in Hl as (? & ? & ? & _ & _ & _ & ->).
  reflexivity.
Qed.

Lemma lensesFrom_elem documentUri (lines : list jsstring) :
  forall i0 lens,
    lens ∈ lensesFrom documentUri i0 lines <->
    exists j lineText, lines !! j = Some lineText /\
                       lensOfLine documentUri (i0 + j) lineText = Some lens.
Proof.
  induction lines as [|l lines IH]; intros i0 lens; cbn [lensesFrom].
  - split; [by intros ?%elem_of_nil|by intros (j & ? & ? & _)].
  - assert (Hrest : lens ∈ lensesFrom documentUri (S i0) lines <->
              exists j lineText, (l :: lines) !! S j = Some lineText /\
                lensOfLine documentUri (i0 + S j) lineText = Some lens).
    { rewrite IH. split; intros (j & lt & Hj & Hl); exists j, lt;
        (split; [done|]); by replace (i0 + S j)%nat with (S i0 + j)%nat in * by lia. }
    destruct (lensOfLine documentUri i0 l) as [lens0|] eqn:Hl0.
    + rewrite elem_of_cons, Hrest. split.
      * intros [->|(j & lt & Hj & Hl)].
        -- exists 0%nat, l. by rewrite Nat.add_0_r.
        -- by exists (S j), lt.
      * intros ([|j] & lt & Hj & Hl).
        -- left. injection Hj as <-. rewrite Nat.add_0_r in Hl. congruence.
        -- right. by exists j, lt.
    + rewrite Hrest. split.
      * intros (j & lt & Hj & Hl). by exists (S j), lt.
      * intros ([|j] & lt & Hj & Hl).
        -- injection Hj as <-. rewrite Nat.add_0_r in Hl. congruence.
        -- by exists j, lt.
Qed.

(** The lenses of line [i] of a document are those of the loop body at that
    line. *)
Lemma provideCodeLenses_at documentUri text i lineText lens :
  split_regex LINE_BREAK text !! i = Some lineText ->
  (lens ∈ provideCodeLenses documentUri text /\ lens_at i lens <->
   lensOfLine documentUri i lineText = Some lens).
Proof.
  intros Hi. unfold provideCodeLenses. rewrite lensesFrom_elem. split.
  - intros [(j & lt & Hj & Hl) Hat].
    pose proof (lensOfLine_at _ _ _ _ Hl) as Hat'.
    unfold lens_at in *. rewrite Hat in Hat'. simpl in Hat'. subst j.
    rewrite Hi in Hj. by injection Hj as <-.
  - intros Hl. split; [by exists i, lineText|by apply (lensOfLine_at _ _ _ _ Hl)].
Qed.

Lemma includes_app (a s b : jsstring) : includes (a ++ s ++ b) s = true.
Proof.
  induction a as [|x a IH].
  - cbn [app]. destruct (s ++ b) eqn:Heq; cbn [includes];
      rewrite <- Heq, (proj2 (startsWith_spec (s ++ b) s)) by (by exists b); done.
  - cbn [app includes]. rewrite IH. by rewrite orb_true_r.
Qed.

Lemma class_head_includes_class (head rest : jsstring) :
  class_head head -> includes (head ++ rest) (js "class") = true.
Proof.
  intros (ws & mods & ws1 & -> & _).
  rewrite <- !app_assoc. rewrite (app_assoc ws).
  apply includes_app.
Qed.

Lemma identifier_split (name rest : jsstring) :
  identifier name -> ends_identifier rest ->
  exists c cs, name = c :: cs /\ ident_start c = true /\
               take_while ident_char (cs ++ rest) = cs.
Proof.
  intros (c & cs & -> & Hc & Hcs) Hrest. exists c, cs.
  split; [done|]. split; [done|]. by apply take_while_app.
Qed.

(** C4: for every line of a document, the matcher produces a lens exactly
    when the line begins with optional white space, any number of the
    modifier keywords [abstract], [base], [interface], [final], [sealed] and
    [mixin], each followed by white space, the keyword [class], white space,
    and an identifier (a letter or underscore, then letters, digits and
    underscores).  The lens carries that identifier, read to its end, as the
    class name, and spans the line from its start to the end of the
    identifier.  A line whose class head is followed by a digit, and a line
    without [class], get no lens.  The lines are the pieces of the text
    between line feeds, a carriage return before a line feed going with
    it. *)
Theorem class_lens_exact (documentUri text lineText : jsstring) (i : nat) :
  split_regex LINE_BREAK text !! i = Some lineText ->
  ((exists lens, lens ∈ provideCodeLenses documentUri text /\ lens_at i lens) <->
   exists name, class_declaration_line lineText name) /\
  (forall lens head name rest,
     lens ∈ provideCodeLenses documentUri text -> lens_at i lens ->
     lineText = head ++ name ++ rest ->
     class_head head -> identifier name -> ends_identifier rest ->
     arguments (lens_command lens) = [mkClassInfo documentUri name] /\
     range lens =
       mkRange (mkPosition i 0) (mkPosition i (length (head ++ name)))) /\
  (forall lens1 lens2,
     lens1 ∈ provideCodeLenses documentUri text -> lens_at i lens1 ->
     lens2 ∈ provideCodeLenses documentUri text -> lens_at i lens2 ->
     lens1 = lens2) /\
  (forall head d rest,
     lineText = head ++ d :: rest -> class_head head ->
     in_range 48 57 d = true ->
     forall lens, lens ∈ provideCodeLenses documentUri text -> ~ lens_at i lens) /\
  (includes lineText (js "class") = false ->
   forall lens, lens ∈ provideCodeLenses documentUri text -> ~ lens_at i lens) /\
  split_regex LINE_BREAK text = crlf_lines text.
Proof.
  intros Hi.
  pose proof (fun lens => provideCodeLenses_at documentUri text i lineText lens Hi)
    as Hat.
  split; [|split; [|split; [|split; [|split; [|apply split_lines_spec]]]]].
  - split.
    + intros (lens & Hin & Hlens).
      assert (Hl : lensOfLine documentUri i lineText = Some lens) by (by apply Hat).
      apply lensOfLine_some in Hl as (head & c & rest & -> & Hhead & Hc & _).
      exists [c], head, rest. split; [done|]. split; [done|].
      exists c, []. split; [done|]. split; [done|constructor].
    + intros (name & head & rest & -> & Hhead & (c & cs & -> & Hc & Hcs)).
      destruct (lensOfLine documentUri i (head ++ (c :: cs) ++ rest))
        as [lens|] eqn:Hl.
      * exists lens. by apply Hat.
      * exfalso. pose proof (lensOfLine_none _ _ _ Hl head c (cs ++ rest) eq_refl Hhead).
        congruence.
  - intros lens head name rest Hin Hlens Hline Hhead Hname Hrest.
    assert (Hl : lensOfLine documentUri i lineText = Some lens) by (by apply Hat).
    apply lensOfLine_some in Hl as (head' & c' & rest' & Hline' & Hhead' & Hc' & ->).
    destruct (identifier_split name rest Hname Hrest) as (c & cs & -> & Hc & Htw).
    assert (Hsame : head = head').
    { apply (class_head_unique head head' ((c :: cs) ++ rest) (c' :: rest'));
        [done|done| | |congruence].
      - by apply ident_start_not_space.
      - by apply ident_start_not_space. }
    subst head'. rewrite Hline in Hline'. apply app_inv_head in Hline'.
    injection Hline' as <- <-. rewrite Htw. done.
  - intros lens1 lens2 Hin1 Hat1 Hin2 Hat2.
    assert (H1 : lensOfLine documentUri i lineText = Some lens1) by (by apply Hat).
    assert (H2 : lensOfLine documentUri i lineText = Some lens2) by (by apply Hat).
    congruence.
  - intros head d rest Hline Hhead Hd lens Hin Hlens.
    assert (Hl : lensOfLine documentUri i lineText = Some lens) by (by apply Hat).
    apply lensOfLine_some in Hl as (head' & c' & rest' & Hline' & Hhead' & Hc' & _).
    assert (Hsame : head = head').
    { apply (class_head_unique head head' (d :: rest) (c' :: rest'));
        [done|done| | |congruence].
      - by apply digit_not_space.
      - by apply ident_start_not_space. }
    subst head'. rewrite Hline in Hline'. apply app_inv_head in Hline'.
    injection Hline' as <- _.
    apply digit_not_ident_start in Hd. congruence.
  - intros Hno lens Hin Hlens.
    assert (Hl : lensOfLine documentUri i lineText = Some lens) by (by apply Hat).
    apply lensOfLine_some in Hl as (head & c & rest & -> & Hhead & _).
    rewrite class_head_includes_class in Hno by done. discriminate.
Qed.

Lemma class_lens_exact_witness :
  (exists lens,
     lens ∈ provideCodeLenses (js "file:///proj/lib/foo.dart")
              (js "abstract class Foo {" ++ [LF] ++ js "}") /\
     lens_at 0 lens) <->
  exists name, class_declaration_line (js "abstract class Foo {") name.
Proof.
  apply (class_lens_exact (js "file:///proj/lib/foo.dart")
           (js "abstract class Foo {" ++ [LF] ++ js "}")
           (js "abstract class Foo {") 0).
  vm_compute. reflexivity.
Defined.

Example class_lenses_run :
  provideCodeLenses (js "u")
    (js "import 'a.dart';" ++ [CR; LF] ++
     js "  sealed  base class _Shape2<T> {}" ++ [LF] ++
     js "class 9Lives {}" ++ [LF] ++
     js "final classy Foo" ++ [LF] ++
     js "// class Late" ++ [LF] ++
     js "mixin class M")
  = [lensFor (js "u") 1 (js "  sealed  base class _Shape2") (js "_Shape2");
     lensFor (js "u") 5 (js "mixin class M") (js "M")].
Proof. vm_compute. reflexivity. Qed.

(** ** The name pattern on a manifest *)

Lemma exec_from_some (r : regex) (rest before : jsstring) (res : match_result) :
  exec_from r before rest = Some res ->
  exists pre post,
    rest = pre ++ post /\
    m r (MState (rev pre ++ before) post []) Some = Some (final res) /\
    forall pre' post',
      rest = pre' ++ post' -> (length pre' < length pre)%nat ->
      m r (MState (rev pre' ++ before) post' []) Some = None.
Proof.
  revert before. induction rest as [|c rest IH]; intros before; cbn [exec_from].
  - destruct (m r (MState before [] []) Some) as [y|] eqn:Hm; [|discriminate].
    intros [= <-]. exists [], []. split; [done|]. split; [done|].
    intros pre' post' _ Hlen. simpl in Hlen. lia.
  - destruct (m r (MState before (c :: rest) []) Some) as [y|] eqn:Hm.
    + intros [= <-]. exists [], (c :: rest). split; [done|]. split; [done|].
      intros pre' post' _ Hlen. simpl in Hlen. lia.
    + intros Hex. apply IH in Hex as (pre & post & -> & Hy & Hleft).
      exists (c :: pre), post. split; [done|]. split.
      * cbn [rev]. by rewrite <- app_assoc.
      * intros pre' post' Heq Hlen. destruct pre' as [|c' pre'].
        -- cbn [app rev] in *. by subst post'.
        -- cbn [app] in Heq. injection Heq as <- Heq.
           cbn [rev]. rewrite <- app_assoc. apply Hleft; [done|].
           simpl in Hlen. lia.
Qed.

Lemma exec_from_none (r : regex) (rest before : jsstring) :
  exec_from r before rest = None ->
  forall pre post,
    rest = pre ++ post -> m r (MState (rev pre ++ before) post []) Some = None.
Proof.
  revert before. induction rest as [|c rest IH]; intros before; cbn [exec_from].
  - destruct (m r (MState before [] []) Some) as [y|] eqn:Hm; [discriminate|].
    intros _ pre post Heq. symmetry in Heq.
    apply app_eq_nil in Heq as [-> ->]. done.
  - destruct (m r (MState before (c :: rest) []) Some) as [y|] eqn:Hm;
      [discriminate|].
    intros Hex pre post Heq. destruct pre as [|c' pre].
    + cbn [app rev] in *. by subst post.
    + cbn [app] in Heq. injection Heq as <- Heq.
      cbn [rev]. rewrite <- app_assoc. by apply (IH (c :: before) Hex).
Qed.

Lemma at_line_start_rev (pre rest : jsstring) caps :
  at_line_start true (MState (rev pre) rest caps) = true <-> line_start pre.
Proof.
  unfold at_line_start, line_start. cbn [consumed andb].
  destruct pre as [|c pre _] using rev_ind; [done|].
  rewrite rev_app_distr, last_snoc. cbn [rev app]. done.
Qed.

Lemma at_line_end_spec (before post : jsstring) caps :
  at_line_end true (MState before post caps) = true <-> line_end post.
Proof. unfold at_line_end, line_end. cbn [remaining andb]. by destruct post. Qed.

Lemma Lang_identifier (p q : N -> bool) (w : jsstring) :
  Lang (Seq (Chr p) (Star (Chr q))) w <->
  exists c cs, w = c :: cs /\ p c = true /\ all_in q cs.
Proof.
  change (Lang (Seq (Chr p) (Star (Chr q))) w)
    with (exists w1 w2, w = w1 ++ w2 /\ Lang (Chr p) w1 /\ Lang (Star (Chr q)) w2).
  split.
  - intros (w1 & w2 & -> & (c & -> & Hc) & Hw2). apply Lang_star_chr in Hw2.
    by exists c, w2.
  - intros (c & cs & -> & Hc & Hcs). exists [c], cs.
    split; [done|]. split; [by exists c|by apply Lang_star_chr].
Qed.

(** What the name pattern matches at a position of the manifest. *)
Lemma pubspec_matches (pre rest : jsstring) (y : mstate) :
  Matches PUBSPEC_NAME_REGEX (MState (rev pre) rest []) y <->
  exists w1 id w2 post,
    rest = js "name:" ++ w1 ++ id ++ w2 ++ post /\
    line_start pre /\ all_in is_space w1 /\ package_identifier id /\
    all_in is_space w2 /\ line_end post /\
    y = MState (rev (js "name:" ++ w1 ++ id ++ w2) ++ rev pre) post [(1%nat, id)].
Proof.
  unfold PUBSPEC_NAME_REGEX. cbn [Matches].
  setoid_rewrite (Matches_plain (lit (js "name:")) (plain_lit _)).
  setoid_rewrite (Matches_plain (Star (Chr is_space)) eq_refl).
  setoid_rewrite (Matches_plain (Seq (Chr lower_start) (Star (Chr lower_char)))
                    eq_refl).
  setoid_rewrite Lang_lit. setoid_rewrite Lang_star_chr.
  setoid_rewrite Lang_identifier.
  split.
  - intros (z1 & [Hbol ->] & z2 & (wn & -> & Hn) & z3 & (w1 & Hw1 & H1) &
            z4 & (z & (id & Hid & Hz) & ->) & z5 & (w2 & Hw2 & H2) & Heol & ->).
    apply at_line_start_rev in Hbol.
    pose proof (reads_app _ _ _ _ _ Hn H1) as H13.
    pose proof (reads_app _ _ _ _ _ H13 Hz) as H1z.
    rewrite (matched_between_reads id z3 z Hz) in *.
    destruct H1z as (Hr & Hc & Hk). destruct H2 as (Hr2 & Hc2 & Hk2).
    cbn [remaining consumed captures set_capture] in *.
    exists w1, id, w2, (remaining z5).
    split; [by rewrite Hr, Hr2, <- !app_assoc|].
    split; [done|]. split; [done|]. split; [done|]. split; [done|].
    split; [apply (at_line_end_spec (consumed z5) (remaining z5) (captures z5));
            by destruct z5|].
    apply mstate_eq; cbn [remaining consumed captures].
    + rewrite Hc2, Hc, !rev_app_distr, <- !app_assoc. done.
    + done.
    + by rewrite Hk2, Hk.
  - intros (w1 & id & w2 & post & -> & Hbol & Hw1 & Hid & Hw2 & Heol & ->).
    exists (MState (rev pre) (js "name:" ++ w1 ++ id ++ w2 ++ post) []).
    split; [split; [by apply at_line_start_rev|done]|].
    exists (MState (rev (js "name:") ++ rev pre) (w1 ++ id ++ w2 ++ post) []).
    split; [exists (js "name:"); by split|].
    exists (MState (rev w1 ++ rev (js "name:") ++ rev pre) (id ++ w2 ++ post) []).
    split; [exists w1; by split|].
    exists (MState (rev id ++ rev w1 ++ rev (js "name:") ++ rev pre)
              (w2 ++ post) [(1%nat, id)]).
    split.
    { exists (MState (rev id ++ rev w1 ++ rev (js "name:") ++ rev pre)
                (w2 ++ post) []).
      split; [exists id; by split|].
      unfold set_capture, matched_between. cbn [remaining consumed captures].
      do 2 f_equal. rewrite !length_app.
      replace (length id + (length w2 + length post) - (length w2 + length post))%nat
        with (length id) by lia.
      by rewrite take_app_length. }
    exists (MState (rev w2 ++ rev id ++ rev w1 ++ rev (js "name:") ++ rev pre)
              post [(1%nat, id)]).
    split; [exists w2; by split|].
    split; [by apply at_line_end_spec|].
    by rewrite !rev_app_distr, <- !app_assoc.
Qed.

Lemma tail_not_lower (w2 post : jsstring) :
  all_in is_space w2 -> line_end post ->
  match w2 ++ post with [] => True | c :: _ => lower_char c = false end.
Proof.
  intros Hw2 Hpost. destruct Hw2 as [|c w2 Hc _]; cbn [app].
  - destruct post as [|c post]; [done|].
    by apply space_not_lower_char, line_terminator_is_space.
  - by apply space_not_lower_char.
Qed.

Lemma package_identifier_starts_without_space (id rest : jsstring) :
  package_identifier id -> starts_without_space (id ++ rest).
Proof.
  intros (c & cs & -> & Hc & _). by apply lower_start_not_space.
Qed.

(** At a position of the manifest the pattern can only find one name. *)
Lemma name_entry_unique (content pre id id' : jsstring) :
  name_entry content pre id -> name_entry content pre id' -> id = id'.
Proof.
  intros (w1 & w2 & post & -> & _ & Hw1 & Hid & Hw2 & Hpost)
         (w1' & w2' & post' & Heq & _ & Hw1' & Hid' & Hw2' & Hpost').
  do 2 apply app_inv_head in Heq.
  apply space_run_unique in Heq as [_ Heq]; try done;
    try (by apply package_identifier_starts_without_space).
  pose proof (tail_not_lower w2 post Hw2 Hpost) as Ht.
  pose proof (tail_not_lower w2' post' Hw2' Hpost') as Ht'.
  destruct Hid as (c & cs & -> & Hc & Hcs).
  destruct Hid' as (c' & cs' & -> & Hc' & Hcs').
  cbn [app] in Heq. injection Heq as <- Heq. f_equal.
  rewrite <- (take_while_app lower_char cs (w2 ++ post)) by done.
  rewrite <- (take_while_app lower_char cs' (w2' ++ post')) by done.
  by rewrite Heq.
Qed.

Lemma name_entry_matches (content pre id : jsstring) :
  name_entry content pre id ->
  exists post y,
    content = pre ++ post /\
    Matches PUBSPEC_NAME_REGEX (MState (rev pre) post []) y.
Proof.
  intros (w1 & w2 & post & -> & Hs & Hw1 & Hid & Hw2 & He).
  eexists _, _. split; [reflexivity|].
  apply pubspec_matches. by exists w1, id, w2, post.
Qed.

(** [matchPackageName] returns the name of the first entry of the
    manifest, and nothing when there is no entry. *)
Lemma matchPackageName_first (content : jsstring) :
  match matchPackageName content with
  | Some id =>
      exists pre,
        name_entry content pre id /\
        forall pre' id', name_entry content pre' id' ->
                         (length pre <= length pre')%nat
  | None => forall pre id, ~ name_entry content pre id
  end.
Proof.
  unfold matchPackageName, exec.
  destruct (exec_from PUBSPEC_NAME_REGEX [] content) as [res|] eqn:Hex.
  - apply exec_from_some in Hex as (pre & post & -> & Hm & Hleft).
    rewrite app_nil_r in Hm.
    apply m_sound in Hm as (y & Hy & [= Hres]).
    apply pubspec_matches in Hy
      as (w1 & id & w2 & post' & -> & Hs & Hw1 & Hid & Hw2 & He & ->).
    unfold group. rewrite <- Hres. cbn [captures lookup_capture Nat.eqb].
    exists pre. split; [by exists w1, w2, post'|].
    intros pre' id' Hentry.
    destruct (decide (length pre' < length pre)%nat) as [Hlt|]; [|lia].
    exfalso. apply name_entry_matches in Hentry as (post2 & y2 & Heq & Hy2).
    specialize (Hleft pre' post2 Heq Hlt). rewrite app_nil_r in Hleft.
    pose proof (m_complete _ _ _ Some Hy2 (ltac:(by eexists))) as [? Hsome].
    congruence.
  - intros pre id Hentry.
    apply name_entry_matches in Hentry as (post & y & Heq & Hy).
    pose proof (exec_from_none _ _ _ Hex pre post Heq) as Hnone.
    rewrite app_nil_r in Hnone.
    pose proof (m_complete _ _ _ Some Hy (ltac:(by eexists))) as [? Hsome].
    congruence.
Qed.

Lemma name_entry_prefix (content pre pre' id id' : jsstring) :
  name_entry content pre id -> name_entry content pre' id' ->
  length pre = length pre' -> pre = pre'.
Proof.
  intros (? & ? & ? & -> & _) (? & ? & ? & Heq & _) Hlen.
  by apply app_inj_1 in Heq as [? _].
Qed.

Lemma matchPackageName_some (content id : jsstring) :
  matchPackageName content = Some id <->
  exists pre,
    name_entry content pre id /\
    forall pre' id', name_entry content pre' id' ->
                     (length pre <= length pre')%nat.
Proof.
  pose proof (matchPackageName_first content) as Hfirst. split.
  - intros Hm. by rewrite Hm in Hfirst.
  - intros (pre & Hentry & Hmin).
    destruct (matchPackageName content) as [id0|].
    + destruct Hfirst as (pre0 & Hentry0 & Hmin0).
      assert (pre = pre0) as <-.
      { apply (name_entry_prefix content pre pre0 id id0); [done..|].
        specialize (Hmin _ _ Hentry0). specialize (Hmin0 _ _ Hentry). lia. }
      f_equal. by apply (name_entry_unique content pre).
    + by destruct (Hfirst pre id).
Qed.

Lemma matchPackageName_none (content : jsstring) :
  matchPackageName content = None <-> forall pre id, ~ name_entry content pre id.
Proof.
  pose proof (matchPackageName_first content) as Hfirst. split.
  - intros Hm. by rewrite Hm in Hfirst.
  - intros Hno. destruct (matchPackageName content) as [id0|]; [|done].
    destruct Hfirst as (pre0 & Hentry0 & _). by destruct (Hno pre0 id0).
Qed.

(** A resolved package name is not empty, so [if (packageName)] takes it. *)
Lemma matchPackageName_truthy (content id : jsstring) :
  matchPackageName content = Some id -> truthy (Some id) = true.
Proof.
  intros Hm. apply matchPackageName_some in Hm
    as (pre & (w1 & w2 & post & _ & _ & _ & (c & cs & -> & _) & _) & _).
  reflexivity.
Qed.

(** C8, as stated, does not hold: a manifest with [name:] on one line and
    the identifier on the next has no line of the form [name: <identifier>],
    and a name is resolved from it all the same. *)
Lemma name_on_next_line_is_resolved :
  ~ ((exists id, matchPackageName manifest_name_on_next_line = Some id) <->
     (exists lineText id,
        lineText ∈ lines_of manifest_name_on_next_line /\ name_line lineText id)).
Proof.
  intros [Hto _].
  destruct Hto as (l & id & Hin & (w1 & w2 & Heq & _ & (c & cs & -> & _) & _)).
  { exists (js "my_app"). vm_compute. reflexivity. }
  assert (Hlines : lines_of manifest_name_on_next_line =
                   [js "name:"; js "  my_app"; js "version: 1.0.0"; js ""])
    by (vm_compute; reflexivity).
  rewrite Hlines in Hin.
  rewrite !elem_of_cons, elem_of_nil in Hin.
  destruct Hin as [->|[->|[->|[->|[]]]]]; vm_compute in Heq; try discriminate.
  injection Heq as Heq. destruct w1; discriminate.
Qed.

(** ** Node's POSIX paths on well-formed segments *)

Lemma seg_ok_not_nil s : seg_ok s -> s <> [].
Proof. by intros [? _]. Qed.

Lemma seg_ok_no_slash s : seg_ok s -> SLASH ∉ s.
Proof. by intros (_ & ? & _). Qed.

Lemma Forall_seg_ok_no_slash segs :
  Forall seg_ok segs -> Forall (fun s => SLASH ∉ s) segs.
Proof. intros Hall. eapply Forall_impl; [done|apply seg_ok_no_slash]. Qed.

Lemma normalize_step_ok allow kept s :
  seg_ok s -> posix.normalize_step allow kept s = s :: kept.
Proof.
  intros (Hne & _ & Hdot & Hdots). unfold posix.normalize_step.
  rewrite !bool_decide_eq_false_2 by done. reflexivity.
Qed.

Lemma normalize_step_nil allow kept :
  posix.normalize_step allow kept [] = kept.
Proof. reflexivity. Qed.

Lemma normalize_step_dot allow kept :
  posix.normalize_step allow kept (js ".") = kept.
Proof. reflexivity. Qed.

Lemma fold_normalize_ok allow segs kept :
  Forall seg_ok segs ->
  fold_left (posix.normalize_step allow) segs kept = rev segs ++ kept.
Proof.
  revert kept. induction segs as [|s segs IH]; intros kept Hall; [reflexivity|].
  apply Forall_cons in Hall as [Hs Hall]. simpl.
  rewrite normalize_step_ok by done. rewrite IH by done.
  by rewrite <- app_assoc.
Qed.

Lemma split_on_app_sep c (a b : jsstring) :
  split_on c (a ++ [c] ++ b) = split_on c a ++ split_on c b.
Proof.
  induction a as [|x a IH]; simpl.
  - by rewrite N.eqb_refl.
  - destruct (N.eqb_spec x c) as [->|Hx].
    + simpl in IH. by rewrite IH.
    + simpl in IH. rewrite IH.
      pose proof (split_on_nonempty c a).
      by destruct (split_on c a).
Qed.

Lemma split_on_rel_path segs :
  segs <> [] -> Forall seg_ok segs -> split_on SLASH (rel_path segs) = segs.
Proof.
  intros Hne Hall. apply (split_on_join SLASH); [done|].
  by apply Forall_seg_ok_no_slash.
Qed.

(** Folding the automaton over the segments of a relative path. *)
Lemma fold_normalize_rel allow segs kept :
  Forall seg_ok segs ->
  fold_left (posix.normalize_step allow) (split_on SLASH (rel_path segs)) kept
  = rev segs ++ kept.
Proof.
  intros Hall. destruct segs as [|s segs]; [reflexivity|].
  rewrite split_on_rel_path by done. by apply fold_normalize_ok.
Qed.

Lemma abs_path_eq segs : abs_path segs = [SLASH] ++ rel_path segs.
Proof. reflexivity. Qed.

Lemma fold_normalize_abs allow segs kept :
  Forall seg_ok segs ->
  fold_left (posix.normalize_step allow) (split_on SLASH (abs_path segs)) kept
  = rev segs ++ kept.
Proof.
  intros Hall. rewrite abs_path_eq.
  rewrite <- (app_nil_l ([SLASH] ++ _)), split_on_app_sep.
  simpl. by apply fold_normalize_rel.
Qed.

Lemma rel_path_snoc segs s :
  segs <> [] -> rel_path (segs ++ [s]) = rel_path segs ++ [SLASH] ++ s.
Proof. apply join_with_snoc. Qed.

Lemma rel_path_cons s segs :
  segs <> [] -> rel_path (s :: segs) = s ++ [SLASH] ++ rel_path segs.
Proof. apply join_with_cons. Qed.

Lemma rel_path_nil_iff segs : Forall seg_ok segs -> rel_path segs = [] -> segs = [].
Proof.
  intros Hall. destruct segs as [|s segs]; [done|].
  apply Forall_cons in Hall as [[Hs _] _].
  destruct segs; simpl; [done|]. unfold rel_path. simpl.
  destruct s; [done|discriminate].
Qed.

Lemma last_rel_path_not_slash segs s :
  seg_ok s -> last (rel_path (segs ++ [s])) <> Some SLASH.
Proof.
  intros (Hne & Hslash & _).
  assert (exists pre, rel_path (segs ++ [s]) = pre ++ s) as [pre ->].
  { destruct segs as [|a segs]; [by exists []|].
    rewrite rel_path_snoc by done. eexists. by rewrite app_assoc. }
  destruct (exists_last Hne) as (s' & x & ->).
  rewrite app_assoc, last_snoc. intros [= ->].
  apply Hslash. apply elem_of_app. right. by apply list_elem_of_singleton.
Qed.

Lemma posix_join2 (a b : jsstring) :
  a <> [] -> b <> [] -> posix.join [a; b] = posix.normalize (a ++ [SLASH] ++ b).
Proof.
  intros Ha Hb. unfold posix.join.
  rewrite filter_cons_True by done. rewrite filter_cons_True by done.
  rewrite filter_nil. reflexivity.
Qed.

Lemma posix_join3 (a b c : jsstring) :
  a <> [] -> b <> [] -> c <> [] ->
  posix.join [a; b; c] = posix.normalize (a ++ [SLASH] ++ b ++ [SLASH] ++ c).
Proof.
  intros Ha Hb Hc. unfold posix.join.
  rewrite !filter_cons_True by done. rewrite filter_nil. reflexivity.
Qed.

(** [normalize] on an absolute path without a final separator: the kept
    segments, after a slash. *)
Lemma posix_normalize_abs (p : jsstring) (kept : list jsstring) :
  posix.isAbsolute p = true ->
  (forall c, last p = Some c -> c <> SLASH) ->
  fold_left (posix.normalize_step false) (split_on SLASH p) [] = rev kept ->
  kept <> [] -> Forall seg_ok kept ->
  posix.normalize p = abs_path kept.
Proof.
  intros Habs Hlast Hfold Hne Hok. unfold posix.normalize.
  destruct p as [|c0 p']; [discriminate|].
  rewrite Habs. unfold posix.normalizeString. simpl negb.
  rewrite Hfold, rev_involutive.
  fold (rel_path kept).
  destruct (rel_path kept) as [|q0 q] eqn:Hq.
  { apply rel_path_nil_iff in Hq; done. }
  assert (Htrail : match last (c0 :: p') with
                   | Some c => posix.is_slash c | None => false end = false).
  { destruct (last (c0 :: p')) as [c|] eqn:Hl; [|done].
    apply N.eqb_neq. by apply Hlast. }
  rewrite Htrail, app_nil_r, <- Hq. reflexivity.
Qed.

Lemma last_app_seg (pre s p : jsstring) c :
  seg_ok s -> p = pre ++ s -> last p = Some c -> c <> SLASH.
Proof.
  intros (Hne & Hslash & _) ->.
  destruct (exists_last Hne) as (s' & x & ->).
  rewrite app_assoc, last_snoc. intros [= ->] ->.
  apply Hslash, elem_of_app. right. by apply list_elem_of_singleton.
Qed.

Lemma seg_ok_test : seg_ok (js "test").
Proof. repeat split; try discriminate. decide_by_computation. Qed.

Lemma seg_ok_lib : seg_ok (js "lib").
Proof. repeat split; try discriminate. decide_by_computation. Qed.

(** [path.join(dir, name)] below an absolute directory. *)
Lemma posix_join_abs_seg (R : list jsstring) (s : jsstring) :
  Forall seg_ok R -> seg_ok s ->
  posix.join [abs_path R; s] = abs_path (R ++ [s]).
Proof.
  intros HR Hs. rewrite posix_join2 by (done || by apply seg_ok_not_nil).
  apply posix_normalize_abs.
  - reflexivity.
  - intros c. apply (last_app_seg (abs_path R ++ [SLASH]) s); [done|].
    by rewrite <- app_assoc.
  - rewrite split_on_app_sep, fold_left_app, fold_normalize_abs by done.
    rewrite split_on_without by (by apply seg_ok_no_slash). simpl.
    rewrite normalize_step_ok by done. rewrite app_nil_r.
    by rewrite rev_app_distr.
  - by destruct R.
  - apply Forall_app. split; [done|]. by constructor.
Qed.

(** [path.join(root, 'test', dir)] for a directory given by its segments. *)
Lemma posix_join_abs_test_rel (R D : list jsstring) :
  Forall seg_ok R -> Forall seg_ok D -> D <> [] ->
  posix.join [abs_path R; js "test"; rel_path D] = abs_path (R ++ js "test" :: D).
Proof.
  intros HR HD Hne.
  assert (HDne : rel_path D <> []).
  { intros Hnil. by apply rel_path_nil_iff in Hnil. }
  rewrite posix_join3 by done.
  apply posix_normalize_abs.
  - reflexivity.
  - intros c. destruct (exists_last Hne) as (D' & s & ->).
    apply Forall_app in HD as [_ Hs]. apply Forall_cons in Hs as [Hs _].
    destruct D' as [|d D'].
    + apply (last_app_seg (abs_path R ++ [SLASH] ++ js "test" ++ [SLASH]) s);
        [done|]. by rewrite <- !app_assoc.
    + rewrite rel_path_snoc by done.
      apply (last_app_seg (abs_path R ++ [SLASH] ++ js "test" ++ [SLASH] ++
                           rel_path (d :: D') ++ [SLASH]) s); [done|].
      by rewrite <- !app_assoc.
  - rewrite !split_on_app_sep, !fold_left_app, fold_normalize_abs by done.
    rewrite (split_on_without SLASH (js "test")) by decide_by_computation.
    simpl fold_left at 2. rewrite normalize_step_ok by apply seg_ok_test.
    rewrite fold_normalize_rel by done.
    rewrite app_nil_r, rev_app_distr. simpl. by rewrite <- app_assoc.
  - by destruct R.
  - apply Forall_app. split; [done|]. constructor; [apply seg_ok_test|done].
Qed.

(** [path.join(root, 'test', '.')], for a source right under [lib]. *)
Lemma posix_join_abs_test_dot (R : list jsstring) :
  Forall seg_ok R ->
  posix.join [abs_path R; js "test"; js "."] = abs_path (R ++ [js "test"]).
Proof.
  intros HR. rewrite posix_join3 by done.
  apply posix_normalize_abs.
  - reflexivity.
  - intros c.
    replace (abs_path R ++ [SLASH] ++ js "test" ++ [SLASH] ++ js ".")
      with ((abs_path R ++ [SLASH] ++ js "test" ++ [SLASH]) ++ [DOT])
      by (by rewrite <- !app_assoc).
    rewrite last_snoc. by intros [= <-].
  - rewrite !split_on_app_sep, !fold_left_app, fold_normalize_abs by done.
    rewrite (split_on_without SLASH (js "test")) by decide_by_computation.
    rewrite (split_on_without SLASH (js ".")) by decide_by_computation.
    simpl. rewrite (normalize_step_ok _ _ (js "test")) by apply seg_ok_test.
    rewrite normalize_step_dot.
    by rewrite app_nil_r, rev_app_distr.
  - by destruct R.
  - apply Forall_app. split; [done|]. constructor; [apply seg_ok_test|done].
Qed.

Lemma not_elem_of_rev (c : N) (l : jsstring) : c ∉ l -> c ∉ rev l.
Proof. intros Hc Hin. apply Hc. apply list_elem_of_In, in_rev, list_elem_of_In, Hin. Qed.

Lemma dirname_loop_segment (g r : jsstring) (i : Z) (matchedSlash : bool) :
  SLASH ∉ g ->
  posix.dirname_loop (g ++ r) i matchedSlash =
  posix.dirname_loop r (i - Z.of_nat (length g))%Z
    (match g with [] => matchedSlash | _ => false end).
Proof.
  revert i matchedSlash. induction g as [|c g IH]; intros i ms Hg.
  - simpl. f_equal. lia.
  - apply not_elem_of_cons in Hg as [Hc Hg]. simpl app.
    cbn [posix.dirname_loop]. unfold posix.is_slash.
    rewrite (proj2 (N.eqb_neq c SLASH)) by done.
    rewrite IH by done.
    replace (i - 1 - Z.of_nat (length g))%Z
      with (i - Z.of_nat (length (c :: g)))%Z by (simpl length; lia).
    by destruct g.
Qed.

Lemma dirname_loop_only_segment (g : jsstring) (i : Z) (matchedSlash : bool) :
  SLASH ∉ g -> posix.dirname_loop g i matchedSlash = (-1)%Z.
Proof.
  intros Hg. rewrite <- (app_nil_r g), dirname_loop_segment by done.
  reflexivity.
Qed.

(** [dirname] of a single segment. *)
Lemma posix_dirname_segment (f : jsstring) :
  seg_ok f -> posix.dirname f = js ".".
Proof.
  intros (Hne & Hslash & _). destruct f as [|c0 rest]; [done|].
  apply not_elem_of_cons in Hslash as [Hc0 Hrest].
  unfold posix.dirname.
  rewrite dirname_loop_only_segment by (by apply not_elem_of_rev).
  simpl. unfold posix.is_slash. by rewrite (proj2 (N.eqb_neq c0 SLASH)).
Qed.

(** [dirname] of a segment right under the root. *)
Lemma posix_dirname_root_segment (f : jsstring) :
  seg_ok f -> posix.dirname (js "/" ++ f) = js "/".
Proof.
  intros (Hne & Hslash & _). change (js "/" ++ f) with (SLASH :: f).
  unfold posix.dirname.
  rewrite dirname_loop_only_segment by (by apply not_elem_of_rev).
  reflexivity.
Qed.

(** [dirname] of a segment under a directory: the directory. *)
Lemma posix_dirname_under (x f : jsstring) :
  x <> [] -> (forall c, last x = Some c -> c <> SLASH) -> seg_ok f ->
  posix.dirname (x ++ [SLASH] ++ f) = x.
Proof.
  intros Hx Hlast (Hne & Hslash & _).
  destruct x as [|c0 x']; [done|]. clear Hx.
  change ((c0 :: x') ++ [SLASH] ++ f) with (c0 :: (x' ++ [SLASH] ++ f)).
  unfold posix.dirname.
  rewrite !rev_app_distr, <- app_assoc.
  rewrite dirname_loop_segment by (by apply not_elem_of_rev).
  change (rev [SLASH] ++ rev x') with (SLASH :: rev x').
  destruct (rev f) as [|r0 rf] eqn:Hrev.
  { apply (f_equal (@rev N)) in Hrev. rewrite rev_involutive in Hrev. done. }
  cbn [posix.dirname_loop]. change (posix.is_slash SLASH) with true.
  cbn [negb]. rewrite <- Hrev, length_rev.
  set (e := (Z.of_nat (length (c0 :: x' ++ [SLASH] ++ f)) - 1
             - Z.of_nat (length f))%Z).
  assert (He : e = Z.of_nat (length (c0 :: x'))).
  { unfold e. simpl length. rewrite !length_app. simpl length. lia. }
  assert (Hnot1 : posix.is_slash c0 && (e =? 1)%Z = false).
  { destruct (e =? 1)%Z eqn:H1; [|by rewrite andb_false_r].
    apply Z.eqb_eq in H1. rewrite He in H1. simpl length in H1.
    destruct x'; [|simpl in H1; lia].
    rewrite andb_true_r. apply N.eqb_neq. by apply Hlast. }
  replace (e =? -1)%Z with false by (symmetry; apply Z.eqb_neq; simpl in He; lia).
  rewrite Hnot1, He. unfold posix.slice. simpl drop.
  rewrite Z2Nat.inj_0, Nat.sub_0_r, Nat2Z.id.
  apply (take_app_length (c0 :: x') (SLASH :: f)).
Qed.

Lemma last_abs_path_not_slash (R : list jsstring) c :
  R <> [] -> Forall seg_ok R -> last (abs_path R) = Some c -> c <> SLASH.
Proof.
  intros Hne HR. destruct (exists_last Hne) as (R' & s & ->).
  apply Forall_app in HR as [_ Hs]. apply Forall_cons in Hs as [Hs _].
  destruct R' as [|r R'].
  - apply (last_app_seg (js "/") s); done.
  - apply (last_app_seg (js "/" ++ rel_path (r :: R') ++ [SLASH]) s); [done|].
    unfold abs_path. fold (rel_path ((r :: R') ++ [s])).
    rewrite rel_path_snoc by done. by rewrite <- !app_assoc.
Qed.

Lemma last_rel_path_nonempty_not_slash (D : list jsstring) c :
  D <> [] -> Forall seg_ok D -> last (rel_path D) = Some c -> c <> SLASH.
Proof.
  intros Hne HD Hl. destruct (exists_last Hne) as (D' & s & ->).
  apply Forall_app in HD as [_ Hs]. apply Forall_cons in Hs as [Hs _].
  intros ->. by apply (last_rel_path_not_slash D' s).
Qed.

(** [dirname] of an absolute path: the path without its last segment. *)
Lemma posix_dirname_abs (R : list jsstring) (f : jsstring) :
  Forall seg_ok R -> seg_ok f ->
  posix.dirname (abs_path (R ++ [f])) = abs_path R.
Proof.
  intros HR Hf. destruct R as [|r R].
  - by apply posix_dirname_root_segment.
  - unfold abs_path. fold (rel_path ((r :: R) ++ [f])).
    rewrite rel_path_snoc by done. rewrite app_assoc.
    apply posix_dirname_under; [done| |done].
    intros c. by apply last_abs_path_not_slash.
Qed.

(** [dirname] of a relative path: [.] for a single segment, else the path
    without its last segment. *)
Lemma posix_dirname_rel (D : list jsstring) (f : jsstring) :
  Forall seg_ok D -> seg_ok f ->
  posix.dirname (rel_path (D ++ [f])) =
  match D with [] => js "." | _ => rel_path D end.
Proof.
  intros HD Hf. destruct D as [|d D].
  - by apply posix_dirname_segment.
  - rewrite rel_path_snoc by done.
    apply posix_dirname_under; [|intros c; by apply last_rel_path_nonempty_not_slash|done].
    intros Hnil. by apply rel_path_nil_iff in Hnil.
Qed.

Lemma split_on_slash_mid (a b : jsstring) :
  split_on SLASH (a ++ js "/" ++ b) = split_on SLASH a ++ split_on SLASH b.
Proof. apply (split_on_app_sep SLASH). Qed.

Lemma split_on_slash_end (a : jsstring) :
  split_on SLASH (a ++ js "/") = split_on SLASH a ++ [[]].
Proof. rewrite <- (app_nil_r (js "/")). apply (split_on_app_sep SLASH). Qed.

Lemma isAbsolute_rel_path (a : jsstring) (A : list jsstring) :
  seg_ok a -> posix.isAbsolute (rel_path (a :: A)) = false.
Proof.
  intros (Hne & Hslash & _). destruct a as [|c a]; [done|].
  apply not_elem_of_cons in Hslash as [Hc _].
  assert (exists tl, rel_path ((c :: a) :: A) = c :: tl) as [tl ->].
  { destruct A; [by eexists|]. rewrite rel_path_cons by done. by eexists. }
  simpl. by apply N.eqb_neq.
Qed.

Lemma posix_resolve_absolute cwd (p : jsstring) :
  posix.isAbsolute p = true ->
  posix.resolve cwd p = js "/" ++ posix.normalizeString (p ++ js "/") false.
Proof.
  intros Habs. destruct p as [|p0 p]; [discriminate|].
  unfold posix.resolve. rewrite Habs. reflexivity.
Qed.

Lemma posix_resolve_relative cwd (p : jsstring) :
  p <> [] -> posix.isAbsolute p = false -> posix.isAbsolute cwd = true ->
  posix.resolve cwd p =
  js "/" ++ posix.normalizeString (cwd ++ js "/" ++ p ++ js "/") false.
Proof.
  intros Hne Hrel Habs. destruct p as [|p0 p]; [done|].
  destruct cwd as [|c0 cwd]; [discriminate|].
  unfold posix.resolve. rewrite Hrel, Habs. reflexivity.
Qed.

(** [resolve] leaves an absolute path of well-formed segments as it is. *)
Lemma posix_resolve_abs cwd (S : list jsstring) :
  Forall seg_ok S -> posix.resolve cwd (abs_path S) = abs_path S.
Proof.
  intros HS. rewrite posix_resolve_absolute by reflexivity.
  unfold posix.normalizeString.
  rewrite split_on_slash_end, fold_left_app, fold_normalize_abs by done.
  cbn [fold_left]. rewrite normalize_step_nil.
  by rewrite app_nil_r, rev_involutive.
Qed.

(** [resolve] puts a relative path under the working directory. *)
Lemma posix_resolve_rel (C A : list jsstring) :
  Forall seg_ok C -> Forall seg_ok A -> A <> [] ->
  posix.resolve (abs_path C) (rel_path A) = abs_path (C ++ A).
Proof.
  intros HC HA Hne. destruct A as [|a A]; [done|].
  pose proof HA as HA'. apply Forall_cons in HA' as [Ha _].
  rewrite posix_resolve_relative.
  - unfold posix.normalizeString.
    rewrite split_on_slash_mid, split_on_slash_end, !fold_left_app.
    rewrite fold_normalize_abs by done.
    rewrite fold_normalize_rel by done.
    cbn [fold_left]. rewrite normalize_step_nil.
    rewrite app_nil_r, <- rev_app_distr, rev_involutive. reflexivity.
  - intros Hnil. by apply rel_path_nil_iff in Hnil.
  - by apply isAbsolute_rel_path.
  - reflexivity.
Qed.

Lemma filter_nonempty_ok (segs : list jsstring) :
  Forall seg_ok segs -> filter (fun s : jsstring => s <> []) segs = segs.
Proof.
  induction 1 as [|s segs Hs _ IH]; [reflexivity|].
  rewrite filter_cons_True by (by apply seg_ok_not_nil). by rewrite IH.
Qed.

Lemma posix_segments_abs (S : list jsstring) :
  Forall seg_ok S -> posix.segments (abs_path S) = S.
Proof.
  intros HS. unfold posix.segments. change (drop 1 (abs_path S)) with (rel_path S).
  destruct S as [|s S]; [reflexivity|].
  rewrite split_on_rel_path by done. by apply filter_nonempty_ok.
Qed.

Lemma abs_path_inj (S T : list jsstring) :
  Forall seg_ok S -> Forall seg_ok T -> abs_path S = abs_path T -> S = T.
Proof.
  intros HS HT Heq. apply (f_equal posix.segments) in Heq.
  by rewrite !posix_segments_abs in Heq.
Qed.

Lemma rel_path_inj (S T : list jsstring) :
  Forall seg_ok S -> Forall seg_ok T -> rel_path S = rel_path T -> S = T.
Proof.
  intros HS HT Heq. apply abs_path_inj; [done..|].
  unfold abs_path. fold (rel_path S) (rel_path T). by rewrite Heq.
Qed.

Lemma strip_common_prefix (C A B : list jsstring) :
  posix.strip_common (C ++ A) (C ++ B) = posix.strip_common A B.
Proof.
  induction C as [|c C IH]; [reflexivity|]. simpl.
  by rewrite bool_decide_eq_true_2.
Qed.

Lemma strip_common_diverge (a b : jsstring) (A B : list jsstring) :
  a <> b -> posix.strip_common (a :: A) (b :: B) = (a :: A, b :: B).
Proof. intros Hab. simpl. by rewrite bool_decide_eq_false_2. Qed.

(** [relative] from a directory to a path below it: the segments below. *)
Lemma posix_relative_below cwd (R X : list jsstring) :
  Forall seg_ok R -> Forall seg_ok X -> X <> [] ->
  posix.relative cwd (abs_path R) (abs_path (R ++ X)) = rel_path X.
Proof.
  intros HR HX Hne.
  assert (HRX : Forall seg_ok (R ++ X)) by (by apply Forall_app).
  assert (Hdiff : abs_path R <> abs_path (R ++ X)).
  { intros Heq. apply abs_path_inj in Heq; [|done..].
    rewrite <- (app_nil_r R) in Heq at 1. by apply app_inv_head in Heq. }
  unfold posix.relative.
  rewrite bool_decide_eq_false_2 by done.
  rewrite !posix_resolve_abs by done.
  rewrite bool_decide_eq_false_2 by done.
  rewrite !posix_segments_abs by done.
  rewrite <- (app_nil_r R) at 1. rewrite strip_common_prefix.
  destruct X; reflexivity.
Qed.

(** [relative] between two relative paths that differ in their first
    segment: as many [..] as the first has segments, then the second. *)
Lemma posix_relative_diverge (C A B : list jsstring) (a b : jsstring) :
  Forall seg_ok C -> Forall seg_ok (a :: A) -> Forall seg_ok (b :: B) ->
  a <> b ->
  posix.relative (abs_path C) (rel_path (a :: A)) (rel_path (b :: B)) =
  rel_path (map (fun _ => js "..") (a :: A) ++ b :: B).
Proof.
  intros HC HA HB Hab.
  assert (Hdiff : rel_path (a :: A) <> rel_path (b :: B)).
  { intros Heq. apply rel_path_inj in Heq; [|done..]. congruence. }
  assert (Hdiff' : abs_path (C ++ a :: A) <> abs_path (C ++ b :: B)).
  { intros Heq. apply abs_path_inj in Heq; [|by apply Forall_app..].
    apply app_inv_head in Heq. congruence. }
  unfold posix.relative.
  rewrite bool_decide_eq_false_2 by done.
  rewrite !posix_resolve_rel by done.
  rewrite bool_decide_eq_false_2 by done.
  rewrite !posix_segments_abs by (by apply Forall_app).
  rewrite strip_common_prefix, strip_common_diverge by done.
  reflexivity.
Qed.

(** ** The path deriver *)

Ltac posix_api :=
  cbn [path.dirname path.join path.relative path.sep path.basename
       path.extname posix_path].

Lemma seg_ok_test_file_name (name ext : jsstring) :
  SLASH ∉ name -> SLASH ∉ ext -> seg_ok (name ++ js "_test" ++ ext).
Proof.
  intros Hname Hext. repeat split.
  - destruct name; discriminate.
  - rewrite !not_elem_of_app. repeat split; [done|decide_by_computation|done].
  - intros Heq. apply (f_equal length) in Heq.
    rewrite !length_app in Heq. vm_compute (length (js _)) in Heq. lia.
  - intros Heq. apply (f_equal length) in Heq.
    rewrite !length_app in Heq. vm_compute (length (js _)) in Heq. lia.
Qed.

Lemma substring_lib (X : jsstring) : substring_from 4 (js "lib/" ++ X) = X.
Proof. reflexivity. Qed.

(** The test path of the library case on POSIX: the [lib] tree mirrored
    under [test], with the [_test] suffix. *)
Lemma posix_test_path_under_test
    (R D : list jsstring) (f name ext : jsstring) :
  Forall seg_ok R -> Forall seg_ok D -> seg_ok f ->
  SLASH ∉ name -> SLASH ∉ ext ->
  posix.join [posix.join [abs_path R; js "test";
                          posix.dirname (rel_path (D ++ [f]))];
              name ++ js "_test" ++ ext]
  = abs_path (R ++ js "test" :: D ++ [name ++ js "_test" ++ ext]).
Proof.
  intros HR HD Hf Hname Hext.
  rewrite posix_dirname_rel by done.
  pose proof (seg_ok_test_file_name name ext Hname Hext) as Htfn.
  destruct D as [|d D].
  - rewrite posix_join_abs_test_dot by done.
    rewrite posix_join_abs_seg; [|by apply Forall_app; split; [|constructor; [apply seg_ok_test|]]|done].
    by rewrite <- app_assoc.
  - rewrite posix_join_abs_test_rel by done.
    rewrite posix_join_abs_seg; [|by apply Forall_app; split; [|constructor; [apply seg_ok_test|]]|done].
    by rewrite <- app_assoc.
Qed.

Lemma calculateTestFileInfoForLib_testPath_posix
    cwd (R D : list jsstring) (f name ext src : jsstring) pkg :
  Forall seg_ok R -> Forall seg_ok D -> seg_ok f ->
  SLASH ∉ name -> SLASH ∉ ext ->
  testPath (calculateTestFileInfoForLib (P := posix_path cwd)
              (abs_path R) src (js "lib/" ++ rel_path (D ++ [f])) name ext pkg)
  = abs_path (R ++ js "test" :: D ++ [name ++ js "_test" ++ ext]).
Proof.
  intros HR HD Hf Hname Hext.
  unfold calculateTestFileInfoForLib. cbn [testPath]. posix_api.
  rewrite substring_lib. by apply posix_test_path_under_test.
Qed.

(** [relative] between two absolute paths that part ways below a common
    directory. *)
Lemma posix_relative_abs_diverge cwd (R A B : list jsstring) (a b : jsstring) :
  Forall seg_ok R -> Forall seg_ok (a :: A) -> Forall seg_ok (b :: B) ->
  a <> b ->
  posix.relative cwd (abs_path (R ++ a :: A)) (abs_path (R ++ b :: B)) =
  rel_path (map (fun _ => js "..") (a :: A) ++ b :: B).
Proof.
  intros HR HA HB Hab.
  assert (Hdiff : abs_path (R ++ a :: A) <> abs_path (R ++ b :: B)).
  { intros Heq. apply abs_path_inj in Heq; [|by apply Forall_app..].
    apply app_inv_head in Heq. congruence. }
  unfold posix.relative.
  rewrite bool_decide_eq_false_2 by done.
  rewrite !posix_resolve_abs by (by apply Forall_app).
  rewrite bool_decide_eq_false_2 by done.
  rewrite !posix_segments_abs by (by apply Forall_app).
  rewrite strip_common_prefix, strip_common_diverge by done.
  reflexivity.
Qed.

Lemma map_dotdot (l : list jsstring) :
  map (fun _ : jsstring => js "..") l = replicate (length l) (js "..").
Proof. induction l as [|x l IH]; [reflexivity|]. simpl. by rewrite IH. Qed.

(** C6: a source right under [lib], with no directory in between, gets its
    test right under [test]: the path deriver returns
    [<root>/test/<name>_test<ext>], with no directory between [test] and the
    file; for root [/proj] and source [/proj/lib/app.dart] the test path is
    [/proj/test/app_test.dart], whatever the working directory and the
    package name. *)
Theorem library_root_source_test_path
    cwd (R : list jsstring) (f name ext src : jsstring) pkg :
  Forall seg_ok R -> seg_ok f -> SLASH ∉ name -> SLASH ∉ ext ->
  testPath (calculateTestFileInfoForLib (P := posix_path cwd)
              (abs_path R) src (js "lib/" ++ f) name ext pkg)
    = abs_path (R ++ [js "test"; name ++ js "_test" ++ ext]) /\
  posix.dirname (abs_path (R ++ [js "test"; name ++ js "_test" ++ ext]))
    = abs_path (R ++ [js "test"]) /\
  testPath (deriveTestFileInfo (P := posix_path cwd)
              (js "/proj") (js "/proj/lib/app.dart") pkg)
    = js "/proj/test/app_test.dart".
Proof.
  intros HR Hf Hname Hext. split; [|split].
  - apply (calculateTestFileInfoForLib_testPath_posix cwd R [] f); done.
  - change (R ++ [js "test"; name ++ js "_test" ++ ext])
      with (R ++ [js "test"] ++ [name ++ js "_test" ++ ext]).
    rewrite app_assoc. apply posix_dirname_abs.
    + apply Forall_app. split; [done|]. constructor; [apply seg_ok_test|done].
    + by apply seg_ok_test_file_name.
  - vm_compute. reflexivity.
Qed.

Lemma library_root_source_test_path_witness :
  testPath (calculateTestFileInfoForLib (P := posix_path (js "/home/dev"))
              (abs_path [js "proj"]) (js "/proj/lib/app.dart")
              (js "lib/" ++ js "app.dart") (js "app") (js ".dart") None)
    = abs_path ([js "proj"] ++ [js "test"; js "app" ++ js "_test" ++ js ".dart"]).
Proof.
  apply (library_root_source_test_path (js "/home/dev") [js "proj"]
           (js "app.dart") (js "app") (js ".dart") (js "/proj/lib/app.dart") None).
  - repeat constructor; try discriminate; decide_by_computation.
  - repeat constructor; try discriminate; decide_by_computation.
  - decide_by_computation.
  - decide_by_computation.
Defined.

(** C7: outside the library directory the test file goes next to the source.
    The path deriver joins the directory of the source with
    [<name>_test<ext>] and imports [./<name><ext>]; on POSIX, for a source
    [<dir>/<file>], the test path is [<dir>/<name>_test<ext>], in the same
    directory as the source; [deriveTestFileInfo] takes this branch whenever
    the relative path is not under [lib]; [/proj/scripts/tool.dart] yields
    [/proj/scripts/tool_test.dart] and [./tool.dart]. *)
Theorem non_library_test_file
    cwd (R : list jsstring) (f name ext : jsstring) :
  Forall seg_ok R -> seg_ok f -> SLASH ∉ name -> SLASH ∉ ext ->
  calculateTestFileInfoForNonLib (P := posix_path cwd)
      (abs_path (R ++ [f])) name ext
    = mkTestFileInfo (abs_path (R ++ [name ++ js "_test" ++ ext]))
                     (js "./" ++ name ++ ext) /\
  posix.dirname (abs_path (R ++ [name ++ js "_test" ++ ext]))
    = posix.dirname (abs_path (R ++ [f])) /\
  (forall (P : path.PathApi) workspaceRoot sourcePath pkg,
     isUnderLibDirectory (path.relative workspaceRoot sourcePath) = false ->
     deriveTestFileInfo workspaceRoot sourcePath pkg
       = mkTestFileInfo
           (path.join [path.dirname sourcePath;
                       path.basename sourcePath (Some (path.extname sourcePath))
                         ++ js "_test" ++ path.extname sourcePath])
           (js "./" ++ path.basename sourcePath (Some (path.extname sourcePath))
              ++ path.extname sourcePath)) /\
  (forall pkg,
     deriveTestFileInfo (P := posix_path cwd)
         (js "/proj") (js "/proj/scripts/tool.dart") pkg
       = mkTestFileInfo (js "/proj/scripts/tool_test.dart") (js "./tool.dart")).
Proof.
  intros HR Hf Hname Hext.
  pose proof (seg_ok_test_file_name name ext Hname Hext) as Htfn.
  split; [|split; [|split]].
  - unfold calculateTestFileInfoForNonLib. posix_api.
    rewrite posix_dirname_abs by done.
    by rewrite posix_join_abs_seg.
  - by rewrite !posix_dirname_abs.
  - intros P root src pkg Hnot. unfold deriveTestFileInfo. by rewrite Hnot.
  - intros pkg. vm_compute. reflexivity.
Qed.

Lemma non_library_test_file_witness :
  calculateTestFileInfoForNonLib (P := posix_path (js "/home/dev"))
      (abs_path ([js "proj"; js "scripts"] ++ [js "tool.dart"]))
      (js "tool") (js ".dart")
    = mkTestFileInfo
        (abs_path ([js "proj"; js "scripts"] ++ [js "tool" ++ js "_test" ++ js ".dart"]))
        (js "./" ++ js "tool" ++ js ".dart").
Proof.
  apply (non_library_test_file (js "/home/dev") [js "proj"; js "scripts"]
           (js "tool.dart") (js "tool") (js ".dart")).
  - repeat constructor; try discriminate; decide_by_computation.
  - repeat constructor; try discriminate; decide_by_computation.
  - decide_by_computation.
  - decide_by_computation.
Defined.

(** C9: the library branch is taken exactly when the relative path starts
    with the segment [lib] followed by a separator, which is [path.sep] or a
    slash.  On a host whose separator is the slash or the backslash, a
    directory or a file whose name only starts with [lib] takes the
    non-library branch. *)
Theorem library_branch_exact (P : path.PathApi) (relativePath : jsstring) :
  path.sep = SLASH \/ path.sep = BACKSLASH ->
  (isUnderLibDirectory relativePath = true <->
     exists c rest, relativePath = js "lib" ++ c :: rest /\
                    (c = path.sep \/ c = SLASH)) /\
  (forall workspaceRoot sourcePath pkg,
     path.relative workspaceRoot sourcePath = relativePath ->
     deriveTestFileInfo workspaceRoot sourcePath pkg =
       if isUnderLibDirectory relativePath
       then calculateTestFileInfoForLib workspaceRoot sourcePath relativePath
              (path.basename sourcePath (Some (path.extname sourcePath)))
              (path.extname sourcePath) pkg
       else calculateTestFileInfoForNonLib sourcePath
              (path.basename sourcePath (Some (path.extname sourcePath)))
              (path.extname sourcePath)) /\
  isUnderLibDirectory (js "library/foo.dart") = false /\
  isUnderLibDirectory (js "libfoo.dart") = false /\
  isUnderLibDirectory (js "lib") = false /\
  (forall cwd pkg,
     deriveTestFileInfo (P := posix_path cwd)
         (js "/proj") (js "/proj/library/foo.dart") pkg
       = mkTestFileInfo (js "/proj/library/foo_test.dart") (js "./foo.dart")).
Proof.
  intros Hsep. split; [|split; [|split; [|split; [|split]]]].
  - unfold isUnderLibDirectory. rewrite orb_true_iff, !startsWith_spec. split.
    + intros [[rest ->]|[rest ->]].
      * exists path.sep, rest. split; [by rewrite <- app_assoc|by left].
      * exists SLASH, rest. split; [reflexivity|by right].
    + intros (c & rest & -> & [->| ->]).
      * left. exists rest. by rewrite <- app_assoc.
      * right. by exists rest.
  - intros root src pkg <-. reflexivity.
  - unfold isUnderLibDirectory. by destruct Hsep as [-> | ->].
  - unfold isUnderLibDirectory. by destruct Hsep as [-> | ->].
  - unfold isUnderLibDirectory. by destruct Hsep as [-> | ->].
  - intros cwd pkg. vm_compute. reflexivity.
Qed.

Lemma library_branch_exact_witness :
  isUnderLibDirectory (P := posix_path (js "/home/dev")) (js "lib/models/user.dart") = true <->
  exists c rest, js "lib/models/user.dart" = js "lib" ++ c :: rest /\
                 (c = SLASH \/ c = SLASH).
Proof.
  apply (library_branch_exact (posix_path (js "/home/dev")) (js "lib/models/user.dart")).
  left. reflexivity.
Defined.

Lemma TestFileInfo_eta (info : TestFileInfo) :
  info = mkTestFileInfo (testPath info) (importPath info).
Proof. by destruct info. Qed.

Lemma example_segments_ok :
  Forall seg_ok [js "proj"] /\ Forall seg_ok [js "models"] /\
  seg_ok (js "user.dart").
Proof.
  repeat split; repeat constructor; try discriminate; decide_by_computation.
Qed.

(** C3: without a package name the import path of a source under [lib] is
    the relative path from the directory of the test file to the source
    file, with forward slashes.  On every host the code takes the relative
    path the [path] module gives and replaces each [path.sep] by a slash, so
    no separator other than the slash is left; on POSIX, for a source
    [<root>/lib/<dirs>/<file>], it is one [..] for [test] and for each of
    [<dirs>], then [lib/<dirs>/<file>], which is [path.relative] from the
    directory of the test file to the source; for root [/proj] and source
    [/proj/lib/models/user.dart] it is [../../lib/models/user.dart]. *)
Theorem relative_import_fallback
    (C R D : list jsstring) (f name ext : jsstring) (pkg : option jsstring) :
  Forall seg_ok C -> Forall seg_ok R -> Forall seg_ok D -> seg_ok f ->
  SLASH ∉ name -> SLASH ∉ ext -> truthy pkg = false ->
  let source := abs_path (R ++ js "lib" :: D ++ [f]) in
  let info :=
    calculateTestFileInfoForLib (P := posix_path (abs_path C))
      (abs_path R) source (js "lib/" ++ rel_path (D ++ [f])) name ext pkg in
  importPath info =
    rel_path (replicate (S (length D)) (js "..") ++ js "lib" :: D ++ [f]) /\
  importPath info =
    posix.relative (abs_path C) (posix.dirname (testPath info)) source /\
  (forall (P : path.PathApi) workspaceRoot sourcePath relativePath
          sourceFileName ext',
     let info' :=
       calculateTestFileInfoForLib workspaceRoot sourcePath relativePath
         sourceFileName ext' pkg in
     importPath info' =
       join_with (js "/")
         (split_on path.sep
            (path.relative
               (path.dirname (path.relative workspaceRoot (testPath info')))
               (path.relative workspaceRoot sourcePath))) /\
     (path.sep <> SLASH -> path.sep ∉ importPath info')) /\
  deriveTestFileInfo (P := posix_path (abs_path C))
      (js "/proj") (js "/proj/lib/models/user.dart") None
    = mkTestFileInfo (js "/proj/test/models/user_test.dart")
                     (js "../../lib/models/user.dart").
Proof.
  intros HC HR HD Hf Hname Hext Hpkg source info.
  pose proof (seg_ok_test_file_name name ext Hname Hext) as Htfn.
  assert (Hgeneral : forall C' R' D' f' name' ext' pkg',
    Forall seg_ok C' -> Forall seg_ok R' -> Forall seg_ok D' -> seg_ok f' ->
    SLASH ∉ name' -> SLASH ∉ ext' -> truthy pkg' = false ->
    importPath (calculateTestFileInfoForLib (P := posix_path (abs_path C'))
      (abs_path R') (abs_path (R' ++ js "lib" :: D' ++ [f']))
      (js "lib/" ++ rel_path (D' ++ [f'])) name' ext' pkg') =
    rel_path (replicate (S (length D')) (js "..") ++ js "lib" :: D' ++ [f'])).
  { clear. intros C R D f name ext pkg HC HR HD Hf Hname Hext Hpkg.
    pose proof (seg_ok_test_file_name name ext Hname Hext) as Htfn.
    unfold calculateTestFileInfoForLib. cbn [importPath]. rewrite Hpkg.
    posix_api. rewrite substring_lib.
    rewrite posix_test_path_under_test by done.
    rewrite !posix_relative_below; try done.
    - change (js "test" :: D ++ [name ++ js "_test" ++ ext])
        with ((js "test" :: D) ++ [name ++ js "_test" ++ ext]).
      rewrite posix_dirname_rel;
        [|by constructor; [apply seg_ok_test|]|done].
      cbn [app]. rewrite posix_relative_diverge; try done.
      + change (js "/") with [SLASH]. rewrite join_split.
        rewrite map_dotdot. reflexivity.
      + constructor; [apply seg_ok_test|done].
      + constructor; [apply seg_ok_lib|]. apply Forall_app. split; [done|by constructor].
    - constructor; [apply seg_ok_lib|]. apply Forall_app. split; [done|by constructor].
    - constructor; [apply seg_ok_test|]. apply Forall_app. split; [done|by constructor]. }
  split; [|split; [|split]].
  - by apply Hgeneral.
  - unfold info at 1. unfold source. rewrite Hgeneral by done.
    unfold info. rewrite calculateTestFileInfoForLib_testPath_posix by done.
    change (R ++ js "test" :: D ++ [name ++ js "_test" ++ ext])
      with (R ++ (js "test" :: D) ++ [name ++ js "_test" ++ ext]).
    rewrite app_assoc, posix_dirname_abs;
      [|apply Forall_app; split; [done|constructor; [apply seg_ok_test|done]]|done].
    unfold source. rewrite posix_relative_abs_diverge; try done.
    + by rewrite map_dotdot.
    + constructor; [apply seg_ok_test|done].
    + constructor; [apply seg_ok_lib|]. apply Forall_app. split; [done|by constructor].
  - intros P root src relp sfn ext' info'.
    unfold info', calculateTestFileInfoForLib. cbn [importPath testPath].
    rewrite Hpkg. split; [reflexivity|].
    intros Hsep. by apply split_join_slash_without.
  - clear info source. unfold deriveTestFileInfo. posix_api.
    change (js "/proj") with (abs_path [js "proj"]).
    change (js "/proj/lib/models/user.dart")
      with (abs_path ([js "proj"] ++ js "lib" :: [js "models"] ++ [js "user.dart"])).
    pose proof example_segments_ok as (Hproj & Hmodels & Huser).
    rewrite posix_relative_below;
      [|done|constructor; [apply seg_ok_lib|apply Forall_app; split; [done|by constructor]]|done].
    change (isUnderLibDirectory _) with true. cbn iota.
    set (src := abs_path ([js "proj"] ++ js "lib" :: [js "models"] ++ [js "user.dart"])).
    replace (posix.extname src) with (js ".dart") by (by vm_compute).
    replace (posix.basename src (Some (js ".dart"))) with (js "user")
      by (by vm_compute).
    change (rel_path (js "lib" :: [js "models"] ++ [js "user.dart"]))
      with (js "lib/" ++ rel_path ([js "models"] ++ [js "user.dart"])).
    pose proof (Hgeneral C [js "proj"] [js "models"] (js "user.dart")
                  (js "user") (js ".dart") None HC Hproj Hmodels Huser) as Himp.
    pose proof (calculateTestFileInfoForLib_testPath_posix (abs_path C)
                  [js "proj"] [js "models"] (js "user.dart")
                  (js "user") (js ".dart") src None Hproj Hmodels Huser) as Htp.
    fold src in Himp.
    assert (Hn : SLASH ∉ js "user") by decide_by_computation.
    assert (He : SLASH ∉ js ".dart") by decide_by_computation.
    specialize (Himp Hn He eq_refl). specialize (Htp Hn He).
    match goal with |- ?info = _ => rewrite (TestFileInfo_eta info) end.
    rewrite Himp, Htp. vm_compute. reflexivity.
Qed.

Lemma relative_import_fallback_witness :
  importPath
    (calculateTestFileInfoForLib (P := posix_path (abs_path [js "home"; js "dev"]))
       (abs_path [js "proj"])
       (abs_path ([js "proj"] ++ js "lib" :: [js "models"] ++ [js "user.dart"]))
       (js "lib/" ++ rel_path ([js "models"] ++ [js "user.dart"]))
       (js "user") (js ".dart") None)
  = rel_path (replicate (S (length [js "models"])) (js "..")
                ++ js "lib" :: [js "models"] ++ [js "user.dart"]).
Proof.
  apply (relative_import_fallback [js "home"; js "dev"] [js "proj"]
           [js "models"] (js "user.dart") (js "user") (js ".dart") None).
  - repeat constructor; try discriminate; decide_by_computation.
  - repeat constructor; try discriminate; decide_by_computation.
  - repeat constructor; try discriminate; decide_by_computation.
  - repeat constructor; try discriminate; decide_by_computation.
  - decide_by_computation.
  - decide_by_computation.
  - reflexivity.
Defined.

(** C2: with a resolved package name, a source under [lib] is imported by
    its package URI and tested under [test].  On POSIX, for a source
    [<root>/lib/<dirs>/<file>], the test path is
    [<root>/test/<dirs>/<name>_test<ext>] and the import path is
    [package:<packageName>/<dirs>/<file>]; on every host the import path is
    [package:<packageName>/] followed by the path under [lib] with each
    [path.sep] replaced by a slash; a name that resolution returns is never
    empty, so the package form is taken whenever a name is resolved; for
    root [/proj], source [/proj/lib/models/user.dart] and package [my_app]
    the result is [/proj/test/models/user_test.dart] and
    [package:my_app/models/user.dart]. *)
Theorem package_import_path
    cwd (R D : list jsstring) (f name ext src pkg : jsstring) :
  Forall seg_ok R -> Forall seg_ok D -> seg_ok f ->
  SLASH ∉ name -> SLASH ∉ ext -> pkg <> [] ->
  calculateTestFileInfoForLib (P := posix_path cwd)
      (abs_path R) src (js "lib/" ++ rel_path (D ++ [f])) name ext (Some pkg)
    = mkTestFileInfo
        (abs_path (R ++ js "test" :: D ++ [name ++ js "_test" ++ ext]))
        (js "package:" ++ pkg ++ js "/" ++ rel_path (D ++ [f])) /\
  (forall (P : path.PathApi) workspaceRoot sourcePath relativePath
          sourceFileName ext',
     importPath (calculateTestFileInfoForLib workspaceRoot sourcePath
                   relativePath sourceFileName ext' (Some pkg))
       = js "package:" ++ pkg ++ js "/" ++
         join_with (js "/") (split_on path.sep (substring_from 4 relativePath)) /\
     (path.sep <> SLASH ->
      path.sep ∉ join_with (js "/")
                   (split_on path.sep (substring_from 4 relativePath)))) /\
  (forall content id,
     matchPackageName content = Some id -> truthy (Some id) = true) /\
  (forall cwd',
     deriveTestFileInfo (P := posix_path cwd')
         (js "/proj") (js "/proj/lib/models/user.dart") (Some (js "my_app"))
       = mkTestFileInfo (js "/proj/test/models/user_test.dart")
                        (js "package:my_app/models/user.dart")).
Proof.
  intros HR HD Hf Hname Hext Hpkg.
  assert (Htruthy : truthy (Some pkg) = true) by (by destruct pkg).
  split; [|split; [|split]].
  - match goal with |- ?info = _ => rewrite (TestFileInfo_eta info) end.
    rewrite calculateTestFileInfoForLib_testPath_posix by done.
    f_equal. unfold calculateTestFileInfoForLib. cbn [importPath].
    rewrite Htruthy. posix_api. rewrite substring_lib.
    change (js "/") with [SLASH]. by rewrite join_split.
  - intros P root srcp relp sfn ext'. split.
    + unfold calculateTestFileInfoForLib. cbn [importPath]. by rewrite Htruthy.
    + intros Hsep. by apply split_join_slash_without.
  - apply matchPackageName_truthy.
  - intros cwd'. vm_compute. reflexivity.
Qed.

Lemma package_import_path_witness :
  calculateTestFileInfoForLib (P := posix_path (js "/home/dev"))
      (abs_path [js "proj"]) (js "/proj/lib/models/user.dart")
      (js "lib/" ++ rel_path ([js "models"] ++ [js "user.dart"]))
      (js "user") (js ".dart") (Some (js "my_app"))
    = mkTestFileInfo
        (abs_path ([js "proj"] ++ js "test" :: [js "models"]
                     ++ [js "user" ++ js "_test" ++ js ".dart"]))
        (js "package:" ++ js "my_app" ++ js "/"
           ++ rel_path ([js "models"] ++ [js "user.dart"])).
Proof.
  apply (package_import_path (js "/home/dev") [js "proj"] [js "models"]
           (js "user.dart") (js "user") (js ".dart")
           (js "/proj/lib/models/user.dart") (js "my_app")).
  - repeat constructor; try discriminate; decide_by_computation.
  - repeat constructor; try discriminate; decide_by_computation.
  - repeat constructor; try discriminate; decide_by_computation.
  - decide_by_computation.
  - decide_by_computation.
  - discriminate.
Defined.

(** ** The test-content generator *)

(** C5, as stated, does not hold: the output for [Widget] and
    [./widget.dart] does not have four lines, and its import line does not
    contain [Widget]. *)
Lemma widget_content_not_four_lines_with_Widget_import :
  length (text_lines widget_content) <> 4%nat /\
  (forall import_line,
     head (text_lines widget_content) = Some import_line ->
     includes import_line (js "Widget") = false) /\
  ~ (length (text_lines widget_content) = 4%nat /\
     exists import_line,
       head (text_lines widget_content) = Some import_line /\
       includes import_line (js "Widget") = true).
Proof.
  assert (Hlines : text_lines widget_content =
            [js "import './widget.dart';"; js ""; js "void main() {";
             js "  group('Widget', () {"; js ""; js "  });"; js "}"])
    by (vm_compute; reflexivity).
  rewrite Hlines. split; [discriminate|]. split.
  - intros import_line [= <-]. vm_compute. reflexivity.
  - intros [Hlen _]. discriminate.
Qed.

(** C5, amended: for [Widget] and [./widget.dart] the generator returns the
    fixed template of seven lines (five of text, two blank, each ended by a
    line feed), with the import path in the import line and the class name in
    the group line only; for all inputs without a line feed the lines are the
    import statement of the import path, a blank line, the entry function
    without arguments, the group named after the class, a blank line for its
    body, and the two closing lines. *)
Theorem generateTestContent_lines (className importPath : jsstring) :
  LF ∉ className -> LF ∉ importPath ->
  text_lines (generateTestContent className importPath) =
    [ js "import '" ++ importPath ++ js "';";
      js "";
      js "void main() {";
      js "  group('" ++ className ++ js "', () {";
      js "";
      js "  });";
      js "}" ] /\
  widget_content =
    js "import './widget.dart';" ++ [LF] ++
    [LF] ++
    js "void main() {" ++ [LF] ++
    js "  group('Widget', () {" ++ [LF] ++
    [LF] ++
    js "  });" ++ [LF] ++
    js "}" ++ [LF] /\
  length (text_lines widget_content) = 7%nat /\
  includes (js "import './widget.dart';") (js "Widget") = false.
Proof.
  intros Hcn Hip. split; [|by vm_compute].
  unfold text_lines, generateTestContent.
  assert (Himport : LF ∉ js "import '" ++ importPath ++ js "';").
  { rewrite !not_elem_of_app. repeat split; [decide_by_computation|done|decide_by_computation]. }
  assert (Hgroup : LF ∉ js "  group('" ++ className ++ js "', () {").
  { rewrite !not_elem_of_app. repeat split; [decide_by_computation|done|decide_by_computation]. }
  rewrite <- !app_assoc.
  rewrite (split_on_app3 LF (js "import '")) by done.
  rewrite split_on_sep_app.
  rewrite (split_on_app1 LF (js "void main() {")) by decide_by_computation.
  rewrite (split_on_app3 LF (js "  group('")) by done.
  rewrite split_on_sep_app.
  rewrite (split_on_app1 LF (js "  });")) by decide_by_computation.
  rewrite <- (app_nil_r [LF]).
  rewrite (split_on_app1 LF (js "}")) by decide_by_computation.
  reflexivity.
Qed.

Lemma generateTestContent_lines_witness :
  text_lines (generateTestContent (js "Widget") (js "./widget.dart")) =
    [ js "import '" ++ js "./widget.dart" ++ js "';";
      js "";
      js "void main() {";
      js "  group('" ++ js "Widget" ++ js "', () {";
      js "";
      js "  });";
      js "}" ].
Proof.
  apply (generateTestContent_lines (js "Widget") (js "./widget.dart"));
    decide_by_computation.
Defined.

(** C10: the generator substitutes its inputs verbatim.  The output is the
    concatenation of the template pieces and the two inputs, its length is
    the length of the template plus the lengths of the inputs, and it holds
    the four single quotes of the template plus every single quote of the
    inputs: none is escaped or removed.  A class name and an import path with
    a single quote appear unchanged inside the quoted strings. *)
Theorem generateTestContent_verbatim (className importPath : jsstring) :
  generateTestContent className importPath =
    js "import '" ++ importPath ++ js "';" ++ [LF] ++
    [LF] ++
    js "void main() {" ++ [LF] ++
    js "  group('" ++ className ++ js "', () {" ++ [LF] ++
    [LF] ++
    js "  });" ++ [LF] ++
    js "}" ++ [LF] /\
  length (generateTestContent className importPath) =
    (52 + length importPath + length className)%nat /\
  count_occ N.eq_dec (generateTestContent className importPath) QUOTE =
    (4 + count_occ N.eq_dec importPath QUOTE
       + count_occ N.eq_dec className QUOTE)%nat /\
  generateTestContent (js "O'Neil") (js "./o'neil.dart") =
    js "import './o'neil.dart';" ++ [LF] ++
    [LF] ++
    js "void main() {" ++ [LF] ++
    js "  group('O'Neil', () {" ++ [LF] ++
    [LF] ++
    js "  });" ++ [LF] ++
    js "}" ++ [LF].
Proof.
  unfold generateTestContent. repeat split.
  - by rewrite <- !app_assoc.
  - rewrite !length_app. unfold js. simpl. lia.
  - rewrite !count_occ_app. unfold js. simpl. lia.
Qed.

(** ** The create-test command *)

Section OrchestratorFacts.
Context `{H : Host}.

Lemma io_bind_returned {A B} (c : IO A) (k : A -> IO B) w a w' :
  c w = (Returned a, w') -> (c ≫= k) w = k a w'.
Proof. intros Hc. unfold mbind, io_mbind, io_bind. by rewrite Hc. Qed.

(** [getPackageName] never throws: it returns the name the manifest gives,
    or none, after one read. *)
Lemma getPackageName_run (workspaceRoot : jsstring) (w : World) :
  getPackageName workspaceRoot w =
  (Returned (resolvedPackageName workspaceRoot w),
   record_call (ReadFile (pubspecPath workspaceRoot)) w).
Proof.
  unfold getPackageName, resolvedPackageName, try_catch, readFile, host_call.
  fold (pubspecPath workspaceRoot).
  unfold mbind, io_mbind, io_bind, io_ret.
  destruct (refused w (ReadFile (pubspecPath workspaceRoot))); [reflexivity|].
  cbn [files record_call].
  destruct (files w !! pubspecPath workspaceRoot); reflexivity.
Qed.

(** [fileExists] never throws: it returns what the existence check finds,
    after one [stat]. *)
Lemma fileExists_run (p : jsstring) (w : World) :
  fileExists p w = (Returned (found p w), record_call (Stat p) w).
Proof.
  unfold fileExists, found, try_catch, stat, host_call.
  unfold mbind, io_mbind, io_bind, io_ret.
  destruct (refused w (Stat p)); [reflexivity|].
  change (path_exists p (record_call (Stat p) w)) with (path_exists p w).
  destruct (path_exists p w); reflexivity.
Qed.

(** [showTextDocument] and the three notifications leave files and
    directories alone, and so does [openExistingTestFile]. *)
Lemma openExistingTestFile_run (p : jsstring) (w : World) :
  exists out rest,
    openExistingTestFile p w =
      (out, mkWorld (files w) (directories w) (refused w)
              (trace w ++ OpenTextDocument p :: rest)) /\
    Forall (fun c => is_creation_step c = false) rest /\
    (refused w (OpenTextDocument p) = None -> is_Some (files w !! p) ->
     refused w (ShowTextDocument p) = None ->
     out = Returned tt /\
     rest = [ShowTextDocument p;
             ShowInformationMessage
               (js "Test file already exists: " ++ path.basename p None)]).
Proof.
  unfold openExistingTestFile, openTextDocument, showTextDocument,
    showInformationMessage, host_call, record_call.
  unfold mbind, io_mbind, io_bind, io_ret. cbn [files directories refused trace].
  destruct (refused w (OpenTextDocument p)) as [e|] eqn:Hopen.
  { exists (Thrown e), []. split; [reflexivity|]. split; [constructor|done]. }
  destruct (files w !! p) as [bytes|] eqn:Hfile.
  2:{ exists (Thrown (js "FileNotFound")), []. split; [reflexivity|].
      split; [constructor|]. by intros _ [? ?]. }
  cbn [files directories refused trace].
  destruct (refused w (ShowTextDocument p)) as [e|] eqn:Hshow.
  { exists (Thrown e), [ShowTextDocument p]. rewrite <- app_assoc.
    split; [reflexivity|]. split; [by repeat constructor|done]. }
  exists (Returned tt),
    [ShowTextDocument p;
     ShowInformationMessage
       (js "Test file already exists: " ++ path.basename p None)].
  cbn [files directories refused trace]. rewrite <- !app_assoc.
  split; [reflexivity|]. split; [by repeat constructor|done].
Qed.

End OrchestratorFacts.

(** C1, as stated, does not hold: the test file written by hand for
    [lib/models/user.dart] exists, the [stat] of the existence check throws,
    and the command creates the test file anew; the bytes written by hand
    are replaced by the generated ones, and the calls include the creation
    of the directory and the write. *)
Lemma existing_test_file_overwritten_when_stat_throws :
  path_exists (js "/proj/test/models/user_test.dart") stat_failing_world
    = true /\
  files stat_failing_world !! js "/proj/test/models/user_test.dart"
    = Some (utf8_encode (Host := example_host) (js "// written by hand")) /\
  files (snd (handleCreateTestCommand (H := example_host) example_args
                stat_failing_world))
    !! js "/proj/test/models/user_test.dart"
    = Some (utf8_encode (Host := example_host)
              (generateTestContent (js "User")
                 (js "package:my_app/models/user.dart"))) /\
  trace (snd (handleCreateTestCommand (H := example_host) example_args
                stat_failing_world))
    = [ReadFile (js "/proj/pubspec.yaml");
       Stat (js "/proj/test/models/user_test.dart");
       CreateDirectory (js "/proj/test/models");
       WriteFile (js "/proj/test/models/user_test.dart")
         (utf8_encode (Host := example_host)
            (generateTestContent (js "User")
               (js "package:my_app/models/user.dart")));
       OpenTextDocument (js "/proj/test/models/user_test.dart");
       ShowTextDocument (js "/proj/test/models/user_test.dart");
       ShowInformationMessage
         (js "Created test: test/models/user_test.dart")] /\
  ~ (forall p bytes,
       files stat_failing_world !! p = Some bytes ->
       files (snd (handleCreateTestCommand (H := example_host) example_args
                     stat_failing_world)) !! p = Some bytes) /\
  ~ Forall (fun c => is_creation_step c = false)
      (trace (snd (handleCreateTestCommand (H := example_host) example_args
                     stat_failing_world))).
Proof.
  assert (Hold :
    files stat_failing_world !! js "/proj/test/models/user_test.dart"
    = Some (utf8_encode (Host := example_host) (js "// written by hand")))
    by (vm_compute; reflexivity).
  assert (Hnew :
    files (snd (handleCreateTestCommand (H := example_host) example_args
                  stat_failing_world))
      !! js "/proj/test/models/user_test.dart"
    = Some (utf8_encode (Host := example_host)
              (generateTestContent (js "User")
                 (js "package:my_app/models/user.dart"))))
    by (vm_compute; reflexivity).
  assert (Htrace :
    trace (snd (handleCreateTestCommand (H := example_host) example_args
                  stat_failing_world))
    = [ReadFile (js "/proj/pubspec.yaml");
       Stat (js "/proj/test/models/user_test.dart");
       CreateDirectory (js "/proj/test/models");
       WriteFile (js "/proj/test/models/user_test.dart")
         (utf8_encode (Host := example_host)
            (generateTestContent (js "User")
               (js "package:my_app/models/user.dart")));
       OpenTextDocument (js "/proj/test/models/user_test.dart");
       ShowTextDocument (js "/proj/test/models/user_test.dart");
       ShowInformationMessage
         (js "Created test: test/models/user_test.dart")])
    by (vm_compute; reflexivity).
  split; [by vm_compute|]. split; [exact Hold|]. split; [exact Hnew|].
  split; [exact Htrace|]. split.
  - intros Hkeep. specialize (Hkeep _ _ Hold). rewrite Hnew in Hkeep.
    vm_compute in Hkeep. discriminate.
  - rewrite Htrace. intros Hall.
    apply Forall_cons in Hall as [_ Hall].
    apply Forall_cons in Hall as [_ Hall].
    apply Forall_cons in Hall as [Hmk _]. discriminate.
Qed.

(** C1, amended: when the derived test path exists as the command is
    invoked, and the host answers the [stat] of the existence check, the
    command opens what is there and writes nothing.  Every file has afterwards the bytes
    it had before, the directories are the same, the command returns without
    throwing, and the calls it made are the read of the manifest, the [stat]
    of the target, the opening of the target and calls that are neither a
    directory creation nor a write; when the target is a file and the host
    opens and shows it, these are the showing of the document and the notice
    that the test file already exists. *)
Theorem existing_test_file_untouched `{H : Host}
    (args : ClassInfo) (w : World) (sourcePath workspaceRoot : jsstring) :
  uri_fsPath (uri args) = Some sourcePath ->
  workspaceFolderOf (uri args) = Some workspaceRoot ->
  path_exists (testPath (targetOf workspaceRoot sourcePath w)) w = true ->
  refused w (Stat (testPath (targetOf workspaceRoot sourcePath w))) = None ->
  files (snd (handleCreateTestCommand args w)) = files w /\
  (forall p bytes, files w !! p = Some bytes ->
     files (snd (handleCreateTestCommand args w)) !! p = Some bytes) /\
  directories (snd (handleCreateTestCommand args w)) = directories w /\
  fst (handleCreateTestCommand args w) = Returned tt /\
  exists rest,
    trace (snd (handleCreateTestCommand args w)) =
      trace w ++
      [ReadFile (pubspecPath workspaceRoot);
       Stat (testPath (targetOf workspaceRoot sourcePath w));
       OpenTextDocument (testPath (targetOf workspaceRoot sourcePath w))] ++
      rest /\
    Forall (fun c => is_creation_step c = false) rest /\
    (refused w (OpenTextDocument (testPath (targetOf workspaceRoot sourcePath w)))
       = None ->
     is_Some (files w !! testPath (targetOf workspaceRoot sourcePath w)) ->
     refused w (ShowTextDocument (testPath (targetOf workspaceRoot sourcePath w)))
       = None ->
     rest =
       [ShowTextDocument (testPath (targetOf workspaceRoot sourcePath w));
        ShowInformationMessage
          (js "Test file already exists: " ++
           path.basename (testPath (targetOf workspaceRoot sourcePath w)) None)]).
Proof.
  intros Huri Hws Hexists Hstat.
  set (target := testPath (targetOf workspaceRoot sourcePath w)) in *.
  assert (Hfound : found target w = true).
  { unfold found. by rewrite Hstat. }
  set (w1 := record_call (ReadFile (pubspecPath workspaceRoot)) w).
  set (w2 := record_call (Stat target) w1).
  destruct (openExistingTestFile_run target w2)
    as (out & rest & Hrun & Hrest & Hgood).
  assert (Hbody :
    handleCreateTestCommand args w =
    match out with
    | Returned a =>
        (Returned a,
         mkWorld (files w) (directories w) (refused w)
           (trace w2 ++ OpenTextDocument target :: rest))
    | Thrown e =>
        (Returned tt,
         mkWorld (files w) (directories w) (refused w)
           (((trace w2 ++ OpenTextDocument target :: rest) ++
             [ConsoleError (js "Failed to create test file:") e]) ++
            [ShowErrorMessage (js "Failed to create test file: " ++ e)]))
    end).
  { unfold handleCreateTestCommand. rewrite Huri, Hws.
    unfold try_catch at 1.
    rewrite (io_bind_returned _ _ w _ _ (getPackageName_run workspaceRoot w)).
    fold (targetOf workspaceRoot sourcePath w). fold target. fold w1.
    rewrite (io_bind_returned _ _ w1 _ _ (fileExists_run target w1)).
    change (found target w1) with (found target w). rewrite Hfound.
    fold w2. rewrite Hrun.
    destruct out as [[]|e]; [reflexivity|].
    unfold mbind, io_mbind, io_bind, console_error, showErrorMessage,
      record_call.
    cbn [files directories refused trace]. reflexivity. }
  rewrite Hbody.
  assert (Htrace2 : trace w2 =
            trace w ++ [ReadFile (pubspecPath workspaceRoot); Stat target]).
  { unfold w2, w1, record_call. cbn [trace]. by rewrite <- app_assoc. }
  destruct out as [[]|e]; cbn [fst snd files directories trace].
  - split; [done|]. split; [done|]. split; [done|]. split; [done|].
    exists rest. split; [|split; [done|]].
    + rewrite Htrace2, <- app_assoc. reflexivity.
    + intros Ho Hf Hs. by destruct (Hgood Ho Hf Hs).
  - split; [done|]. split; [done|]. split; [done|]. split; [done|].
    exists (rest ++ [ConsoleError (js "Failed to create test file:") e;
                     ShowErrorMessage (js "Failed to create test file: " ++ e)]).
    split; [|split].
    + rewrite Htrace2, <- !app_assoc. reflexivity.
    + apply Forall_app. split; [done|by repeat constructor].
    + intros Ho Hf Hs. by destruct (Hgood Ho Hf Hs).
Qed.

Lemma existing_test_file_untouched_witness :
  files (snd (handleCreateTestCommand (H := example_host) example_args
                example_world))
  = files example_world.
Proof.
  apply (existing_test_file_untouched (H := example_host) example_args
           example_world (js "/proj/lib/models/user.dart") (js "/proj")).
  - reflexivity.
  - reflexivity.
  - vm_compute. reflexivity.
  - reflexivity.
Defined.

Example existing_test_file_run :
  trace (snd (handleCreateTestCommand (H := example_host) example_args
                example_world))
  = [ReadFile (js "/proj/pubspec.yaml");
     Stat (js "/proj/test/models/user_test.dart");
     OpenTextDocument (js "/proj/test/models/user_test.dart");
     ShowTextDocument (js "/proj/test/models/user_test.dart");
     ShowInformationMessage (js "Test file already exists: user_test.dart")].
Proof. vm_compute. reflexivity. Qed.

(** C8, amended: package-name resolution returns an identifier exactly when
    the text of the manifest has, at the start of a line, [name:], optional
    white space, an identifier of lowercase letters, digits and underscores
    that starts with a lowercase letter or an underscore, optional white
    space and the end of a line, where the white space may contain line
    breaks; it returns the identifier of the first such place.  A line of
    the form [name: <identifier>] is such a place.  When the manifest is
    absent or unreadable, or has no such place, resolution returns nothing
    and does not throw, and the path deriver then takes the relative import
    for a source under [lib]; in a workspace without a manifest the command
    creates the test file with the relative import. *)
Theorem package_name_resolution `{H : Host}
    (content workspaceRoot sourcePath : jsstring) (w : World) :
  (forall id,
     matchPackageName content = Some id <->
     exists pre,
       name_entry content pre id /\
       forall pre' id', name_entry content pre' id' ->
                        (length pre <= length pre')%nat) /\
  (matchPackageName content = None <->
     forall pre id, ~ name_entry content pre id) /\
  (forall pre lineText post id,
     content = pre ++ lineText ++ post -> line_start pre -> line_end post ->
     name_line lineText id ->
     exists id', matchPackageName content = Some id') /\
  getPackageName workspaceRoot w =
    (Returned (resolvedPackageName workspaceRoot w),
     record_call (ReadFile (pubspecPath workspaceRoot)) w) /\
  (files w !! pubspecPath workspaceRoot = None ->
     resolvedPackageName workspaceRoot w = None) /\
  (forall e, refused w (ReadFile (pubspecPath workspaceRoot)) = Some e ->
     resolvedPackageName workspaceRoot w = None) /\
  (forall bytes,
     refused w (ReadFile (pubspecPath workspaceRoot)) = None ->
     files w !! pubspecPath workspaceRoot = Some bytes ->
     resolvedPackageName workspaceRoot w = matchPackageName (utf8_decode bytes)) /\
  (resolvedPackageName workspaceRoot w = None ->
   isUnderLibDirectory (path.relative workspaceRoot sourcePath) = true ->
   importPath (targetOf workspaceRoot sourcePath w) =
     join_with (js "/")
       (split_on path.sep
          (path.relative
             (path.dirname
                (path.relative workspaceRoot
                   (testPath (targetOf workspaceRoot sourcePath w))))
             (path.relative workspaceRoot sourcePath)))) /\
  fst (handleCreateTestCommand (H := example_host) example_args bare_world)
    = Returned tt /\
  files (snd (handleCreateTestCommand (H := example_host) example_args
                bare_world))
    !! js "/proj/test/models/user_test.dart"
    = Some (utf8_encode (Host := example_host)
              (generateTestContent (js "User")
                 (js "../../lib/models/user.dart"))) /\
  trace (snd (handleCreateTestCommand (H := example_host) example_args
                bare_world))
    = [ReadFile (js "/proj/pubspec.yaml");
       Stat (js "/proj/test/models/user_test.dart");
       CreateDirectory (js "/proj/test/models");
       WriteFile (js "/proj/test/models/user_test.dart")
         (utf8_encode (Host := example_host)
            (generateTestContent (js "User") (js "../../lib/models/user.dart")));
       OpenTextDocument (js "/proj/test/models/user_test.dart");
       ShowTextDocument (js "/proj/test/models/user_test.dart");
       ShowInformationMessage
         (js "Created test: test/models/user_test.dart")].
Proof.
  split; [intros id; apply matchPackageName_some|].
  split; [apply matchPackageName_none|].
  split.
  { intros pre l post id -> Hs He (w1 & w2 & -> & Hw1 & Hid & Hw2).
    destruct (matchPackageName _) as [id'|] eqn:Hm; [by exists id'|].
    exfalso. apply (proj1 (matchPackageName_none _) Hm pre id).
    exists w1, w2, post. by rewrite <- !app_assoc. }
  split; [apply getPackageName_run|].
  split.
  { intros Hnone. unfold resolvedPackageName. rewrite Hnone.
    by destruct (refused w _). }
  split.
  { intros e He. unfold resolvedPackageName. by rewrite He. }
  split.
  { intros bytes Hr Hf. unfold resolvedPackageName. by rewrite Hr, Hf. }
  split.
  { intros Hnone Hlib. unfold targetOf. rewrite Hnone.
    unfold deriveTestFileInfo. rewrite Hlib. reflexivity. }
  split; [by vm_compute|]. split; by vm_compute.
Qed.

Lemma package_name_resolution_witness :
  matchPackageName (utf8_decode (Host := example_host)
                      (utf8_encode (Host := example_host)
                         (js "name: my_app" ++ [LF] ++ js "version: 1.0.0" ++ [LF])))
  = Some (js "my_app") /\
  resolvedPackageName (H := example_host) (js "/proj") example_world
  = Some (js "my_app").
Proof.
  split; [by vm_compute|].
  rewrite (proj1 (proj2 (proj2 (proj2 (proj2 (proj2 (proj2
             (package_name_resolution (H := example_host) [] (js "/proj")
                (js "/proj/lib/models/user.dart") example_world)))))))
             (utf8_encode (Host := example_host)
                (js "name: my_app" ++ [LF] ++ js "version: 1.0.0" ++ [LF])));
    by vm_compute.
Defined.

(** ** The runs of the create-test command *)

Ltac same_world :=
  unfold record_call, append_calls;
  cbn [files directories refused trace];
  rewrite <- ?app_assoc; reflexivity.

Section CommandRuns.
Context `{H : Host}.

Lemma append_calls_app (cs ds : list Call) (w : World) :
  append_calls ds (append_calls cs w) = append_calls (cs ++ ds) w.
Proof. unfold append_calls. cbn [files directories refused trace]. by rewrite app_assoc. Qed.

Lemma record_call_append (c : Call) (w : World) :
  record_call c w = append_calls [c] w.
Proof. reflexivity. Qed.

(** The [catch] of the command turns an error into its report. *)
Lemma try_report_run (c : IO unit) (w : World) :
  try_catch c
    (fun err =>
       console_error (js "Failed to create test file:") err ;;
       showErrorMessage (js "Failed to create test file: " ++ err)) w =
  match c w with
  | (Returned a, w') => (Returned a, w')
  | (Thrown e, w') => (Returned tt, append_calls (failure_report e) w')
  end.
Proof.
  unfold try_catch. destruct (c w) as [[a|e] w']; [reflexivity|].
  unfold mbind, io_mbind, io_bind, console_error, showErrorMessage.
  by rewrite !record_call_append, append_calls_app.
Qed.

Lemma ensureDirectoryExists_run (dirPath : jsstring) (w : World) :
  ensureDirectoryExists dirPath w =
  (Returned tt,
   mkWorld (files w) (directories_after_ensure dirPath w) (refused w)
     (trace w ++ [CreateDirectory dirPath])).
Proof.
  unfold ensureDirectoryExists, directories_after_ensure, try_catch,
    createDirectory, host_call, io_ret.
  destruct (refused w (CreateDirectory dirPath)); [reflexivity|].
  cbn [files record_call].
  destruct (files w !! dirPath); reflexivity.
Qed.

(** The four ways [openExistingTestFile] can run. *)
Lemma openExistingTestFile_cases (p : jsstring) (w : World) :
  openExistingTestFile p w =
  match refused w (OpenTextDocument p) with
  | Some e => (Thrown e, append_calls [OpenTextDocument p] w)
  | None =>
      match files w !! p with
      | None =>
          (Thrown (js "FileNotFound"), append_calls [OpenTextDocument p] w)
      | Some _ =>
          match refused w (ShowTextDocument p) with
          | Some e =>
              (Thrown e,
               append_calls [OpenTextDocument p; ShowTextDocument p] w)
          | None =>
              (Returned tt,
               append_calls
                 [OpenTextDocument p; ShowTextDocument p;
                  ShowInformationMessage
                    (js "Test file already exists: " ++
                     path.basename p None)] w)
          end
      end
  end.
Proof.
  unfold openExistingTestFile, openTextDocument, showTextDocument,
    showInformationMessage, host_call.
  unfold mbind, io_mbind, io_bind, io_ret.
  rewrite !record_call_append. cbn [files directories refused trace append_calls].
  destruct (refused w (OpenTextDocument p)); [reflexivity|].
  destruct (files w !! p); [|reflexivity].
  cbn [files directories refused trace append_calls].
  destruct (refused w (ShowTextDocument p)); same_world.
Qed.

(** The ways [createAndOpenTestFile] can run. *)
Lemma createAndOpenTestFile_cases (p content root : jsstring) (w : World) :
  createAndOpenTestFile p content root w =
  let bytes := utf8_encode content in
  match refused w (WriteFile p bytes) with
  | Some e => (Thrown e, append_calls [WriteFile p bytes] w)
  | None =>
      if bool_decide (p ∈ directories w)
      then (Thrown (js "FileIsADirectory"),
            append_calls [WriteFile p bytes] w)
      else
        let written :=
          mkWorld (<[p := bytes]> (files w))
            (list_to_set
               (ancestors (length (path.dirname p)) (path.dirname p))
             ∪ directories w)
            (refused w) (trace w) in
        match refused w (OpenTextDocument p) with
        | Some e =>
            (Thrown e,
             append_calls [WriteFile p bytes; OpenTextDocument p] written)
        | None =>
            match refused w (ShowTextDocument p) with
            | Some e =>
                (Thrown e,
                 append_calls
                   [WriteFile p bytes; OpenTextDocument p;
                    ShowTextDocument p] written)
            | None =>
                (Returned tt,
                 append_calls
                   [WriteFile p bytes; OpenTextDocument p;
                    ShowTextDocument p;
                    ShowInformationMessage
                      (js "Created test: " ++ path.relative root p)]
                   written)
            end
        end
  end.
Proof.
  unfold createAndOpenTestFile, writeFile, openTextDocument, showTextDocument,
    showInformationMessage, host_call, with_directories.
  unfold mbind, io_mbind, io_bind, io_ret.
  cbn zeta. unfold record_call, append_calls.
  cbn [files directories refused trace].
  destruct (refused w (WriteFile p (utf8_encode content))); [reflexivity|].
  destruct (bool_decide (p ∈ directories w)); [reflexivity|].
  cbn [files directories refused trace].
  destruct (refused w (OpenTextDocument p)).
  { same_world. }
  rewrite lookup_insert_eq. cbn [files directories refused trace].
  destruct (refused w (ShowTextDocument p)); same_world.
Qed.

Lemma handle_no_uri (args : ClassInfo) (w : World) :
  uri_fsPath (uri args) = None ->
  handleCreateTestCommand args w =
  (Returned tt, append_calls (failure_report (js "UriError")) w).
Proof.
  intros Huri. unfold handleCreateTestCommand.
  rewrite try_report_run, Huri. reflexivity.
Qed.

Lemma handle_no_workspace (args : ClassInfo) (w : World) (sourcePath : jsstring) :
  uri_fsPath (uri args) = Some sourcePath ->
  workspaceFolderOf (uri args) = None ->
  handleCreateTestCommand args w =
  (Returned tt,
   append_calls [ShowErrorMessage (js "File is not in a workspace folder")] w).
Proof.
  intros Huri Hws. unfold handleCreateTestCommand.
  rewrite try_report_run, Huri, Hws. reflexivity.
Qed.

Lemma handle_found (args : ClassInfo) (w : World)
    (sourcePath workspaceRoot : jsstring) :
  uri_fsPath (uri args) = Some sourcePath ->
  workspaceFolderOf (uri args) = Some workspaceRoot ->
  found (testPath (targetOf workspaceRoot sourcePath w)) w = true ->
  handleCreateTestCommand args w =
  match openExistingTestFile (testPath (targetOf workspaceRoot sourcePath w))
          (append_calls
             [ReadFile (pubspecPath workspaceRoot);
              Stat (testPath (targetOf workspaceRoot sourcePath w))] w) with
  | (Returned a, w') => (Returned a, w')
  | (Thrown e, w') => (Returned tt, append_calls (failure_report e) w')
  end.
Proof.
  intros Huri Hws Hfound. unfold handleCreateTestCommand.
  rewrite try_report_run, Huri, Hws.
  rewrite (io_bind_returned _ _ w _ _ (getPackageName_run workspaceRoot w)).
  fold (targetOf workspaceRoot sourcePath w).
  rewrite (io_bind_returned _ _ _ _ _ (fileExists_run _ _)).
  change (found ?p (record_call ?c w)) with (found p w). rewrite Hfound.
  replace (record_call (Stat (testPath (targetOf workspaceRoot sourcePath w)))
             (record_call (ReadFile (pubspecPath workspaceRoot)) w))
    with (append_calls
            [ReadFile (pubspecPath workspaceRoot);
             Stat (testPath (targetOf workspaceRoot sourcePath w))] w)
    by same_world.
  reflexivity.
Qed.

Lemma handle_missing (args : ClassInfo) (w : World)
    (sourcePath workspaceRoot : jsstring) :
  uri_fsPath (uri args) = Some sourcePath ->
  workspaceFolderOf (uri args) = Some workspaceRoot ->
  found (testPath (targetOf workspaceRoot sourcePath w)) w = false ->
  handleCreateTestCommand args w =
  match createAndOpenTestFile (testPath (targetOf workspaceRoot sourcePath w))
          (generateTestContent (className args)
             (importPath (targetOf workspaceRoot sourcePath w)))
          workspaceRoot
          (mkWorld (files w)
             (directories_after_ensure
                (path.dirname (testPath (targetOf workspaceRoot sourcePath w)))
                w)
             (refused w)
             (trace w ++
              [ReadFile (pubspecPath workspaceRoot);
               Stat (testPath (targetOf workspaceRoot sourcePath w));
               CreateDirectory
                 (path.dirname
                    (testPath (targetOf workspaceRoot sourcePath w)))])) with
  | (Returned a, w') => (Returned a, w')
  | (Thrown e, w') => (Returned tt, append_calls (failure_report e) w')
  end.
Proof.
  intros Huri Hws Hfound. unfold handleCreateTestCommand.
  rewrite try_report_run, Huri, Hws.
  rewrite (io_bind_returned _ _ w _ _ (getPackageName_run workspaceRoot w)).
  fold (targetOf workspaceRoot sourcePath w).
  rewrite (io_bind_returned _ _ _ _ _ (fileExists_run _ _)).
  change (found ?p (record_call ?c w)) with (found p w). rewrite Hfound.
  rewrite (io_bind_returned _ _ _ _ _ (ensureDirectoryExists_run _ _)).
  match goal with
  | |- context [createAndOpenTestFile _ _ _ ?a] =>
      match goal with
      | |- _ = match createAndOpenTestFile _ _ _ ?b with _ => _ end =>
          replace a with b; [reflexivity|]
      end
  end.
  unfold record_call, directories_after_ensure.
  cbn [files directories refused trace]. by rewrite <- ?app_assoc.
Qed.

End CommandRuns.

Ltac one_notice :=
  cbn [fst snd append_calls files directories refused trace failure_report];
  (split; [done|]); (split; [done|]); rewrite <- ?app_assoc; cbn [app];
  eexists _, _;
  (split; [apply (f_equal (app (trace _)));
           (etransitivity;
              [apply (app_removelast_last (Stat [])); done
              |cbn [removelast last]; reflexivity])|]);
  (split; [done|]); by repeat constructor.

(** X1: the command never throws and always ends by telling the user
    something.  Whatever the argument and the world, the run returns, the
    calls it makes come after those made before, and exactly one of them is
    a notice (an information or an error message), which is the last call;
    what the host refuses stays the same. *)
Theorem command_ends_with_one_notice `{H : Host}
    (args : ClassInfo) (w : World) :
  fst (handleCreateTestCommand args w) = Returned tt /\
  refused (snd (handleCreateTestCommand args w)) = refused w /\
  exists calls notice,
    trace (snd (handleCreateTestCommand args w)) =
      trace w ++ calls ++ [notice] /\
    is_notification notice = true /\
    Forall (fun c => is_notification c = false) calls.
Proof.
  destruct (uri_fsPath (uri args)) as [sourcePath|] eqn:Huri.
  2:{ rewrite (handle_no_uri args w Huri). cbn [fst snd append_calls refused trace].
      split; [done|]. split; [done|].
      exists [ConsoleError (js "Failed to create test file:") (js "UriError")],
        (ShowErrorMessage (js "Failed to create test file: " ++ js "UriError")).
      split; [done|]. split; [done|]. by repeat constructor. }
  destruct (workspaceFolderOf (uri args)) as [workspaceRoot|] eqn:Hws.
  2:{ rewrite (handle_no_workspace args w sourcePath Huri Hws).
      cbn [fst snd append_calls refused trace].
      split; [done|]. split; [done|].
      exists [], (ShowErrorMessage (js "File is not in a workspace folder")).
      split; [done|]. split; [done|]. constructor. }
  set (target := testPath (targetOf workspaceRoot sourcePath w)).
  destruct (found target w) eqn:Hfound.
  - rewrite (handle_found args w sourcePath workspaceRoot Huri Hws Hfound).
    fold target. rewrite openExistingTestFile_cases.
    cbn [append_calls files directories refused trace].
    destruct (refused w (OpenTextDocument target)); [one_notice|].
    destruct (files w !! target); [|one_notice].
    destruct (refused w (ShowTextDocument target)); one_notice.
  - rewrite (handle_missing args w sourcePath workspaceRoot Huri Hws Hfound).
    fold target. rewrite createAndOpenTestFile_cases.
    cbn zeta. cbn [append_calls files directories refused trace].
    destruct (refused w (WriteFile target _)); [one_notice|].
    destruct (bool_decide _); [one_notice|].
    destruct (refused w (OpenTextDocument target)); [one_notice|].
    destruct (refused w (ShowTextDocument target)); one_notice.
Qed.

Section CommandFacts.
Context `{H : Host}.

(** The run that creates the test file. *)
Lemma handle_creates (args : ClassInfo) (w : World)
    (sourcePath workspaceRoot : jsstring) :
  let target := testPath (targetOf workspaceRoot sourcePath w) in
  let bytes := generatedBytes args workspaceRoot sourcePath w in
  uri_fsPath (uri args) = Some sourcePath ->
  workspaceFolderOf (uri args) = Some workspaceRoot ->
  found target w = false ->
  target ∉ directories_after_ensure (path.dirname target) w ->
  refused w (WriteFile target bytes) = None ->
  refused w (OpenTextDocument target) = None ->
  refused w (ShowTextDocument target) = None ->
  handleCreateTestCommand args w =
  (Returned tt,
   mkWorld (<[target := bytes]> (files w))
     (list_to_set
        (ancestors (length (path.dirname target)) (path.dirname target))
      ∪ directories_after_ensure (path.dirname target) w)
     (refused w)
     (trace w ++
      [ReadFile (pubspecPath workspaceRoot);
       Stat target;
       CreateDirectory (path.dirname target);
       WriteFile target bytes;
       OpenTextDocument target;
       ShowTextDocument target;
       ShowInformationMessage
         (js "Created test: " ++ path.relative workspaceRoot target)])).
Proof.
  intros target bytes Huri Hws Hfound Hdir Hwrite Hopen Hshow.
  rewrite (handle_missing args w sourcePath workspaceRoot Huri Hws Hfound).
  fold target. rewrite createAndOpenTestFile_cases.
  cbn zeta. cbn [append_calls files directories refused trace].
  fold (generatedBytes args workspaceRoot sourcePath w). fold bytes.
  rewrite Hwrite, Hopen, Hshow.
  rewrite bool_decide_eq_false_2 by done.
  same_world.
Qed.

End CommandFacts.

(** X2: the command changes no file but its target, removes none and
    removes no directory.  After any run the files are those before, or
    those before with the generated bytes at the derived test path, which
    happens only when the existence check found nothing there. *)
Theorem command_writes_only_its_target `{H : Host}
    (args : ClassInfo) (w : World) :
  (files (snd (handleCreateTestCommand args w)) = files w \/
   exists sourcePath workspaceRoot,
     uri_fsPath (uri args) = Some sourcePath /\
     workspaceFolderOf (uri args) = Some workspaceRoot /\
     found (testPath (targetOf workspaceRoot sourcePath w)) w = false /\
     files (snd (handleCreateTestCommand args w)) =
       <[testPath (targetOf workspaceRoot sourcePath w) :=
           generatedBytes args workspaceRoot sourcePath w]> (files w)) /\
  (forall p bytes, files w !! p = Some bytes ->
     is_Some (files (snd (handleCreateTestCommand args w)) !! p)) /\
  directories w ⊆ directories (snd (handleCreateTestCommand args w)).
Proof.
  assert (Hmain :
    (files (snd (handleCreateTestCommand args w)) = files w \/
     exists sourcePath workspaceRoot,
       uri_fsPath (uri args) = Some sourcePath /\
       workspaceFolderOf (uri args) = Some workspaceRoot /\
       found (testPath (targetOf workspaceRoot sourcePath w)) w = false /\
       files (snd (handleCreateTestCommand args w)) =
         <[testPath (targetOf workspaceRoot sourcePath w) :=
             generatedBytes args workspaceRoot sourcePath w]> (files w)) /\
    directories w ⊆ directories (snd (handleCreateTestCommand args w))).
  { destruct (uri_fsPath (uri args)) as [sourcePath|] eqn:Huri.
    2:{ rewrite (handle_no_uri args w Huri). split; [by left|done]. }
    destruct (workspaceFolderOf (uri args)) as [workspaceRoot|] eqn:Hws.
    2:{ rewrite (handle_no_workspace args w sourcePath Huri Hws).
        split; [by left|done]. }
    set (target := testPath (targetOf workspaceRoot sourcePath w)).
    destruct (found target w) eqn:Hfound.
    - rewrite (handle_found args w sourcePath workspaceRoot Huri Hws Hfound).
      fold target. rewrite openExistingTestFile_cases.
      cbn [append_calls files directories refused trace].
      destruct (refused w (OpenTextDocument target)); [split; [by left|done]|].
      destruct (files w !! target); [|split; [by left|done]].
      destruct (refused w (ShowTextDocument target)); (split; [by left|done]).
    - rewrite (handle_missing args w sourcePath workspaceRoot Huri Hws Hfound).
      fold target. rewrite createAndOpenTestFile_cases.
      cbn zeta. cbn [append_calls files directories refused trace].
      fold (generatedBytes args workspaceRoot sourcePath w).
      assert (Hsub : directories w ⊆
                directories_after_ensure (path.dirname target) w).
      { unfold directories_after_ensure.
        destruct (refused w (CreateDirectory _)); [done|].
        destruct (files w !! path.dirname target); [done|].
        apply union_subseteq_r. }
      destruct (refused w (WriteFile target _)); [split; [by left|done]|].
      destruct (bool_decide _); [split; [by left|done]|].
      assert (Hsub' : directories w ⊆
                list_to_set
                  (ancestors (length (path.dirname target))
                     (path.dirname target))
                ∪ directories_after_ensure (path.dirname target) w).
      { etransitivity; [exact Hsub|apply union_subseteq_r]. }
      destruct (refused w (OpenTextDocument target)).
      { split; [right; by exists sourcePath, workspaceRoot|done]. }
      destruct (refused w (ShowTextDocument target));
        (split; [right; by exists sourcePath, workspaceRoot|done]). }
  destruct Hmain as [Hfiles Hdirs]. split; [exact Hfiles|]. split; [|exact Hdirs].
  intros p bytes Hp.
  destruct Hfiles as [->|(sourcePath & workspaceRoot & _ & _ & _ & ->)]; [by eexists|].
  destruct (decide (testPath (targetOf workspaceRoot sourcePath w) = p)) as [->|Hne].
  - rewrite lookup_insert_eq. by eexists.
  - rewrite lookup_insert_ne by done. by eexists.
Qed.

(** X3: without a source path or a workspace folder the command touches
    nothing.  When the URI of the argument cannot be parsed the error is
    logged and shown; when the source is in no workspace folder the message
    [File is not in a workspace folder] is shown; in both cases no call is
    made to the file system, and files and directories stay as they were. *)
Theorem unresolved_source_touches_nothing `{H : Host}
    (args : ClassInfo) (w : World) :
  uri_fsPath (uri args) = None \/ workspaceFolderOf (uri args) = None ->
  files (snd (handleCreateTestCommand args w)) = files w /\
  directories (snd (handleCreateTestCommand args w)) = directories w /\
  ((uri_fsPath (uri args) = None /\
    exists err,
      trace (snd (handleCreateTestCommand args w)) =
        trace w ++ failure_report err) \/
   (is_Some (uri_fsPath (uri args)) /\
    trace (snd (handleCreateTestCommand args w)) =
      trace w ++ [ShowErrorMessage (js "File is not in a workspace folder")])).
Proof.
  intros Hnone.
  destruct (uri_fsPath (uri args)) as [sourcePath|] eqn:Huri.
  - destruct Hnone as [?|Hws]; [done|].
    rewrite (handle_no_workspace args w sourcePath Huri Hws).
    split; [done|]. split; [done|]. right. split; [by eexists|done].
  - rewrite (handle_no_uri args w Huri).
    split; [done|]. split; [done|]. left. split; [done|by eexists].
Qed.

Lemma unresolved_source_touches_nothing_witness :
  files (snd (handleCreateTestCommand (H := example_host)
                (mkClassInfo (js "file:///elsewhere/a.dart") (js "A"))
                example_world))
  = files example_world.
Proof.
  apply (unresolved_source_touches_nothing (H := example_host)
           (mkClassInfo (js "file:///elsewhere/a.dart") (js "A"))
           example_world).
  right. reflexivity.
Defined.

(** X4: a missing test file is created with the generated content.  When
    the existence check finds nothing at the derived test path, the path is
    not a directory once its parent has been ensured, and the host lets the
    write, the opening and the showing through, the command returns, the
    target holds the encoded output of the generator for the class name and
    the derived import path, every other file is as before, and the calls
    are: read the manifest, stat the target, create its directory, write
    it, open it, show it, and the notice [Created test:] with the path
    relative to the workspace root. *)
Theorem missing_test_file_is_created `{H : Host}
    (args : ClassInfo) (w : World) (sourcePath workspaceRoot : jsstring) :
  let target := testPath (targetOf workspaceRoot sourcePath w) in
  let bytes := generatedBytes args workspaceRoot sourcePath w in
  uri_fsPath (uri args) = Some sourcePath ->
  workspaceFolderOf (uri args) = Some workspaceRoot ->
  found target w = false ->
  target ∉ directories_after_ensure (path.dirname target) w ->
  refused w (WriteFile target bytes) = None ->
  refused w (OpenTextDocument target) = None ->
  refused w (ShowTextDocument target) = None ->
  fst (handleCreateTestCommand args w) = Returned tt /\
  files (snd (handleCreateTestCommand args w)) !! target = Some bytes /\
  (forall p, p ≠ target ->
     files (snd (handleCreateTestCommand args w)) !! p = files w !! p) /\
  trace (snd (handleCreateTestCommand args w)) =
    trace w ++
    [ReadFile (pubspecPath workspaceRoot);
     Stat target;
     CreateDirectory (path.dirname target);
     WriteFile target bytes;
     OpenTextDocument target;
     ShowTextDocument target;
     ShowInformationMessage
       (js "Created test: " ++ path.relative workspaceRoot target)].
Proof.
  intros target bytes Huri Hws Hfound Hdir Hwrite Hopen Hshow.
  rewrite (handle_creates args w sourcePath workspaceRoot
             Huri Hws Hfound Hdir Hwrite Hopen Hshow).
  fold target bytes. cbn [fst snd files trace].
  split; [done|]. split; [by rewrite lookup_insert_eq|]. split; [|done].
  intros p Hp. by rewrite lookup_insert_ne.
Qed.

Lemma missing_test_file_is_created_witness :
  files (snd (handleCreateTestCommand (H := example_host) example_args
                bare_world))
    !! js "/proj/test/models/user_test.dart"
  = Some (utf8_encode (Host := example_host)
            (generateTestContent (js "User")
               (js "../../lib/models/user.dart"))).
Proof.
  apply (missing_test_file_is_created (H := example_host) example_args
           bare_world (js "/proj/lib/models/user.dart") (js "/proj")).
  - reflexivity.
  - reflexivity.
  - vm_compute. reflexivity.
  - decide_by_computation.
  - reflexivity.
  - reflexivity.
  - reflexivity.
Defined.

(** X5: a refused write is reported and leaves no file.  When the
    existence check finds nothing at the derived test path and the host
    refuses the write with an error, the command returns without throwing,
    the files are as before, and after the write the error is logged and
    shown as [Failed to create test file:] followed by the error; the
    directory of the target has been asked for all the same. *)
Theorem refused_write_is_reported `{H : Host}
    (args : ClassInfo) (w : World) (sourcePath workspaceRoot err : jsstring) :
  let target := testPath (targetOf workspaceRoot sourcePath w) in
  let bytes := generatedBytes args workspaceRoot sourcePath w in
  uri_fsPath (uri args) = Some sourcePath ->
  workspaceFolderOf (uri args) = Some workspaceRoot ->
  found target w = false ->
  refused w (WriteFile target bytes) = Some err ->
  fst (handleCreateTestCommand args w) = Returned tt /\
  files (snd (handleCreateTestCommand args w)) = files w /\
  directories (snd (handleCreateTestCommand args w)) =
    directories_after_ensure (path.dirname target) w /\
  trace (snd (handleCreateTestCommand args w)) =
    trace w ++
    [ReadFile (pubspecPath workspaceRoot);
     Stat target;
     CreateDirectory (path.dirname target);
     WriteFile target bytes;
     ConsoleError (js "Failed to create test file:") err;
     ShowErrorMessage (js "Failed to create test file: " ++ err)].
Proof.
  intros target bytes Huri Hws Hfound Hwrite.
  rewrite (handle_missing args w sourcePath workspaceRoot Huri Hws Hfound).
  fold target. rewrite createAndOpenTestFile_cases.
  cbn zeta. cbn [append_calls files directories refused trace].
  fold (generatedBytes args workspaceRoot sourcePath w). fold bytes.
  rewrite Hwrite. unfold append_calls, failure_report.
  cbn [fst snd files directories refused trace].
  split; [done|]. split; [done|]. split; [done|].
  by rewrite <- !app_assoc.
Qed.

Lemma refused_write_is_reported_witness :
  files (snd (handleCreateTestCommand (H := example_host) example_args
                read_only_world))
  = files read_only_world.
Proof.
  apply (refused_write_is_reported (H := example_host) example_args
           read_only_world (js "/proj/lib/models/user.dart") (js "/proj")
           (js "NoPermissions")).
  - reflexivity.
  - reflexivity.
  - vm_compute. reflexivity.
  - reflexivity.
Defined.

(** X6: a failure after the write does not undo it.  When the write goes
    through and the host then refuses to open the new file, the command
    returns, logs and shows the error, and the target holds the generated
    bytes. *)
Theorem failed_open_keeps_created_file `{H : Host}
    (args : ClassInfo) (w : World) (sourcePath workspaceRoot err : jsstring) :
  let target := testPath (targetOf workspaceRoot sourcePath w) in
  let bytes := generatedBytes args workspaceRoot sourcePath w in
  uri_fsPath (uri args) = Some sourcePath ->
  workspaceFolderOf (uri args) = Some workspaceRoot ->
  found target w = false ->
  target ∉ directories_after_ensure (path.dirname target) w ->
  refused w (WriteFile target bytes) = None ->
  refused w (OpenTextDocument target) = Some err ->
  fst (handleCreateTestCommand args w) = Returned tt /\
  files (snd (handleCreateTestCommand args w)) = <[target := bytes]> (files w) /\
  trace (snd (handleCreateTestCommand args w)) =
    trace w ++
    [ReadFile (pubspecPath workspaceRoot);
     Stat target;
     CreateDirectory (path.dirname target);
     WriteFile target bytes;
     OpenTextDocument target;
     ConsoleError (js "Failed to create test file:") err;
     ShowErrorMessage (js "Failed to create test file: " ++ err)].
Proof.
  intros target bytes Huri Hws Hfound Hdir Hwrite Hopen.
  rewrite (handle_missing args w sourcePath workspaceRoot Huri Hws Hfound).
  fold target. rewrite createAndOpenTestFile_cases.
  cbn zeta. cbn [append_calls files directories refused trace].
  fold (generatedBytes args workspaceRoot sourcePath w). fold bytes.
  rewrite Hwrite, Hopen. rewrite bool_decide_eq_false_2 by done.
  unfold append_calls, failure_report.
  cbn [fst snd files directories refused trace].
  split; [done|]. split; [done|].
  by rewrite <- !app_assoc.
Qed.

Lemma failed_open_keeps_created_file_witness :
  files (snd (handleCreateTestCommand (H := example_host) example_args
                headless_world))
  = <[ js "/proj/test/models/user_test.dart" :=
         utf8_encode (Host := example_host)
           (generateTestContent (js "User")
              (js "../../lib/models/user.dart")) ]>
      (files headless_world).
Proof.
  apply (failed_open_keeps_created_file (H := example_host) example_args
           headless_world (js "/proj/lib/models/user.dart") (js "/proj")
           (js "CannotOpen")).
  - reflexivity.
  - reflexivity.
  - vm_compute. reflexivity.
  - decide_by_computation.
  - reflexivity.
  - reflexivity.
Defined.

(** X7: on a host that answers the [stat] of the existence check and lets
    the write, the opening and the showing of the target through, a second
    run does not write again.  When nothing is at the derived test path, the
    path is not a directory once its parent has been ensured, and it is not
    the manifest, the first run creates the test file, and a second run with
    the same argument in the world the first one left finds the file, opens
    it and writes nothing: the files after the second run are those after
    the first, and its calls are the read of the manifest, the stat, the
    opening, the showing and the notice [Test file already exists:].  On a
    host whose [stat] throws the second run writes again, as the example
    after the theorem shows. *)
Theorem second_run_keeps_created_file `{H : Host}
    (args : ClassInfo) (w : World) (sourcePath workspaceRoot : jsstring) :
  let target := testPath (targetOf workspaceRoot sourcePath w) in
  let bytes := generatedBytes args workspaceRoot sourcePath w in
  let w' := snd (handleCreateTestCommand args w) in
  uri_fsPath (uri args) = Some sourcePath ->
  workspaceFolderOf (uri args) = Some workspaceRoot ->
  refused w (Stat target) = None ->
  path_exists target w = false ->
  target ∉ directories_after_ensure (path.dirname target) w ->
  refused w (WriteFile target bytes) = None ->
  refused w (OpenTextDocument target) = None ->
  refused w (ShowTextDocument target) = None ->
  target ≠ pubspecPath workspaceRoot ->
  files (snd (handleCreateTestCommand args w')) = files w' /\
  files w' !! target = Some bytes /\
  trace (snd (handleCreateTestCommand args w')) =
    trace w' ++
    [ReadFile (pubspecPath workspaceRoot);
     Stat target;
     OpenTextDocument target;
     ShowTextDocument target;
     ShowInformationMessage
       (js "Test file already exists: " ++ path.basename target None)].
Proof.
  intros target bytes w' Huri Hws Hstat Hexists Hdir Hwrite Hopen Hshow Hne.
  assert (Hfound : found target w = false).
  { unfold found. by rewrite Hstat. }
  assert (Hw' : w' = _) by
    exact (f_equal snd (handle_creates args w sourcePath workspaceRoot
             Huri Hws Hfound Hdir Hwrite Hopen Hshow)).
  cbn [snd] in Hw'. fold target bytes in Hw'.
  assert (Hname : resolvedPackageName workspaceRoot w' =
                  resolvedPackageName workspaceRoot w).
  { unfold resolvedPackageName. rewrite Hw'. cbn [files refused].
    by rewrite lookup_insert_ne. }
  assert (Htarget : testPath (targetOf workspaceRoot sourcePath w') = target).
  { unfold targetOf. by rewrite Hname. }
  assert (Hfound' : found (testPath (targetOf workspaceRoot sourcePath w')) w'
                    = true).
  { rewrite Htarget. unfold found, path_exists. rewrite Hw'.
    cbn [files refused directories]. rewrite Hstat, lookup_insert_eq.
    rewrite bool_decide_eq_true_2 by by eexists. done. }
  rewrite (handle_found args w' sourcePath workspaceRoot Huri Hws Hfound').
  rewrite Htarget, openExistingTestFile_cases.
  cbn [append_calls files directories refused trace].
  assert (Hfile : files w' !! target = Some bytes).
  { rewrite Hw'. cbn [files]. by rewrite lookup_insert_eq. }
  assert (Hrefused : refused w' = refused w) by by rewrite Hw'.
  rewrite Hrefused, Hopen, Hfile, Hshow.
  unfold append_calls.
  cbn [fst snd files directories refused trace].
  split; [done|]. split; [done|]. by rewrite <- app_assoc.
Qed.

Lemma second_run_keeps_created_file_witness :
  let w' := snd (handleCreateTestCommand (H := example_host) example_args
                   bare_world) in
  files (snd (handleCreateTestCommand (H := example_host) example_args w'))
  = files w'.
Proof.
  apply (second_run_keeps_created_file (H := example_host) example_args
           bare_world (js "/proj/lib/models/user.dart") (js "/proj")).
  - reflexivity.
  - reflexivity.
  - reflexivity.
  - vm_compute. reflexivity.
  - decide_by_computation.
  - reflexivity.
  - reflexivity.
  - reflexivity.
  - decide_by_computation.
Defined.

(** The answer of [stat] is needed: on the host whose [stat] throws, the
    second run takes the test file for missing and creates it again. *)
Example second_run_writes_again_when_stat_throws :
  trace (snd (handleCreateTestCommand (H := example_host) example_args
                (snd (handleCreateTestCommand (H := example_host) example_args
                        stat_failing_world))))
  = trace (snd (handleCreateTestCommand (H := example_host) example_args
                  stat_failing_world)) ++
    [ReadFile (js "/proj/pubspec.yaml");
     Stat (js "/proj/test/models/user_test.dart");
     CreateDirectory (js "/proj/test/models");
     WriteFile (js "/proj/test/models/user_test.dart")
       (utf8_encode (Host := example_host)
          (generateTestContent (js "User")
             (js "package:my_app/models/user.dart")));
     OpenTextDocument (js "/proj/test/models/user_test.dart");
     ShowTextDocument (js "/proj/test/models/user_test.dart");
     ShowInformationMessage (js "Created test: test/models/user_test.dart")].
Proof. vm_compute. reflexivity. Qed.

(** ** The lenses of a document *)

Lemma lensOfLine_shape documentUri i lineText lens :
  lensOfLine documentUri i lineText = Some lens ->
  exists whole name rest,
    lens = lensFor documentUri i whole name /\
    lineText = whole ++ rest /\
    (exists head, whole = head ++ name /\ class_head head) /\
    identifier name /\ ends_identifier rest.
Proof.
  intros (head & c & rest & -> & Hhead & Hc & ->)%lensOfLine_some.
  exists (head ++ c :: take_while ident_char rest),
    (c :: take_while ident_char rest), (drop (length (take_while ident_char rest)) rest).
  split; [done|]. split.
  { rewrite <- app_assoc. cbn [app]. by rewrite <- (take_while_drop ident_char rest). }
  split; [by exists head|]. split.
  - exists c, (take_while ident_char rest). split; [done|]. split; [done|].
    clear. induction rest as [|d rest IH]; cbn [take_while]; [constructor|].
    destruct (ident_char d) eqn:Hd; [by constructor|constructor].
  - clear. induction rest as [|d rest IH]; cbn [take_while]; [done|].
    destruct (ident_char d) eqn:Hd; [exact IH|exact Hd].
Qed.

Lemma lensesFrom_order documentUri (lines : list jsstring) :
  forall i0,
    (forall lens, lens ∈ lensesFrom documentUri i0 lines ->
       (i0 <= lens_line lens < i0 + length lines)%nat) /\
    (forall j k lens1 lens2,
       lensesFrom documentUri i0 lines !! j = Some lens1 ->
       lensesFrom documentUri i0 lines !! k = Some lens2 ->
       (j < k)%nat -> (lens_line lens1 < lens_line lens2)%nat) /\
    (length (lensesFrom documentUri i0 lines) <= length lines)%nat.
Proof.
  induction lines as [|l lines IH]; intros i0; cbn [lensesFrom].
  - split; [by intros ? ?%elem_of_nil|]. split; [by intros [] ? ? ?|done].
  - destruct (IH (S i0)) as (Hrange & Hsorted & Hlen).
    destruct (lensOfLine documentUri i0 l) as [lens0|] eqn:Hl0.
    + pose proof (lensOfLine_at _ _ _ _ Hl0) as Hat. unfold lens_at in Hat.
      split; [|split].
      * intros lens [->|Hin]%elem_of_cons.
        -- unfold lens_line. rewrite Hat. cbn [length]. lia.
        -- apply Hrange in Hin. cbn [length]. lia.
      * intros j k lens1 lens2 Hj Hk Hjk.
        destruct k as [|k]; [lia|]. cbn in Hk.
        destruct j as [|j].
        -- injection Hj as <-. unfold lens_line at 1. rewrite Hat.
           assert (lens2 ∈ lensesFrom documentUri (S i0) lines)
             by (by eapply list_elem_of_lookup_2).
           apply Hrange in H. lia.
        -- cbn in Hj. apply (Hsorted j k); [done|done|lia].
      * cbn [length]. lia.
    + split; [|split].
      * intros lens Hin. apply Hrange in Hin. cbn [length]. lia.
      * exact Hsorted.
      * cbn [length]. lia.
Qed.

(** X8: what the matcher returns is well formed and in line order.  Every
    lens is the lens of a line of the document: it starts at column 0 of
    that line and ends after the class name, on text that is a prefix of
    the line, it carries the document's URI and an identifier as the class
    name, and the command of the extension with the title and tooltip of
    the source.  The lenses come in increasing line order, so no line has
    two, and there are no more lenses than lines. *)
Theorem lenses_well_formed_in_line_order (documentUri text : jsstring) :
  (forall lens, lens ∈ provideCodeLenses documentUri text ->
     exists lineText whole name rest,
       split_regex LINE_BREAK text !! lens_line lens = Some lineText /\
       lineText = whole ++ rest /\
       (exists head, whole = head ++ name /\ class_head head) /\
       identifier name /\ ends_identifier rest /\
       range lens =
         mkRange (mkPosition (lens_line lens) 0)
                 (mkPosition (lens_line lens) (length whole)) /\
       lens_command lens =
         mkCommand (js "$(beaker) Create test file")
                   (js "Create test file for " ++ name)
                   COMMAND_ID
                   [mkClassInfo documentUri name]) /\
  (forall j k lens1 lens2,
     provideCodeLenses documentUri text !! j = Some lens1 ->
     provideCodeLenses documentUri text !! k = Some lens2 ->
     (j < k)%nat -> (lens_line lens1 < lens_line lens2)%nat) /\
  (length (provideCodeLenses documentUri text)
   <= length (split_regex LINE_BREAK text))%nat.
Proof.
  destruct (lensesFrom_order documentUri (split_regex LINE_BREAK text) 0)
    as (_ & Hsorted & Hlen).
  split; [|split; [exact Hsorted|exact Hlen]].
  intros lens Hin. unfold provideCodeLenses in Hin.
  apply lensesFrom_elem in Hin as (j & lineText & Hj & Hl).
  cbn [Nat.add] in Hl.
  destruct (lensOfLine_shape _ _ _ _ Hl)
    as (whole & name & rest & -> & Hline & Hhead & Hname & Hrest).
  exists lineText, whole, name, rest.
  unfold lens_line, lensFor. cbn [range range_start range_end line lens_command].
  done.
Qed.

(** ** The name and the extension of a source file *)

Lemma after_last_dot_none (f : jsstring) :
  after_last_dot f = None -> DOT ∉ f.
Proof.
  induction f as [|c f IH]; cbn [after_last_dot]; [intros _; apply not_elem_of_nil|].
  destruct (after_last_dot f); [discriminate|].
  destruct (N.eqb_spec c DOT); [discriminate|]. intros _.
  apply not_elem_of_cons. split; [congruence|by apply IH].
Qed.

Lemma after_last_dot_some (f b : jsstring) :
  after_last_dot f = Some b -> exists a, f = a ++ DOT :: b /\ (DOT ∉ b).
Proof.
  revert b. induction f as [|c f IH]; intros b; cbn [after_last_dot]; [discriminate|].
  destruct (after_last_dot f) as [b'|] eqn:Hf.
  - intros [= <-]. destruct (IH b' eq_refl) as (a & -> & Hb).
    by exists (c :: a).
  - destruct (N.eqb_spec c DOT) as [->|]; [|discriminate].
    intros [= <-]. exists []. split; [done|by apply after_last_dot_none].
Qed.

Lemma file_stem_ext (f : jsstring) : file_stem f ++ file_ext f = f.
Proof.
  unfold file_stem, file_ext.
  destruct (after_last_dot f) as [b|] eqn:Hf.
  - apply after_last_dot_some in Hf as (a & -> & _).
    rewrite length_app. cbn [length].
    destruct (Nat.ltb_spec (S (length b)) (length a + S (length b))).
    + cbn [length].
      replace (length a + S (length b) - S (length b))%nat with (length a) by lia.
      by rewrite take_app_length.
    + cbn [length]. rewrite Nat.sub_0_r.
      rewrite <- (length_app a (DOT :: b)) at 1.
      by rewrite firstn_all, app_nil_r.
  - cbn [length]. rewrite Nat.sub_0_r. by rewrite firstn_all, app_nil_r.
Qed.

Example file_parts_examples :
  (file_stem (js "user.dart"), file_ext (js "user.dart"))
    = (js "user", js ".dart") /\
  (file_stem (js "user.g.dart"), file_ext (js "user.g.dart"))
    = (js "user.g", js ".dart") /\
  (file_stem (js "Makefile"), file_ext (js "Makefile")) = (js "Makefile", []) /\
  (file_stem (js ".dart"), file_ext (js ".dart")) = (js ".dart", []) /\
  (file_stem (js "notes."), file_ext (js "notes.")) = (js "notes", js ".").
Proof. repeat split; vm_compute; reflexivity. Qed.

(** *** The loops of [extname] and [basename] on the last segment *)

Lemma extname_loop_no_dot (g r : jsstring) :
  forall (i sp e : Z) (ms : bool) (pds : Z),
    SLASH ∉ g -> DOT ∉ g -> g <> [] ->
    (Z.of_nat (length g) <= i + 1)%Z ->
    posix.extname_loop (g ++ r) i (-1) sp e ms pds =
    posix.extname_loop r (i - Z.of_nat (length g)) (-1) sp
      (if (e =? -1)%Z then (i + 1)%Z else e)
      (if (e =? -1)%Z then false else ms) pds.
Proof.
  induction g as [|c g IH]; intros i sp e ms pds Hs Hd Hne Hi; [done|].
  apply not_elem_of_cons in Hs as [Hc Hs].
  apply not_elem_of_cons in Hd as [Hcd Hd].
  cbn [app posix.extname_loop]. unfold posix.is_slash.
  rewrite (proj2 (N.eqb_neq c SLASH)) by congruence.
  rewrite (proj2 (N.eqb_neq c DOT)) by congruence.
  change (-1 =? -1)%Z with true. cbn [negb]. cbn [length] in Hi |- *.
  destruct g as [|c' g].
  - cbn [app length]. f_equal; lia.
  - rewrite IH; [|done|done|done|cbn [length] in *; lia].
    cbn [length].
    replace (i - 1 - Z.of_nat (S (length g)))%Z
      with (i - Z.of_nat (S (S (length g))))%Z by lia.
    destruct (Z.eqb_spec e (-1)).
    + rewrite (proj2 (Z.eqb_neq (i + 1) (-1))) by (cbn [length] in Hi; lia). done.
    + rewrite (proj2 (Z.eqb_neq e (-1))) by done. done.
Qed.

Lemma extname_loop_after_dot (g r : jsstring) :
  forall (i sd sp e : Z) (ms : bool) (pds : Z),
    SLASH ∉ g -> sd <> (-1)%Z -> e <> (-1)%Z ->
    posix.extname_loop (g ++ r) i sd sp e ms pds =
    posix.extname_loop r (i - Z.of_nat (length g)) sd sp e ms
      (match last g with
       | Some c => if c =? DOT then 1%Z else (-1)%Z
       | None => pds
       end).
Proof.
  induction g as [|c g IH]; intros i sd sp e ms pds Hs Hsd He.
  { cbn [app length last]. f_equal; lia. }
  apply not_elem_of_cons in Hs as [Hc Hs].
  cbn [app posix.extname_loop]. unfold posix.is_slash.
  rewrite (proj2 (N.eqb_neq c SLASH)) by congruence.
  rewrite (proj2 (Z.eqb_neq e (-1))) by done.
  rewrite (proj2 (Z.eqb_neq sd (-1))) by done. cbn [negb].
  replace (i - Z.of_nat (length (c :: g)))%Z
    with (i - 1 - Z.of_nat (length g))%Z by (cbn [length]; lia).
  destruct (c =? DOT) eqn:Hdot; rewrite IH by done;
    (destruct g as [|c' g]; cbn [last]; [by rewrite Hdot|]);
    (destruct (last (c' :: g)) eqn:Hlast; [reflexivity|]);
    by apply last_None in Hlast.
Qed.

Lemma extname_loop_first_dot (r : jsstring) (i sp e : Z) (ms : bool) (pds : Z) :
  posix.extname_loop (DOT :: r) i (-1) sp e ms pds =
  posix.extname_loop r (i - 1) i sp
    (if (e =? -1)%Z then (i + 1)%Z else e)
    (if (e =? -1)%Z then false else ms) pds.
Proof. reflexivity. Qed.

(** The loops stop at the separator before the last segment, or at the
    start of the path. *)
Lemma extname_loop_stop (pre : jsstring) (sd e pds : Z) :
  pre = [] \/ (exists x, pre = x ++ [SLASH]) ->
  posix.extname_loop (rev pre) (Z.of_nat (length pre) - 1) sd 0 e false pds =
  (sd, Z.of_nat (length pre), e, pds).
Proof.
  intros [->|(x & ->)]; [reflexivity|].
  rewrite rev_app_distr, length_app. cbn [rev app length posix.extname_loop].
  unfold posix.is_slash. rewrite N.eqb_refl. cbn [negb].
  repeat f_equal; lia.
Qed.

Lemma slice_middle (a b c : jsstring) :
  posix.slice (a ++ b ++ c) (Z.of_nat (length a))
    (Z.of_nat (length a + length b)) = b.
Proof.
  unfold posix.slice. rewrite !Nat2Z.id.
  rewrite drop_app_length.
  replace (length a + length b - length a)%nat with (length b) by lia.
  by rewrite take_app_length.
Qed.

Lemma rev_not_nil (l : jsstring) : l <> [] -> rev l <> [].
Proof.
  intros Hne Heq. apply (f_equal (@rev N)) in Heq.
  by rewrite rev_involutive in Heq.
Qed.

(** From the end of the path to its last dot. *)
Lemma extname_loop_to_dot (b r : jsstring) (m : nat) :
  SLASH ∉ b -> DOT ∉ b ->
  posix.extname_loop (rev b ++ DOT :: r)
    (Z.of_nat (m + S (length b)) - 1) (-1) 0 (-1) true 0 =
  posix.extname_loop r (Z.of_nat m - 1) (Z.of_nat m) 0
    (Z.of_nat (m + S (length b))) false 0.
Proof.
  intros Hb Hdot. destruct (decide (b = [])) as [->|Hne].
  - cbn [rev app]. rewrite extname_loop_first_dot.
    change (-1 =? -1)%Z with true. cbn iota.
    cbn [length]. f_equal; lia.
  - rewrite extname_loop_no_dot;
      [|by apply not_elem_of_rev|by apply not_elem_of_rev|by apply rev_not_nil
       |rewrite length_rev; lia].
    rewrite length_rev. change (-1 =? -1)%Z with true. cbn iota.
    rewrite extname_loop_first_dot.
    rewrite (proj2 (Z.eqb_neq (Z.of_nat (m + S (length b)) - 1 + 1) (-1))) by lia.
    f_equal; lia.
Qed.

Lemma posix_extname_dot (pre a b : jsstring) :
  pre = [] \/ (exists x, pre = x ++ [SLASH]) ->
  SLASH ∉ a -> SLASH ∉ b -> DOT ∉ b -> a <> [] ->
  a ++ DOT :: b <> js ".." ->
  posix.extname (pre ++ a ++ DOT :: b) = DOT :: b.
Proof.
  intros Hpre Ha Hb Hdot Hne Hdd.
  unfold posix.extname.
  rewrite !rev_app_distr. cbn [rev]. rewrite <- !app_assoc. cbn [app].
  rewrite !length_app. cbn [length].
  set (k := length pre).
  replace (k + (length a + S (length b)))%nat
    with ((k + length a) + S (length b))%nat by lia.
  rewrite extname_loop_to_dot by done.
  set (n := ((k + length a) + S (length b))%nat).
  rewrite extname_loop_after_dot; [|by apply not_elem_of_rev|lia|lia].
  rewrite length_rev.
  replace (Z.of_nat (k + length a) - 1 - Z.of_nat (length a))%Z
    with (Z.of_nat (length pre) - 1)%Z by (unfold k; lia).
  rewrite extname_loop_stop by done.
  assert (Hlast : exists c a', a = c :: a' /\ last (rev a) = Some c).
  { destruct a as [|c a']; [done|]. exists c, a'. split; [done|].
    cbn [rev]. by rewrite last_snoc. }
  destruct Hlast as (c & a' & -> & ->).
  rewrite (proj2 (Z.eqb_neq (Z.of_nat (k + length (c :: a'))) (-1))) by lia.
  rewrite (proj2 (Z.eqb_neq (Z.of_nat n) (-1))) by lia.
  assert (Hcond :
    ((if (c =? DOT)%N then 1%Z else (-1)%Z) =? 0)%Z ||
    (((if (c =? DOT)%N then 1%Z else (-1)%Z) =? 1)%Z &&
     (Z.of_nat (k + length (c :: a')) =? Z.of_nat n - 1)%Z &&
     (Z.of_nat (k + length (c :: a')) =? Z.of_nat (length pre) + 1)%Z) = false).
  { destruct (N.eqb_spec c DOT) as [->|]; [|reflexivity].
    change ((1 =? 0)%Z) with false. change ((1 =? 1)%Z) with true.
    cbn [orb andb].
    destruct (Z.eqb_spec (Z.of_nat (k + length (DOT :: a'))) (Z.of_nat n - 1));
      [|reflexivity].
    destruct (Z.eqb_spec (Z.of_nat (k + length (DOT :: a')))
                (Z.of_nat (length pre) + 1)); [|reflexivity].
    exfalso. apply Hdd. unfold n, k in *. cbn [length] in *.
    destruct a'; [|cbn [length] in *; lia].
    destruct b; [reflexivity|cbn [length] in *; lia]. }
  cbn [orb]. rewrite Hcond.
  unfold n, k. rewrite <- length_app.
  rewrite <- (length_app (pre ++ c :: a') (DOT :: b)) at 1.
  rewrite (app_assoc pre (c :: a') (DOT :: b)).
  replace (Z.of_nat (length ((pre ++ c :: a') ++ DOT :: b)))
    with (Z.of_nat (length (pre ++ c :: a') + length (DOT :: b)))
    by (by rewrite <- length_app).
  rewrite <- (app_nil_r (DOT :: b)) at 1.
  apply (slice_middle (pre ++ c :: a') (DOT :: b) []).
Qed.

(** A file name without a dot, or whose only dot comes first, has no
    extension. *)
Lemma posix_extname_none (pre f : jsstring) :
  pre = [] \/ (exists x, pre = x ++ [SLASH]) ->
  SLASH ∉ f -> f <> [] ->
  DOT ∉ f \/ (exists b, f = DOT :: b /\ (DOT ∉ b)) ->
  posix.extname (pre ++ f) = [].
Proof.
  intros Hpre Hs Hne Hcase. unfold posix.extname.
  rewrite rev_app_distr, length_app.
  destruct Hcase as [Hdot|(b & -> & Hdot)].
  - rewrite extname_loop_no_dot;
      [|by apply not_elem_of_rev|by apply not_elem_of_rev|by apply rev_not_nil
       |rewrite length_rev; lia].
    rewrite length_rev. change (-1 =? -1)%Z with true. cbn iota.
    replace (Z.of_nat (length pre + length f) - 1 - Z.of_nat (length f))%Z
      with (Z.of_nat (length pre) - 1)%Z by lia.
    by rewrite extname_loop_stop.
  - apply not_elem_of_cons in Hs as [_ Hs].
    cbn [rev length]. rewrite <- app_assoc. cbn [app].
    rewrite extname_loop_to_dot by done.
    rewrite extname_loop_stop by done.
    rewrite (proj2 (Z.eqb_neq (Z.of_nat (length pre)) (-1))) by lia.
    rewrite (proj2 (Z.eqb_neq (Z.of_nat (length pre + S (length b))) (-1))) by lia.
    reflexivity.
Qed.

(** *** [basename] *)

Lemma basename_loop_segment (g r : jsstring) :
  forall (i e : Z) (ms : bool),
    SLASH ∉ g -> g <> [] -> (Z.of_nat (length g) <= i + 1)%Z ->
    posix.basename_loop (g ++ r) i e ms =
    posix.basename_loop r (i - Z.of_nat (length g))
      (if (e =? -1)%Z then (i + 1)%Z else e)
      (if (e =? -1)%Z then false else ms).
Proof.
  induction g as [|c g IH]; intros i e ms Hs Hne Hi; [done|].
  apply not_elem_of_cons in Hs as [Hc Hs].
  cbn [app posix.basename_loop]. unfold posix.is_slash.
  rewrite (proj2 (N.eqb_neq c SLASH)) by congruence.
  cbn [length] in Hi.
  destruct (decide (g = [])) as [->|Hg].
  - cbn [app length]. destruct (e =? -1)%Z; f_equal; lia.
  - destruct (Z.eqb_spec e (-1)) as [->|He].
    + rewrite IH by (done || lia).
      rewrite (proj2 (Z.eqb_neq (i + 1) (-1))) by lia.
      f_equal. cbn [length]. lia.
    + rewrite IH by (done || lia).
      rewrite (proj2 (Z.eqb_neq e (-1))) by done.
      f_equal. cbn [length]. lia.
Qed.

Lemma basename_loop_stop (pre : jsstring) (e : Z) :
  pre = [] \/ (exists x, pre = x ++ [SLASH]) ->
  posix.basename_loop (rev pre) (Z.of_nat (length pre) - 1) e false =
  (Z.of_nat (length pre), e).
Proof.
  intros [->|(x & ->)]; [reflexivity|].
  rewrite rev_app_distr, length_app. cbn [rev app length posix.basename_loop].
  unfold posix.is_slash. rewrite N.eqb_refl. cbn [negb].
  f_equal. lia.
Qed.

(** Without a suffix, [basename] is the last segment. *)
Lemma posix_basename_plain (pre f : jsstring) :
  pre = [] \/ (exists x, pre = x ++ [SLASH]) ->
  SLASH ∉ f -> f <> [] ->
  posix.basename (pre ++ f) None = f /\
  posix.basename (pre ++ f) (Some []) = f.
Proof.
  intros Hpre Hs Hne.
  assert (Hplain : posix.basename (pre ++ f) None = f).
  { unfold posix.basename. rewrite rev_app_distr, length_app.
    rewrite basename_loop_segment;
      [|by apply not_elem_of_rev|by apply rev_not_nil|rewrite length_rev; lia].
    rewrite length_rev. change (-1 =? -1)%Z with true. cbn iota.
    replace (Z.of_nat (length pre + length f) - 1 - Z.of_nat (length f))%Z
      with (Z.of_nat (length pre) - 1)%Z by lia.
    rewrite basename_loop_stop by done.
    rewrite (proj2 (Z.eqb_neq (Z.of_nat (length pre + length f) - 1 + 1) (-1)))
      by lia.
    replace (Z.of_nat (length pre + length f) - 1 + 1)%Z
      with (Z.of_nat (length pre + length f)) by lia.
    rewrite <- (app_nil_r f) at 1.
    apply (slice_middle pre f []). }
  split; [exact Hplain|]. exact Hplain.
Qed.

(** While the suffix matches, from its last code unit down. *)
Lemma basename_suffix_loop_match (sfx g r : jsstring) :
  forall (s1 s2 : jsstring) (i e : Z) (ms : bool) (first : Z),
    sfx = s1 ++ rev g ++ s2 -> SLASH ∉ g -> g <> [] ->
    (Z.of_nat (length g) <= i + 1)%Z ->
    posix.basename_suffix_loop sfx (g ++ r) i e ms
      (Z.of_nat (length s1 + length g) - 1) first =
    posix.basename_suffix_loop sfx r (i - Z.of_nat (length g))
      (match s1 with [] => (i - Z.of_nat (length g) + 1)%Z | _ => e end)
      (if (first =? -1)%Z then false else ms)
      (Z.of_nat (length s1) - 1)
      (if (first =? -1)%Z then (i + 1)%Z else first).
Proof.
  induction g as [|c g IH]; intros s1 s2 i e ms first Hsfx Hs Hne Hi; [done|].
  apply not_elem_of_cons in Hs as [Hc Hs].
  cbn [app posix.basename_suffix_loop]. unfold posix.is_slash.
  rewrite (proj2 (N.eqb_neq c SLASH)) by congruence.
  cbn [length] in Hi |- *.
  rewrite (proj2 (Z.leb_le 0 (Z.of_nat (length s1 + S (length g)) - 1))) by lia.
  assert (Hnth : nth (Z.to_nat (Z.of_nat (length s1 + S (length g)) - 1)) sfx 0 = c).
  { rewrite Hsfx. cbn [rev]. rewrite <- !app_assoc. cbn [app].
    rewrite (app_assoc s1 (rev g)).
    replace (Z.to_nat (Z.of_nat (length s1 + S (length g)) - 1))
      with (length (s1 ++ rev g)) by (rewrite length_app, length_rev; lia).
    by rewrite nth_middle. }
  rewrite Hnth, N.eqb_refl.
  replace (Z.of_nat (length s1 + S (length g)) - 1 - 1)%Z
    with (Z.of_nat (length s1 + length g) - 1)%Z by lia.
  destruct (decide (g = [])) as [->|Hg].
  - cbn [app length]. rewrite Nat.add_0_r.
    destruct s1 as [|x s1].
    + cbn [length]. change (Z.of_nat 0 - 1 =? -1)%Z with true. cbn iota.
      f_equal; lia.
    + rewrite (proj2 (Z.eqb_neq (Z.of_nat (length (x :: s1)) - 1) (-1)))
        by (cbn [length]; lia).
      f_equal; lia.
  - assert (Hlen : (0 < length g)%nat) by (destruct g; [done|cbn [length]; lia]).
    rewrite (proj2 (Z.eqb_neq (Z.of_nat (length s1 + length g) - 1) (-1))) by lia.
    rewrite (IH s1 (c :: s2)); [|by rewrite Hsfx; cbn [rev]; rewrite <- !app_assoc|done|done|lia].
    replace (i - 1 - Z.of_nat (length g))%Z
      with (i - Z.of_nat (S (length g)))%Z by lia.
    destruct (Z.eqb_spec first (-1)) as [->|Hf].
    + rewrite (proj2 (Z.eqb_neq (i + 1) (-1))) by lia. reflexivity.
    + rewrite (proj2 (Z.eqb_neq first (-1))) by done. reflexivity.
Qed.

(** Once the suffix has been matched, the rest of the segment is passed
    over. *)
Lemma basename_suffix_loop_rest (sfx g r : jsstring) :
  forall (i e : Z) (ms : bool) (extIdx first : Z),
    SLASH ∉ g -> (extIdx < 0)%Z -> first <> (-1)%Z ->
    posix.basename_suffix_loop sfx (g ++ r) i e ms extIdx first =
    posix.basename_suffix_loop sfx r (i - Z.of_nat (length g)) e ms extIdx first.
Proof.
  induction g as [|c g IH]; intros i e ms extIdx first Hs Hext Hf.
  { cbn [app length]. f_equal; lia. }
  apply not_elem_of_cons in Hs as [Hc Hs].
  cbn [app posix.basename_suffix_loop]. unfold posix.is_slash.
  rewrite (proj2 (N.eqb_neq c SLASH)) by congruence.
  rewrite (proj2 (Z.eqb_neq first (-1))) by done.
  rewrite (proj2 (Z.leb_gt 0 extIdx)) by done.
  rewrite IH by done. f_equal. cbn [length]. lia.
Qed.

Lemma basename_suffix_loop_stop (sfx pre : jsstring) (e extIdx first : Z) :
  pre = [] \/ (exists x, pre = x ++ [SLASH]) ->
  posix.basename_suffix_loop sfx (rev pre) (Z.of_nat (length pre) - 1) e false
    extIdx first =
  (Z.of_nat (length pre), e, first).
Proof.
  intros [->|(x & ->)]; [reflexivity|].
  rewrite rev_app_distr, length_app.
  cbn [rev app length posix.basename_suffix_loop].
  unfold posix.is_slash. rewrite N.eqb_refl. cbn [negb].
  repeat f_equal. lia.
Qed.

(** With a suffix that ends the last segment, and something before it,
    [basename] is the segment without the suffix. *)
Lemma posix_basename_suffix (pre a sfx : jsstring) :
  pre = [] \/ (exists x, pre = x ++ [SLASH]) ->
  SLASH ∉ a -> SLASH ∉ sfx -> a <> [] -> sfx <> [] ->
  posix.basename (pre ++ a ++ sfx) (Some sfx) = a.
Proof.
  intros Hpre Ha Hsfx Hne Hsne. unfold posix.basename.
  assert (Hlen : (0 < length sfx)%nat) by (destruct sfx; [done|cbn [length]; lia]).
  assert (Hlena : (0 < length a)%nat) by (destruct a; [done|cbn [length]; lia]).
  rewrite (proj2 (Nat.ltb_lt 0 (length sfx))) by done.
  rewrite (proj2 (Nat.leb_le (length sfx) (length (pre ++ a ++ sfx))))
    by (rewrite !length_app; lia).
  cbn [andb].
  rewrite bool_decide_eq_false_2.
  2:{ intros Heq. apply (f_equal (@length N)) in Heq.
      rewrite !length_app in Heq. lia. }
  rewrite !rev_app_distr, <- !app_assoc, !length_app.
  pose proof (basename_suffix_loop_match sfx (rev sfx) (rev a ++ rev pre)
                [] [] (Z.of_nat (length pre + (length a + length sfx)) - 1)
                (-1) true (-1)) as Hmatch.
  rewrite length_rev in Hmatch. cbn [length Nat.add] in Hmatch.
  rewrite Hmatch;
    [|by rewrite rev_involutive, app_nil_r|by apply not_elem_of_rev
     |by apply rev_not_nil|lia].
  clear Hmatch. change (-1 =? -1)%Z with true. cbn iota.
  rewrite basename_suffix_loop_rest;
    [|by apply not_elem_of_rev|cbn [length]; lia|lia].
  rewrite length_rev.
  replace (Z.of_nat (length pre + (length a + length sfx)) - 1 -
           Z.of_nat (length sfx) - Z.of_nat (length a))%Z
    with (Z.of_nat (length pre) - 1)%Z by lia.
  rewrite basename_suffix_loop_stop by done.
  rewrite (proj2 (Z.eqb_neq (Z.of_nat (length pre)) _)) by lia.
  rewrite (proj2 (Z.eqb_neq _ (-1))) by lia.
  replace (Z.of_nat (length pre + (length a + length sfx)) - 1 -
           Z.of_nat (length sfx) + 1)%Z
    with (Z.of_nat (length pre + length a)) by lia.
  apply slice_middle.
Qed.

(** The name and the extension the command reads off a source path are
    the stem and the extension of its last segment. *)
Lemma posix_name_and_extension (pre f : jsstring) :
  pre = [] \/ (exists x, pre = x ++ [SLASH]) -> seg_ok f ->
  posix.extname (pre ++ f) = file_ext f /\
  posix.basename (pre ++ f) (Some (posix.extname (pre ++ f))) = file_stem f.
Proof.
  intros Hpre (Hne & Hs & _ & Hdd).
  pose proof (file_stem_ext f) as Hsplit.
  unfold file_stem, file_ext in *.
  destruct (after_last_dot f) as [b|] eqn:Hf.
  - destruct (after_last_dot_some _ _ Hf) as (a & -> & Hdot).
    apply not_elem_of_app in Hs as [Ha Hb].
    rewrite length_app in *. cbn [length] in *.
    destruct (Nat.ltb_spec (S (length b)) (length a + S (length b))) as [Hlt|Hge].
    + assert (Hane : a <> []) by (destruct a; [cbn [length] in Hlt; lia|done]).
      apply not_elem_of_cons in Hb as [_ Hb'].
      assert (Hext : posix.extname (pre ++ a ++ DOT :: b) = DOT :: b)
        by (by apply posix_extname_dot).
      split; [exact Hext|]. rewrite Hext. cbn [length].
      replace (length a + S (length b) - S (length b))%nat with (length a) by lia.
      rewrite take_app_length.
      apply posix_basename_suffix; try done.
      apply not_elem_of_cons. split; [done|exact Hb'].
    + assert (a = []) as -> by (destruct a; [done|cbn [length] in Hge; lia]).
      cbn [app] in *.
      assert (Hext : posix.extname (pre ++ DOT :: b) = []).
      { apply posix_extname_none; [done|done|done|]. right. by exists b. }
      split; [exact Hext|]. rewrite Hext. cbn [length]. rewrite Nat.sub_0_r.
      rewrite take_ge by (cbn [length]; lia).
      by apply posix_basename_plain.
  - apply after_last_dot_none in Hf.
    assert (Hext : posix.extname (pre ++ f) = []).
    { apply posix_extname_none; [done|done|done|by left]. }
    split; [exact Hext|]. rewrite Hext. cbn [length]. rewrite Nat.sub_0_r.
    rewrite firstn_all. by apply posix_basename_plain.
Qed.

(** *** The derivation from a well-formed POSIX source path *)

Lemma abs_path_last_segment (Y : list jsstring) (f : jsstring) :
  exists pre, abs_path (Y ++ [f]) = pre ++ f /\ exists x, pre = x ++ [SLASH].
Proof.
  destruct (decide (Y = [])) as [->|Hne].
  - exists (js "/"). split; [reflexivity|]. by exists [].
  - exists (js "/" ++ rel_path Y ++ [SLASH]). split.
    + unfold abs_path. fold (rel_path (Y ++ [f])).
      rewrite rel_path_snoc by done. by rewrite <- !app_assoc.
    + exists (js "/" ++ rel_path Y). by rewrite <- app_assoc.
Qed.

Lemma file_parts_no_slash (f : jsstring) :
  SLASH ∉ f -> (SLASH ∉ file_stem f) /\ (SLASH ∉ file_ext f).
Proof.
  intros Hs. rewrite <- (file_stem_ext f) in Hs.
  by apply not_elem_of_app in Hs.
Qed.

Lemma posix_under_lib (D : list jsstring) (f : jsstring) :
  isUnderLibDirectory (P := posix_path [])
    (rel_path (js "lib" :: D ++ [f])) = true.
Proof.
  rewrite rel_path_cons by (by destruct D).
  unfold isUnderLibDirectory. apply orb_true_iff. right.
  apply startsWith_spec. exists (rel_path (D ++ [f])). reflexivity.
Qed.

Lemma posix_not_under_lib (X : list jsstring) :
  Forall seg_ok X -> X <> [] -> (forall y Y, X <> js "lib" :: y :: Y) ->
  startsWith (rel_path X) (js "lib/") = false.
Proof.
  intros HX Hne Hhead.
  destruct (startsWith (rel_path X) (js "lib/")) eqn:Hsw; [|reflexivity].
  exfalso. apply startsWith_spec in Hsw as (rest & Heq).
  apply (f_equal (split_on SLASH)) in Heq.
  rewrite split_on_rel_path in Heq by done.
  change (js "lib/" ++ rest) with (js "lib" ++ js "/" ++ rest) in Heq.
  rewrite split_on_slash_mid in Heq.
  pose proof (split_on_nonempty SLASH rest) as Hrest.
  destruct (split_on SLASH rest) as [|y Y]; [done|].
  by apply (Hhead y Y).
Qed.

(** The relative import of the library case, from the directory of the
    test file to the source. *)
Lemma posix_lib_relative_import
    (C R D : list jsstring) (f name ext : jsstring) (pkg : option jsstring) :
  Forall seg_ok C -> Forall seg_ok R -> Forall seg_ok D -> seg_ok f ->
  SLASH ∉ name -> SLASH ∉ ext -> truthy pkg = false ->
  importPath (calculateTestFileInfoForLib (P := posix_path (abs_path C))
    (abs_path R) (abs_path (R ++ js "lib" :: D ++ [f]))
    (js "lib/" ++ rel_path (D ++ [f])) name ext pkg) =
  rel_path (replicate (S (length D)) (js "..") ++ js "lib" :: D ++ [f]).
Proof.
  intros HC HR HD Hf Hname Hext Hpkg.
  pose proof (seg_ok_test_file_name name ext Hname Hext) as Htfn.
  unfold calculateTestFileInfoForLib. cbn [importPath]. rewrite Hpkg.
  posix_api. rewrite substring_lib.
  rewrite posix_test_path_under_test by done.
  rewrite !posix_relative_below; try done.
  - change (js "test" :: D ++ [name ++ js "_test" ++ ext])
      with ((js "test" :: D) ++ [name ++ js "_test" ++ ext]).
    rewrite posix_dirname_rel;
      [|by constructor; [apply seg_ok_test|]|done].
    cbn [app]. rewrite posix_relative_diverge; try done.
    + change (js "/") with [SLASH]. rewrite join_split.
      rewrite map_dotdot. reflexivity.
    + constructor; [apply seg_ok_test|done].
    + constructor; [apply seg_ok_lib|]. apply Forall_app. split; [done|by constructor].
  - constructor; [apply seg_ok_lib|]. apply Forall_app. split; [done|by constructor].
  - constructor; [apply seg_ok_test|]. apply Forall_app. split; [done|by constructor].
Qed.

Lemma posix_source_parts (Y : list jsstring) (f : jsstring) :
  seg_ok f ->
  posix.extname (abs_path (Y ++ [f])) = file_ext f /\
  posix.basename (abs_path (Y ++ [f])) (Some (file_ext f)) = file_stem f.
Proof.
  intros Hf.
  destruct (abs_path_last_segment Y f) as (pre & Hsrc & Hpre).
  destruct (posix_name_and_extension pre f (or_intror Hpre) Hf) as [Hext Hname].
  rewrite <- Hsrc in Hext, Hname. rewrite Hext in Hname. by split.
Qed.

(** Outside [lib] the test file stands next to the source. *)
Lemma posix_derive_outside_lib
    (C R S : list jsstring) (f : jsstring) (pkg : option jsstring) :
  Forall seg_ok C -> Forall seg_ok R -> Forall seg_ok S -> seg_ok f ->
  head S <> Some (js "lib") ->
  deriveTestFileInfo (P := posix_path (abs_path C)) (abs_path R)
    (abs_path (R ++ S ++ [f])) pkg =
  mkTestFileInfo
    (abs_path (R ++ S ++ [file_stem f ++ js "_test" ++ file_ext f]))
    (js "./" ++ f).
Proof.
  intros HC HR HS Hf Hhead.
  destruct (posix_source_parts (R ++ S) f Hf) as [Hext Hname].
  rewrite <- app_assoc in Hext, Hname.
  destruct (file_parts_no_slash f (seg_ok_no_slash f Hf)) as [Hstem_s Hext_s].
  pose proof (seg_ok_test_file_name _ _ Hstem_s Hext_s) as Htfn.
  assert (HSf : Forall seg_ok (S ++ [f])).
  { apply Forall_app. split; [done|by constructor]. }
  unfold deriveTestFileInfo. posix_api.
  rewrite posix_relative_below; [|done|done|by destruct S].
  rewrite Hext, Hname.
  assert (Hnot : isUnderLibDirectory (P := posix_path (abs_path C))
                   (rel_path (S ++ [f])) = false).
  { unfold isUnderLibDirectory. posix_api.
    change (js "lib" ++ [SLASH]) with (js "lib/").
    rewrite posix_not_under_lib; [done|done|by destruct S|].
    intros y Y Heq. apply Hhead. destruct S as [|s S']; [by destruct Y|].
    by injection Heq as ->. }
  rewrite Hnot. unfold calculateTestFileInfoForNonLib. posix_api.
  rewrite (app_assoc R S [f]).
  rewrite posix_dirname_abs; [|by apply Forall_app|done].
  rewrite posix_join_abs_seg; [|by apply Forall_app|done].
  rewrite <- app_assoc. by rewrite file_stem_ext.
Qed.

(** Under [lib] the test file mirrors the source under [test]. *)
Lemma posix_derive_under_lib
    (C R D : list jsstring) (f : jsstring) (pkg : option jsstring) :
  Forall seg_ok C -> Forall seg_ok R -> Forall seg_ok D -> seg_ok f ->
  deriveTestFileInfo (P := posix_path (abs_path C)) (abs_path R)
    (abs_path (R ++ js "lib" :: D ++ [f])) pkg =
  mkTestFileInfo
    (abs_path (R ++ js "test" :: D ++
               [file_stem f ++ js "_test" ++ file_ext f]))
    (if truthy pkg
     then js "package:" ++ default [] pkg ++ js "/" ++ rel_path (D ++ [f])
     else rel_path (replicate (Datatypes.S (length D)) (js "..") ++
                    js "lib" :: D ++ [f])).
Proof.
  intros HC HR HD Hf.
  destruct (posix_source_parts (R ++ js "lib" :: D) f Hf) as [Hext Hname].
  rewrite <- app_assoc in Hext, Hname. cbn [app] in Hext, Hname.
  destruct (file_parts_no_slash f (seg_ok_no_slash f Hf)) as [Hstem_s Hext_s].
  assert (HSf : Forall seg_ok (js "lib" :: D ++ [f])).
  { constructor; [apply seg_ok_lib|]. apply Forall_app. split; [done|by constructor]. }
  unfold deriveTestFileInfo. posix_api.
  rewrite posix_relative_below; [|done|done|done].
  rewrite Hext, Hname.
  assert (Hlib : isUnderLibDirectory (P := posix_path (abs_path C))
                   (rel_path (js "lib" :: D ++ [f])) = true)
    by apply posix_under_lib.
  rewrite Hlib.
  replace (rel_path (js "lib" :: D ++ [f]))
    with (js "lib/" ++ rel_path (D ++ [f]))
    by (by rewrite rel_path_cons by (by destruct D)).
  match goal with |- ?info = _ => rewrite (TestFileInfo_eta info) end.
  rewrite calculateTestFileInfoForLib_testPath_posix by done.
  f_equal.
  destruct (truthy pkg) eqn:Hpkg.
  - unfold calculateTestFileInfoForLib. cbn [importPath].
    rewrite Hpkg. posix_api. rewrite substring_lib.
    change (js "/") with [SLASH]. by rewrite join_split.
  - by apply posix_lib_relative_import.
Qed.

(** X9: the whole derivation on POSIX, from the source path alone.  For a
    workspace root and a source below it, both absolute with ordinary
    segments, the name and the extension the command reads off the source
    are the last segment cut at its last dot (no extension when the name has
    no dot or only a leading one), and together they give the file name
    back.  Outside [lib] the test file stands next to the source and imports
    [./<file>]; under [lib] the test file mirrors the source under [test],
    and imports the package URI when a package name is known and the
    relative path otherwise.  The test file keeps the extension of the
    source. *)
Theorem posix_derivation_from_source_path
    (C R S : list jsstring) (f : jsstring) (pkg : option jsstring) :
  Forall seg_ok C -> Forall seg_ok R -> Forall seg_ok S -> seg_ok f ->
  let source := abs_path (R ++ S ++ [f]) in
  let testName := file_stem f ++ js "_test" ++ file_ext f in
  posix.extname source = file_ext f /\
  posix.basename source (Some (posix.extname source)) = file_stem f /\
  file_stem f ++ file_ext f = f /\
  (head S <> Some (js "lib") ->
   deriveTestFileInfo (P := posix_path (abs_path C)) (abs_path R) source pkg =
   mkTestFileInfo (abs_path (R ++ S ++ [testName])) (js "./" ++ f)) /\
  (forall D, S = js "lib" :: D ->
   deriveTestFileInfo (P := posix_path (abs_path C)) (abs_path R) source pkg =
   mkTestFileInfo
     (abs_path (R ++ js "test" :: D ++ [testName]))
     (if truthy pkg
      then js "package:" ++ default [] pkg ++ js "/" ++ rel_path (D ++ [f])
      else rel_path (replicate (Datatypes.S (length D)) (js "..") ++
                     js "lib" :: D ++ [f]))).
Proof.
  intros HC HR HS Hf source testName.
  destruct (posix_source_parts (R ++ S) f Hf) as [Hext Hname].
  rewrite <- app_assoc in Hext, Hname. fold source in Hext, Hname.
  split; [exact Hext|]. split; [by rewrite Hext|].
  split; [apply file_stem_ext|]. split.
  - intros Hhead. by apply posix_derive_outside_lib.
  - intros D ->. apply Forall_cons in HS as [_ HD].
    by apply posix_derive_under_lib.
Qed.

Lemma posix_derivation_from_source_path_witness :
  deriveTestFileInfo (P := posix_path (abs_path [js "home"; js "dev"]))
    (abs_path [js "proj"])
    (abs_path ([js "proj"] ++ [js "lib"; js "models"] ++ [js "user.v2.dart"]))
    (Some (js "my_app"))
  = mkTestFileInfo
      (abs_path ([js "proj"] ++ js "test" :: [js "models"] ++
                 [file_stem (js "user.v2.dart") ++ js "_test" ++
                  file_ext (js "user.v2.dart")]))
      (js "package:" ++ js "my_app" ++ js "/" ++
       rel_path ([js "models"] ++ [js "user.v2.dart"])).
Proof.
  apply (posix_derivation_from_source_path [js "home"; js "dev"] [js "proj"]
           [js "lib"; js "models"] (js "user.v2.dart") (Some (js "my_app"))).
  - repeat constructor; try discriminate; decide_by_computation.
  - repeat constructor; try discriminate; decide_by_computation.
  - repeat constructor; try discriminate; decide_by_computation.
  - repeat constructor; try discriminate; decide_by_computation.
  - reflexivity.
Defined.

(** ** The related file of the file watcher *)

Example refreshRelatedFile_examples :
  refreshRelatedFile (js "/proj/lib/a.dart") = [js "/proj/lib/a_test.dart"] /\
  refreshRelatedFile (js "/proj/test/a_test.dart") = [js "/proj/test/a.dart"] /\
  refreshRelatedFile (js "/proj/pubspec.yaml") = [] /\
  refreshRelatedFile (js "/proj/a.dart.d/b.dart")
    = [js "/proj/a_test.dart.d/b.dart"] /\
  refreshRelatedFile (js "/proj/x_test.dart.bak") = [js "/proj/x.dart.bak"].
Proof. repeat split; vm_compute; reflexivity. Qed.

Lemma includes_spec (s p : jsstring) :
  includes s p = true <-> exists x y, s = x ++ p ++ y.
Proof.
  split; [|intros (x & y & ->); apply includes_app].
  induction s as [|c s IH]; cbn [includes].
  - rewrite orb_false_r. intros (rest & ->)%startsWith_spec.
    by exists [], rest.
  - intros [(rest & ->)%startsWith_spec|Hin]%orb_true_iff.
    + by exists [], rest.
    + destruct (IH Hin) as (x & y & ->). by exists (c :: x), y.
Qed.

Lemma includes_suffix_of_pattern (s a b : jsstring) :
  includes s b = false -> includes s (a ++ b) = false.
Proof.
  intros Hb. destruct (includes s (a ++ b)) eqn:Hab; [|reflexivity].
  apply includes_spec in Hab as (x & y & ->).
  rewrite <- Hb. symmetry. apply includes_spec.
  exists (x ++ a), y. by rewrite <- !app_assoc.
Qed.

Lemma includes_cons_false (c : N) (s p : jsstring) :
  includes (c :: s) p = false ->
  startsWith (c :: s) p = false /\ includes s p = false.
Proof. cbn [includes]. by intros [? ?]%orb_false_iff. Qed.

(** A pattern whose first code unit does not come again in it cannot
    start inside the text before its own occurrence, unless it lies in that
    text. *)
Lemma startsWith_straddle (c : N) (pat' stem : jsstring) :
  c ∉ pat' -> stem <> [] ->
  startsWith stem (c :: pat') = false ->
  startsWith (stem ++ c :: pat') (c :: pat') = false.
Proof.
  intros Hc Hne Hstem.
  destruct (startsWith (stem ++ c :: pat') (c :: pat')) eqn:Hsw; [|reflexivity].
  exfalso. apply startsWith_spec in Hsw as (rest & Heq).
  destruct stem as [|x stem']; [done|]. cbn [app] in Heq.
  injection Heq as -> Heq.
  destruct (Nat.le_gt_cases (length pat') (length stem')) as [Hle|Hgt].
  - assert (Hpre : startsWith (c :: stem') (c :: pat') = true).
    { apply startsWith_spec.
      exists (drop (length pat') stem').
      cbn [app]. f_equal.
      rewrite <- (take_drop (length pat') stem') at 1. f_equal.
      apply (f_equal (take (length pat'))) in Heq.
      rewrite take_app_le in Heq by done.
      by rewrite take_app_length in Heq. }
    congruence.
  - apply Hc.
    assert (Hat : (stem' ++ c :: pat') !! length stem' = Some c)
      by (by rewrite list_lookup_middle).
    rewrite Heq, lookup_app_l in Hat by done.
    by eapply list_elem_of_lookup_2.
Qed.

Lemma replace_first_at (c : N) (pat' rep stem : jsstring) :
  c ∉ pat' -> includes stem (c :: pat') = false ->
  replace_first (stem ++ c :: pat') (c :: pat') rep = stem ++ rep.
Proof.
  intros Hc. induction stem as [|x stem IH]; intros Hinc.
  - cbn [app replace_first].
    rewrite (proj2 (startsWith_spec (c :: pat') (c :: pat')))
      by (exists []; by rewrite app_nil_r).
    change (drop (length (c :: pat')) (c :: pat')) with (drop (length pat') pat').
    by rewrite drop_all, app_nil_r.
  - apply includes_cons_false in Hinc as [Hsw Hinc].
    pose proof (startsWith_straddle c pat' (x :: stem) Hc ltac:(done) Hsw) as Hno.
    cbn [app replace_first] in *. rewrite Hno. by rewrite IH.
Qed.

Lemma endsWith_app (stem sfx : jsstring) : endsWith (stem ++ sfx) sfx = true.
Proof.
  unfold endsWith. rewrite length_app.
  rewrite (proj2 (Nat.leb_le _ _)) by lia.
  replace (length stem + length sfx - length sfx)%nat with (length stem) by lia.
  rewrite drop_app_length. by rewrite bool_decide_eq_true_2.
Qed.

Lemma dart_related (stem : jsstring) :
  includes stem (js ".dart") = false ->
  (includes (stem ++ js ".dart") (js "_test.dart") = false ->
   refreshRelatedFile (stem ++ js ".dart") = [stem ++ js "_test.dart"]) /\
  refreshRelatedFile (stem ++ js "_test.dart") = [stem ++ js ".dart"].
Proof.
  intros Hdart. split.
  - intros Hnot. unfold refreshRelatedFile. rewrite Hnot, endsWith_app.
    cbn zeta. f_equal.
    apply (replace_first_at DOT (js "dart")); [decide_by_computation|done].
  - unfold refreshRelatedFile.
    rewrite <- (app_nil_r (js "_test.dart")) at 1.
    rewrite includes_app. cbn zeta. f_equal.
    apply (replace_first_at 95 (js "test.dart")); [decide_by_computation|].
    by apply (includes_suffix_of_pattern stem (js "_test") (js ".dart")).
Qed.

(** X10: the related file of a source is its test and back.  For a path
    [<stem>.dart] whose stem holds no [.dart], the related file of
    [<stem>_test.dart] is [<stem>.dart]; unless [<stem>.dart] is itself
    taken for a test file, its related file is [<stem>_test.dart], so the
    related file of the related file is the path one started from.  A path
    that neither holds [_test.dart] nor ends in [.dart] has no related
    file. *)
Theorem related_file_round_trip (stem : jsstring) :
  includes stem (js ".dart") = false ->
  includes (stem ++ js ".dart") (js "_test.dart") = false ->
  refreshRelatedFile (stem ++ js ".dart") = [stem ++ js "_test.dart"] /\
  refreshRelatedFile (stem ++ js "_test.dart") = [stem ++ js ".dart"] /\
  (forall p, p ∈ refreshRelatedFile (stem ++ js ".dart") ->
     refreshRelatedFile p = [stem ++ js ".dart"]) /\
  (forall p, includes p (js "_test.dart") = false ->
     endsWith p (js ".dart") = false -> refreshRelatedFile p = []).
Proof.
  intros Hdart Hnot. destruct (dart_related stem Hdart) as [Hto Hback].
  split; [by apply Hto|]. split; [exact Hback|]. split.
  - intros p. rewrite (Hto Hnot). intros ->%list_elem_of_singleton. exact Hback.
  - intros p Hp He. unfold refreshRelatedFile. by rewrite Hp, He.
Qed.

Lemma related_file_round_trip_witness :
  refreshRelatedFile (js "/proj/bin/tool" ++ js ".dart")
  = [js "/proj/bin/tool" ++ js "_test.dart"].
Proof.
  apply (related_file_round_trip (js "/proj/bin/tool")).
  - vm_compute. reflexivity.
  - vm_compute. reflexivity.
Defined.

Lemma after_last_dot_app (a b : jsstring) :
  DOT ∉ b -> after_last_dot (a ++ DOT :: b) = Some b.
Proof.
  intros Hb. induction a as [|c a IH]; cbn [app after_last_dot].
  - destruct (after_last_dot b) as [b'|] eqn:Hb'.
    + apply after_last_dot_some in Hb' as (a' & -> & _).
      exfalso. apply Hb. apply elem_of_app. right. by left.
    + reflexivity.
  - by rewrite IH.
Qed.

Lemma file_parts_dart (name : jsstring) :
  name <> [] ->
  file_ext (name ++ js ".dart") = js ".dart" /\
  file_stem (name ++ js ".dart") = name.
Proof.
  intros Hne.
  assert (Hext : file_ext (name ++ js ".dart") = js ".dart").
  { unfold file_ext.
    change (js ".dart") with (DOT :: js "dart").
    rewrite after_last_dot_app by decide_by_computation.
    rewrite length_app.
    rewrite (proj2 (Nat.ltb_lt _ _)); [done|].
    destruct name; [done|]. cbn [length]. lia. }
  split; [exact Hext|].
  pose proof (file_stem_ext (name ++ js ".dart")) as Hsplit.
  rewrite Hext in Hsplit. by apply app_inv_tail in Hsplit.
Qed.

Lemma seg_ok_dart (name : jsstring) :
  SLASH ∉ name -> name <> [] -> seg_ok (name ++ js ".dart").
Proof.
  intros Hs Hne. split; [by destruct name|]. split.
  - apply not_elem_of_app. split; [done|decide_by_computation].
  - split; intros Heq; apply (f_equal length) in Heq;
      rewrite length_app in Heq; vm_compute (length (js _)) in Heq; lia.
Qed.

Lemma abs_path_with_suffix (Y : list jsstring) (name sfx : jsstring) :
  abs_path (Y ++ [name ++ sfx]) = abs_path (Y ++ [name]) ++ sfx.
Proof.
  unfold abs_path. destruct (decide (Y = [])) as [->|Hne].
  - cbn [app join_with]. by rewrite <- app_assoc.
  - rewrite !join_with_snoc by done. by rewrite <- !app_assoc.
Qed.

(** X11: the file watcher and the path deriver name the same pair outside
    [lib], and not under it.  On POSIX, for a Dart source
    [<root>/<dirs>/<name>.dart] outside [lib] whose path holds [.dart] only
    at its end and is not itself taken for a test file, the related file of
    the source is the test path the command derives, and the related file
    of that test path is the source.  For such a source under [lib] the
    related file stays under [lib], next to the source, while the derived
    test path is under [test]. *)
Theorem related_file_and_derived_test_path
    (C R S : list jsstring) (name : jsstring) (pkg : option jsstring) :
  Forall seg_ok C -> Forall seg_ok R -> Forall seg_ok S ->
  SLASH ∉ name -> name <> [] ->
  let source := abs_path (R ++ S ++ [name ++ js ".dart"]) in
  let info :=
    deriveTestFileInfo (P := posix_path (abs_path C)) (abs_path R) source pkg in
  includes (abs_path (R ++ S ++ [name])) (js ".dart") = false ->
  includes source (js "_test.dart") = false ->
  refreshRelatedFile source =
    [abs_path (R ++ S ++ [name ++ js "_test.dart"])] /\
  (head S <> Some (js "lib") ->
   refreshRelatedFile source = [testPath info] /\
   refreshRelatedFile (testPath info) = [source]) /\
  (forall D, S = js "lib" :: D ->
   testPath info = abs_path (R ++ js "test" :: D ++ [name ++ js "_test.dart"]) /\
   refreshRelatedFile source <> [testPath info]).
Proof.
  intros HC HR HS Hname Hne.
  assert (Htn : seg_ok (name ++ js "_test.dart")).
  { change (name ++ js "_test.dart") with (name ++ js "_test" ++ js ".dart").
    apply seg_ok_test_file_name; [done|decide_by_computation]. }
  intros source info Hdart Hnot.
  pose proof (seg_ok_dart name Hname Hne) as Hf.
  destruct (file_parts_dart name Hne) as [Hext Hstem].
  pose proof (fun Hhead =>
    posix_derive_outside_lib C R S (name ++ js ".dart") pkg HC HR HS Hf Hhead)
    as Hout.
  assert (Hlib : forall D, S = js "lib" :: D ->
    info = mkTestFileInfo
      (abs_path (R ++ js "test" :: D ++
                 [file_stem (name ++ js ".dart") ++ js "_test" ++
                  file_ext (name ++ js ".dart")]))
      (if truthy pkg
       then js "package:" ++ default [] pkg ++ js "/" ++
            rel_path (D ++ [name ++ js ".dart"])
       else rel_path (replicate (Datatypes.S (length D)) (js "..") ++
                      js "lib" :: D ++ [name ++ js ".dart"]))).
  { intros D ->. apply Forall_cons in HS as [_ HD].
    by apply posix_derive_under_lib. }
  fold source in Hout. fold info in Hout.
  rewrite Hext, Hstem in Hout, Hlib.
  assert (Hsrc : source = abs_path (R ++ S ++ [name]) ++ js ".dart").
  { unfold source. by rewrite !app_assoc, abs_path_with_suffix. }
  assert (Htest : abs_path (R ++ S ++ [name ++ js "_test.dart"])
                  = abs_path (R ++ S ++ [name]) ++ js "_test.dart").
  { by rewrite !app_assoc, abs_path_with_suffix. }
  rewrite Hsrc in Hnot.
  destruct (dart_related _ Hdart) as [Hto Hback].
  specialize (Hto Hnot). rewrite <- Hsrc, <- Htest in Hto.
  rewrite <- Hsrc, <- Htest in Hback.
  split; [exact Hto|]. split.
  - intros Hhead. rewrite (Hout Hhead). cbn [testPath].
    change (name ++ js "_test" ++ js ".dart") with (name ++ js "_test.dart").
    by split.
  - intros D HD. rewrite (Hlib D HD). cbn [testPath].
    change (name ++ js "_test" ++ js ".dart") with (name ++ js "_test.dart").
    split; [done|]. rewrite Hto. subst S.
    intros Hsame.
    assert (Heq : abs_path (R ++ js "lib" :: D ++ [name ++ js "_test.dart"])
                  = abs_path (R ++ js "test" :: D ++ [name ++ js "_test.dart"]))
      by exact (f_equal (fun l => default [] (head l)) Hsame).
    clear Hsame. apply abs_path_inj in Heq.
    + apply app_inv_head in Heq. by injection Heq.
    + apply Forall_cons in HS as [_ HD]. apply Forall_app. split; [done|].
      constructor; [apply seg_ok_lib|]. apply Forall_app. split; [done|].
      by constructor.
    + apply Forall_cons in HS as [_ HD]. apply Forall_app. split; [done|].
      constructor; [apply seg_ok_test|]. apply Forall_app. split; [done|].
      by constructor.
Qed.

Lemma related_file_and_derived_test_path_witness :
  refreshRelatedFile
    (abs_path ([js "proj"] ++ [js "bin"] ++ [js "tool" ++ js ".dart"]))
  = [abs_path ([js "proj"] ++ [js "bin"] ++ [js "tool" ++ js "_test.dart"])].
Proof.
  refine (proj1 (related_file_and_derived_test_path [js "home"; js "dev"]
                   [js "proj"] [js "bin"] (js "tool") None _ _ _ _ _ _ _)).
  - repeat constructor; try discriminate; decide_by_computation.
  - repeat constructor; try discriminate; decide_by_computation.
  - repeat constructor; try discriminate; decide_by_computation.
  - decide_by_computation.
  - discriminate.
  - vm_compute. reflexivity.
  - vm_compute. reflexivity.
Defined.

(** ** The generator and the matcher *)

Lemma skip_spaces_app (ws rest : jsstring) :
  all_in is_space ws -> skip_spaces (ws ++ rest) = skip_spaces rest.
Proof.
  induction 1 as [|c ws Hc _ IH]; [reflexivity|].
  cbn [app skip_spaces]. by rewrite Hc.
Qed.

Lemma keyword_found (kw tail : jsstring) :
  kw ∈ pattern_keywords -> starts_with_keyword (kw ++ tail) = true.
Proof.
  intros Hkw. unfold starts_with_keyword. apply existsb_exists.
  exists kw. split; [by apply list_elem_of_In|].
  pose proof keywords_start_without_space as Hall.
  rewrite Forall_forall in Hall. destruct (Hall kw Hkw) as [Hne Hstart].
  destruct kw as [|c kw]; [done|]. cbn in Hstart.
  cbn [app skip_spaces]. rewrite Hstart.
  apply startsWith_spec. by exists tail.
Qed.

Lemma class_head_keyword (head rest : jsstring) :
  class_head head -> starts_with_keyword (head ++ rest) = true.
Proof.
  intros (ws & mods & ws1 & -> & Hws & Hmods & _).
  unfold starts_with_keyword. rewrite <- !app_assoc.
  rewrite skip_spaces_app by done.
  fold (starts_with_keyword
          (modifier_run mods ++ js "class" ++ ws1 ++ rest)).
  destruct mods as [|[kw sp] mods].
  - cbn [modifier_run map concat app].
    apply keyword_found. by left.
  - apply Forall_cons in Hmods as [(Hkw & _) _]. cbn [fst] in Hkw.
    unfold modifier_run. cbn [map concat fst snd].
    rewrite <- !app_assoc. apply keyword_found. by right.
Qed.

(** A line that does not go on with a keyword after its leading white
    space gets no lens. *)
Lemma no_keyword_no_lens documentUri i lineText :
  starts_with_keyword lineText = false ->
  lensOfLine documentUri i lineText = None.
Proof.
  intros Hno. destruct (lensOfLine documentUri i lineText) as [lens|] eqn:Hl;
    [|reflexivity].
  apply lensOfLine_some in Hl as (head & c & rest & -> & Hhead & _).
  rewrite class_head_keyword in Hno by done. discriminate.
Qed.

Lemma crlf_lines_piece (a b : jsstring) :
  LF ∉ a -> last a <> Some CR ->
  crlf_lines (a ++ LF :: b) = a :: crlf_lines b.
Proof.
  induction a as [|c a IH]; intros Hlf Hlast; [reflexivity|].
  apply not_elem_of_cons in Hlf as [Hc Hlf].
  cbn [app crlf_lines].
  rewrite (proj2 (N.eqb_neq c LF)) by congruence.
  destruct a as [|d a].
  - cbn [app]. cbn [last] in Hlast.
    rewrite (proj2 (N.eqb_neq c CR)) by congruence.
    cbn [andb]. cbn [crlf_lines]. rewrite N.eqb_refl. reflexivity.
  - cbn [app]. apply not_elem_of_cons in Hlf as [Hd Hlf'].
    rewrite (proj2 (N.eqb_neq d LF)) by congruence.
    rewrite andb_false_r.
    change (d :: a ++ LF :: b) with ((d :: a) ++ LF :: b).
    rewrite IH; [reflexivity| |exact Hlast].
    apply not_elem_of_cons. by split.
Qed.

(** X12: a generated test file offers no lens.  When the class name and
    the import path hold no line feed, the matcher finds no class
    declaration in the text the generator returns, whatever else the two
    inputs hold. *)
Theorem generated_test_offers_no_lens
    (documentUri className importPath : jsstring) :
  LF ∉ className -> LF ∉ importPath ->
  provideCodeLenses documentUri (generateTestContent className importPath) = [].
Proof.
  intros Hcn Hip. unfold provideCodeLenses. rewrite split_lines_spec.
  unfold generateTestContent. rewrite <- !app_assoc.
  assert (Himport : LF ∉ js "import '" ++ importPath ++ js "';").
  { rewrite !not_elem_of_app. split; [decide_by_computation|].
    split; [done|decide_by_computation]. }
  assert (Hgroup : LF ∉ js "  group('" ++ className ++ js "', () {").
  { rewrite !not_elem_of_app. split; [decide_by_computation|].
    split; [done|decide_by_computation]. }
  assert (Hlines :
    crlf_lines
      (js "import '" ++ importPath ++ js "';" ++ [LF] ++ [LF] ++
       js "void main() {" ++ [LF] ++
       js "  group('" ++ className ++ js "', () {" ++ [LF] ++ [LF] ++
       js "  });" ++ [LF] ++ js "}" ++ [LF]) =
    [ js "import '" ++ importPath ++ js "';"; [];
      js "void main() {";
      js "  group('" ++ className ++ js "', () {"; [];
      js "  });"; js "}"; [] ]).
  { transitivity
      (crlf_lines
         ((js "import '" ++ importPath ++ js "';") ++ LF ::
          [] ++ LF ::
          js "void main() {" ++ LF ::
          (js "  group('" ++ className ++ js "', () {") ++ LF ::
          [] ++ LF ::
          js "  });" ++ LF :: js "}" ++ LF :: [])).
    { f_equal. by rewrite <- !app_assoc. }
    rewrite (crlf_lines_piece (js "import '" ++ importPath ++ js "';"));
      [|done|by rewrite !last_app].
    rewrite (crlf_lines_piece []); [|apply not_elem_of_nil|done].
    rewrite (crlf_lines_piece (js "void main() {"));
      [|decide_by_computation|by vm_compute].
    rewrite (crlf_lines_piece (js "  group('" ++ className ++ js "', () {"));
      [|done|by rewrite !last_app].
    rewrite (crlf_lines_piece []); [|apply not_elem_of_nil|done].
    rewrite (crlf_lines_piece (js "  });"));
      [|decide_by_computation|by vm_compute].
    rewrite (crlf_lines_piece (js "}"));
      [|decide_by_computation|by vm_compute].
    reflexivity. }
  rewrite Hlines. cbn [lensesFrom].
  rewrite !no_keyword_no_lens; [reflexivity|by vm_compute..].
Qed.

Lemma generated_test_offers_no_lens_witness :
  provideCodeLenses (js "file:///proj/test/user_test.dart")
    (generateTestContent (js "User") (js "package:my_app/user.dart")) = [].
Proof.
  apply (generated_test_offers_no_lens (js "file:///proj/test/user_test.dart")
           (js "User") (js "package:my_app/user.dart"));
    decide_by_computation.
Defined.

(** *** The lines of a document *)

Lemma join_with_push_front (c : N) (lines : list jsstring) :
  lines <> [] ->
  join_with [LF] (push_front [c] lines) = c :: join_with [LF] lines.
Proof.
  destruct lines as [|l lines]; [done|]. intros _.
  cbn [push_front]. destruct lines; reflexivity.
Qed.

Lemma push_front_length (piece : jsstring) (lines : list jsstring) :
  lines <> [] -> length (push_front piece lines) = length lines.
Proof. by destruct lines. Qed.

Lemma push_front_no_lf (c : N) (lines : list jsstring) :
  c <> LF -> Forall (fun l => LF ∉ l) lines ->
  Forall (fun l => LF ∉ l) (push_front [c] lines).
Proof.
  intros Hc Hall. destruct lines as [|l lines]; cbn [push_front].
  - constructor; [|done].
    apply not_elem_of_cons. split; [congruence|apply not_elem_of_nil].
  - apply Forall_cons in Hall as [Hl Hall]. constructor; [|done].
    cbn [app]. apply not_elem_of_cons. split; [congruence|done].
Qed.

Lemma crlf_lines_facts (n : nat) :
  forall s, (length s <= n)%nat ->
    Forall (fun l => LF ∉ l) (crlf_lines s) /\
    length (crlf_lines s) = S (count_occ N.eq_dec s LF) /\
    join_with [LF] (crlf_lines s) = lf_endings s.
Proof.
  induction n as [|n IH]; intros s Hn.
  { destruct s; [|cbn [length] in Hn; lia].
    split; [|done]. constructor; [apply not_elem_of_nil|done]. }
  destruct s as [|c s].
  { split; [|done]. constructor; [apply not_elem_of_nil|done]. }
  cbn [length] in Hn.
  destruct (IH s ltac:(lia)) as (Hall & Hlen & Hjoin).
  cbn [crlf_lines lf_endings count_occ].
  pose proof (crlf_lines_nonempty s) as Hne.
  destruct (N.eqb_spec c LF) as [->|Hc].
  - change (LF =? CR) with false. cbn [andb].
    destruct (N.eq_dec LF LF) as [_|]; [|done].
    split; [constructor; [apply not_elem_of_nil|done]|].
    split; [cbn [length]; by rewrite Hlen|].
    rewrite join_with_cons by done. cbn [app]. by rewrite Hjoin.
  - destruct (N.eq_dec c LF) as [|_]; [done|].
    destruct s as [|d s].
    { cbn [head]. rewrite bool_decide_eq_false_2 by done.
      rewrite andb_false_r.
      split; [|done]. constructor; [|done].
      apply not_elem_of_cons. split; [congruence|apply not_elem_of_nil]. }
    cbn [head].
    destruct ((c =? CR) && (d =? LF)) eqn:Hcrlf.
    + apply andb_true_iff in Hcrlf as [Hcr Hlf].
      apply N.eqb_eq in Hlf as ->. rewrite Hcr.
      rewrite bool_decide_eq_true_2 by done. cbn [andb].
      cbn [length] in Hn.
      destruct (IH s ltac:(lia)) as (Hall' & Hlen' & Hjoin').
      split; [constructor; [apply not_elem_of_nil|done]|].
      split.
      * cbn [length count_occ]. destruct (N.eq_dec LF LF); [|done].
        by rewrite Hlen'.
      * rewrite join_with_cons by apply crlf_lines_nonempty.
        cbn [app lf_endings]. change (LF =? CR) with false. cbn [andb].
        by rewrite Hjoin'.
    + assert (Hnot : (c =? CR) && bool_decide (Some d = Some LF) = false).
      { apply andb_false_iff in Hcrlf as [Hcr|Hlf]; [by rewrite Hcr|].
        rewrite bool_decide_eq_false_2; [apply andb_false_r|].
        intros [= ->]. by rewrite N.eqb_refl in Hlf. }
      rewrite Hnot.
      split; [by apply push_front_no_lf|].
      split; [by rewrite push_front_length|].
      rewrite join_with_push_front by done. by rewrite Hjoin.
Qed.

(** X13: how the matcher cuts a document into lines.  No line holds a
    line feed, there is one line more than there are line feeds, so the
    line of a lens counts the line feeds before it, and the lines joined by
    line feeds are the text with every carriage return right before a line
    feed left out; a text without carriage returns is given back as it
    was. *)
Theorem document_lines (text : jsstring) :
  Forall (fun l => LF ∉ l) (split_regex LINE_BREAK text) /\
  length (split_regex LINE_BREAK text) = S (count_occ N.eq_dec text LF) /\
  join_with [LF] (split_regex LINE_BREAK text) = lf_endings text /\
  (CR ∉ text -> join_with [LF] (split_regex LINE_BREAK text) = text).
Proof.
  rewrite split_lines_spec.
  destruct (crlf_lines_facts (length text) text (Nat.le_refl _))
    as (Hall & Hlen & Hjoin).
  split; [exact Hall|]. split; [exact Hlen|]. split; [exact Hjoin|].
  intros Hcr. rewrite Hjoin. clear -Hcr.
  induction text as [|c text IH]; [reflexivity|].
  apply not_elem_of_cons in Hcr as [Hc Hcr]. cbn [lf_endings].
  rewrite (proj2 (N.eqb_neq c CR)) by congruence. cbn [andb].
  by rewrite IH.
Qed.

Lemma ident_char_literal (c : N) : ident_char c = true -> literal_unit c.
Proof.
  intros Hc. unfold literal_unit, QUOTE, BACKSLASH, DOLLAR, LF, CR.
  unfold ident_char, in_range in Hc.
  rewrite ?orb_true_iff, ?andb_true_iff, ?N.eqb_eq, ?N.leb_le in Hc. lia.
Qed.

Lemma identifier_literal (name : jsstring) :
  identifier name -> Forall literal_unit name.
Proof.
  intros (c & cs & -> & Hc & Hcs). constructor.
  - apply ident_char_literal. unfold ident_start, ident_char in *.
    rewrite ?orb_true_iff in *. tauto.
  - eapply Forall_impl; [exact Hcs|]. apply ident_char_literal.
Qed.

Lemma count_occ_absent (c : N) (s : jsstring) :
  c ∉ s -> count_occ N.eq_dec s c = 0%nat.
Proof.
  intros Hc. apply count_occ_not_In. by rewrite <- list_elem_of_In.
Qed.

(** X14: the class name a lens passes to the command needs no escaping.
    The argument of every lens carries the URI of the document and an
    identifier, none of whose code units is a single quote, a backslash, a
    dollar sign or a line break; so the generator, which substitutes its
    inputs as they are, puts it between the quotes of the group line
    unbroken: the generated text has the four single quotes of the template
    and those of the import path, and the class name adds no line. *)
Theorem lens_class_name_needs_no_escape
    (documentUri text importPath : jsstring) (lens : CodeLens)
    (args : ClassInfo) :
  lens ∈ provideCodeLenses documentUri text ->
  args ∈ arguments (lens_command lens) ->
  uri args = documentUri /\
  identifier (className args) /\
  Forall literal_unit (className args) /\
  count_occ N.eq_dec (generateTestContent (className args) importPath) QUOTE =
    (4 + count_occ N.eq_dec importPath QUOTE)%nat /\
  count_occ N.eq_dec (generateTestContent (className args) importPath) LF =
    (7 + count_occ N.eq_dec importPath LF)%nat.
Proof.
  intros Hlens Hargs. unfold provideCodeLenses in Hlens.
  apply lensesFrom_elem in Hlens as (j & lineText & _ & Hl).
  apply lensOfLine_some in Hl as (head & c & rest & _ & _ & Hc & ->).
  cbn [lensFor lens_command arguments] in Hargs.
  apply list_elem_of_singleton in Hargs as ->. cbn [uri className].
  assert (Hid : identifier (c :: take_while ident_char rest)).
  { exists c, (take_while ident_char rest). split; [done|]. split; [done|].
    clear. induction rest as [|d rest IH]; cbn [take_while]; [constructor|].
    destruct (ident_char d) eqn:Hd; [by constructor|constructor]. }
  pose proof (identifier_literal _ Hid) as Hlit.
  set (name := c :: take_while ident_char rest) in *. clearbody name.
  split; [done|]. split; [done|]. split; [done|].
  assert (Hq : QUOTE ∉ name).
  { intros Hin. rewrite Forall_forall in Hlit.
    by destruct (Hlit _ Hin) as (? & _). }
  assert (Hlf : LF ∉ name).
  { intros Hin. rewrite Forall_forall in Hlit.
    by destruct (Hlit _ Hin) as (_ & _ & _ & ? & _). }
  unfold generateTestContent. rewrite !count_occ_app.
  rewrite (count_occ_absent QUOTE name Hq), (count_occ_absent LF name Hlf).
  unfold js. simpl. lia.
Qed.

Lemma lens_class_name_needs_no_escape_witness :
  count_occ N.eq_dec
    (generateTestContent (js "User") (js "package:my_app/user.dart")) QUOTE
  = (4 + count_occ N.eq_dec (js "package:my_app/user.dart") QUOTE)%nat.
Proof.
  refine (proj1 (proj2 (proj2 (proj2
    (lens_class_name_needs_no_escape (js "file:///proj/lib/user.dart")
       (js "final class User {") (js "package:my_app/user.dart")
       (lensFor (js "file:///proj/lib/user.dart") 0 (js "final class User")
          (js "User"))
       (mkClassInfo (js "file:///proj/lib/user.dart") (js "User")) _ _))))).
  - vm_compute. left.
  - vm_compute. left.
Defined.
